(** * emdash: the git backend of the desktop tool

    A shallow embedding of [src/main/services/GitService.ts] (the local
    execution backend and the diff parser) and of the change-notification
    and branch handlers of [src/main/ipc/gitIpc.ts], with the properties
    the specification states about them.

    Conventions of the embedding.
    - A JavaScript string is a [string]: a sequence of code units, here
      restricted to the range 0..255.
    - A JavaScript [number] that holds a count or a position is a [Z].
    - [undefined]/[null] is [None].
    - An [async] function is a computation in the monad [M]: it threads the
      world (the child processes run so far, the registries of the main
      process) and either returns a value or throws. One call runs to
      completion; interleavings of concurrent calls are not modelled.
    - The version-control executable, the file system, the source of
      UUIDs and the remote git service are oracles of the world: each
      answers a query at a moment, the number of interactions made so
      far, and nothing is assumed about the answers. *)

From Stdlib Require Import ZArith Ascii String List Lia Bool DecimalString.
From Stdlib Require DecimalPos.
From stdpp Require Import base option list strings gmap.

Open Scope Z_scope.

(* ===================================================================== *)
(** * JavaScript string primitives used by the sources *)
(* ===================================================================== *)

Module Js.

(** [s.startsWith(p)] *)
Definition startsWith (s p : string) : bool := String.prefix p s.

(** [s.includes(p)] *)
Fixpoint includes (s p : string) : bool :=
  String.prefix p s ||
  match s with
  | EmptyString => false
  | String _ s' => includes s' p
  end.

(** White space as [trim], [parseInt] and the regular expression class
    [\s] see it, among the code units below 256. *)
Definition isSpace (c : ascii) : bool :=
  Ascii.is_space c || Ascii.eqb c "160"%char.

Fixpoint trimStart (s : string) : string :=
  match s with
  | String c s' => if isSpace c then trimStart s' else s
  | EmptyString => EmptyString
  end.

Definition trimEnd (s : string) : string :=
  String.rev (trimStart (String.rev s)).

(** [s.trim()] *)
Definition trim (s : string) : string := trimEnd (trimStart s).

(** A string in a condition: the empty string is falsy. *)
Definition truthy (s : string) : bool :=
  match s with EmptyString => false | _ => true end.

(** [s.split(sep)] for a non-empty separator string. [skip] counts the
    code units of a separator just matched that are still to be passed
    over; [cur] is the piece being collected, reversed. *)
Fixpoint split_go (sep : string) (skip : nat) (cur : string) (s : string)
  : list string :=
  match s with
  | EmptyString => [String.rev cur]
  | String c s' =>
      match skip with
      | S k => split_go sep k cur s'
      | O =>
          if String.prefix sep s
          then String.rev cur :: split_go sep (Nat.pred (String.length sep)) EmptyString s'
          else split_go sep O (String c cur) s'
      end
  end.

Definition split (s sep : string) : list string := split_go sep O EmptyString s.

(** [s.split(/\s+/)]: the pieces between the maximal runs of white
    space. [inrun] tells that the previous code unit was white space. *)
Fixpoint splitSpaces_go (inrun : bool) (cur : string) (s : string) : list string :=
  match s with
  | EmptyString => [String.rev cur]
  | String c s' =>
      if isSpace c
      then if inrun then splitSpaces_go true cur s'
           else String.rev cur :: splitSpaces_go true EmptyString s'
      else splitSpaces_go false (String c cur) s'
  end.

Definition splitSpaces (s : string) : list string := splitSpaces_go false EmptyString s.

(** [l.join(sep)] *)
Definition join (sep : string) (l : list string) : string := String.concat sep l.

(** [s.slice(n)] for [0 <= n] *)
Fixpoint slice (n : nat) (s : string) : string :=
  match n, s with
  | O, _ => s
  | S k, String _ s' => slice k s'
  | S _, EmptyString => EmptyString
  end.

Definition digit (c : ascii) : option Z := Z.of_nat <$> Ascii.is_nat c.

(** The longest run of decimal digits at the head of [s], as a number;
    [acc] is [None] until a digit has been read. *)
Fixpoint digits (acc : option Z) (s : string) : option Z :=
  match s with
  | String c s' =>
      match digit c with
      | Some d => digits (Some (10 * default 0 acc + d)) s'
      | None => acc
      end
  | EmptyString => acc
  end.

(** [parseInt(s, 10)]; [None] is [NaN]. Counts stay far below 2^53, where
    the doubles of JavaScript are exact. *)
Definition parseInt (s : string) : option Z :=
  match trimStart s with
  | String "-"%char r => Z.opp <$> digits None r
  | String "+"%char r => digits None r
  | r => digits None r
  end.

(** [x || 0] on the result of [parseInt]: [NaN] and [0] give [0]. *)
Definition orZero (x : option Z) : Z := default 0 x.

(** [`${b}`] for a boolean *)
Definition ofBool (b : bool) : string := if b then "true" else "false".

(** [`${n}`] for an integer *)
Definition ofZ (n : Z) : string :=
  match n with
  | Z0 => "0"
  | Zpos p => DecimalString.NilEmpty.string_of_uint (Pos.to_uint p)
  | Zneg p => String "-"%char (DecimalString.NilEmpty.string_of_uint (Pos.to_uint p))
  end.

End Js.

(* ===================================================================== *)
(** * The world of the main process, and the monad of async functions *)
(* ===================================================================== *)

Module Sys.

(** One call of [execFileAsync(prog, args, { cwd })]. *)
Record Cmd := mkCmd { prog : string; args : list string; cwd : string }.

#[global] Instance Cmd_eq_dec : EqDecision Cmd.
Proof. solve_decision. Defined.

(** The error a failed child process rejects with. *)
Record ExecError := mkExecError { stderr : option string; message : string }.

(** What a function throws: the rejection of a child process, passed on
    as it is; an [Error] the code itself constructs; or a value that is
    not an [Error]. *)
Inductive Exn :=
| ExecFailure (e : ExecError)
| JsError (msg : string)
| NonError (v : string).

(** [(error as { stderr?: string })?.stderr] *)
Definition exn_stderr (e : Exn) : option string :=
  match e with
  | ExecFailure x => stderr x
  | JsError _ | NonError _ => None
  end.

(** [error instanceof Error ? error.message : String(error)] *)
Definition exn_message (e : Exn) : string :=
  match e with
  | ExecFailure x => message x
  | JsError m => m
  | NonError v => v
  end.

Inductive Res (A : Type) :=
| Ok (a : A)
| Throw (e : Exn).
Arguments Ok {A} a.
Arguments Throw {A} e.

(** [fs.Stats], as far as the sources read it. *)
Module Stats.
Record t := mk { isFile : bool; size : Z }.
End Stats.

(** [GitChange], the entry of a status listing. *)
Record GitChange := mkGitChange {
  path : string;
  status : string;
  additions : Z;
  deletions : Z;
  isStaged : bool;
}.

(** Modelled from the spec: the value [RemoteGitService.getBranchStatus]
    resolves to (that service is not among the sources); its fields are
    those of the data model's BranchStatus. *)
Record BranchStatus := mkBranchStatus {
  branch : string;
  defaultBranch : string;
  ahead : Z;
  behind : Z;
  aheadOfDefault : Z;
}.

(** Everything outside the main process. Each oracle answers a query at a
    given moment [now], the number of interactions made so far, so any
    sequence of answers is possible. The [path_] fields are Node's [path]
    module for the platform and working directory of the process. *)
Record Oracles := mkOracles {
  exec_oracle : nat -> Cmd -> ExecError + string;
  stat_oracle : nat -> string -> option Stats.t;
  readFile_oracle : nat -> string -> option string;
  existsSync_oracle : nat -> string -> bool;
  watch_oracle : nat -> string -> option Exn;
  uuid_oracle : nat -> string;
  resolveRemote_oracle : nat -> string -> option string;
  remoteStatus_oracle : nat -> string -> string -> Exn + list GitChange;
  remoteBranchStatus_oracle : nat -> string -> string -> Exn + BranchStatus;
  remoteRenameBranch_oracle : nat -> string -> string -> string -> string -> Exn + bool;
  platform : string;
  path_sep : string;
  path_resolve : list string -> string;
  path_join : list string -> string;
}.

(** [GitStatusWatchEntry]: the [fs.FSWatcher] is the handle it was given. *)
Record GitStatusWatchEntry := mkWatchEntry {
  watcher : nat;
  watchIds : gset string;
  debounceTimer : option nat;
}.

(** [RemoteStatusPollEntry] *)
Record RemoteStatusPollEntry := mkPollEntry {
  intervalId : nat;
  poll_watchIds : gset string;
  lastStatusHash : string;
  connectionId : string;
}.

(** The world. [trace] lists the child processes run so far, oldest
    first. The two registries are the module-level maps of [gitIpc.ts].
    [openWatchers], [liveIntervals] and [pendingTimeouts] are the
    handles of the runtime that have been created and not yet closed or
    cleared; [broadcasts] are the ['git:status-changed'] payloads sent,
    oldest first. *)
Record World := mkWorld {
  now : nat;
  trace : list Cmd;
  oracles : Oracles;
  gitStatusWatchers : gmap string GitStatusWatchEntry;
  remoteStatusPollers : gmap string RemoteStatusPollEntry;
  nextHandle : nat;
  openWatchers : gset nat;
  liveIntervals : gset nat;
  pendingTimeouts : gset nat;
  broadcasts : list (string * option string);
}.

Definition M (A : Type) : Type := World -> Res A * World.

Definition ret {A} (a : A) : M A := fun w => (Ok a, w).

Definition bind {A B} (m : M A) (k : A -> M B) : M B :=
  fun w =>
    match m w with
    | (Ok a, w') => k a w'
    | (Throw e, w') => (Throw e, w')
    end.

Definition throw {A} (e : Exn) : M A := fun w => (Throw e, w).

(** [try { m } catch (e) { h e }] *)
Definition try_catch {A} (m : M A) (h : Exn -> M A) : M A :=
  fun w =>
    match m w with
    | (Ok a, w') => (Ok a, w')
    | (Throw e, w') => h e w'
    end.

(** One more interaction with the outside has taken place. *)
Definition tick (w : World) : World :=
  mkWorld (S (now w)) (trace w) (oracles w) (gitStatusWatchers w)
    (remoteStatusPollers w) (nextHandle w) (openWatchers w)
    (liveIntervals w) (pendingTimeouts w) (broadcasts w).

Definition log_cmd (c : Cmd) (w : World) : World :=
  mkWorld (S (now w)) (trace w ++ [c]) (oracles w) (gitStatusWatchers w)
    (remoteStatusPollers w) (nextHandle w) (openWatchers w)
    (liveIntervals w) (pendingTimeouts w) (broadcasts w).

(** Ask an oracle; the answer is that of the present moment. *)
Definition ask {A} (q : Oracles -> nat -> A) : M A :=
  fun w => (Ok (q (oracles w) (now w)), tick w).

(** Ask an oracle whose call may reject. *)
Definition ask_or_throw {A} (q : Oracles -> nat -> Exn + A) : M A :=
  fun w =>
    match q (oracles w) (now w) with
    | inr a => (Ok a, tick w)
    | inl e => (Throw e, tick w)
    end.

(** Read a constant of the platform. *)
Definition platform_of {A} (q : Oracles -> A) : M A :=
  fun w => (Ok (q (oracles w)), w).

(** [await execFileAsync(p, a, { cwd: d })], resolved to its [stdout]. *)
Definition execFileAsync (p : string) (a : list string) (d : string) : M string :=
  fun w =>
    let c := mkCmd p a d in
    match exec_oracle (oracles w) (now w) c with
    | inr out => (Ok out, log_cmd c w)
    | inl e => (Throw (ExecFailure e), log_cmd c w)
    end.

(** [await fs.promises.stat(p)]; [None] when it rejects. *)
Definition stat (p : string) : M (option Stats.t) :=
  ask (fun o n => stat_oracle o n p).

(** [await fs.promises.readFile(p, 'utf8')]; [None] when it rejects. *)
Definition readFile (p : string) : M (option string) :=
  ask (fun o n => readFile_oracle o n p).

(** [fs.existsSync(p)] *)
Definition existsSync (p : string) : M bool :=
  ask (fun o n => existsSync_oracle o n p).

(** [randomUUID()] *)
Definition randomUUID : M string :=
  ask (fun o n => uuid_oracle o n).

(** [await resolveRemoteProjectForWorktreePath(p)], as the
    [sshConnectionId] of the remote project, if there is one. *)
Definition resolveRemoteProjectForWorktreePath (p : string) : M (option string) :=
  ask (fun o n => resolveRemote_oracle o n p).

Declare Scope js_scope.
Delimit Scope js_scope with js.
Notation "x <- m ;; k" := (bind m (fun x => k))
  (at level 100, m at next level, right associativity) : js_scope.
Notation "m ;;; k" := (bind m (fun _ => k))
  (at level 100, right associativity) : js_scope.
Local Open Scope js_scope.

(** Reading and writing the state of the main process. *)
Definition get {A} (f : World -> A) : M A := fun w => (Ok (f w), w).

Definition modify (f : World -> World) : M unit := fun w => (Ok tt, f w).

Definition set_gitStatusWatchers (m : gmap string GitStatusWatchEntry) (w : World) : World :=
  mkWorld (now w) (trace w) (oracles w) m
    (remoteStatusPollers w) (nextHandle w) (openWatchers w)
    (liveIntervals w) (pendingTimeouts w) (broadcasts w).

Definition set_remoteStatusPollers (m : gmap string RemoteStatusPollEntry) (w : World) : World :=
  mkWorld (now w) (trace w) (oracles w) (gitStatusWatchers w)
    m (nextHandle w) (openWatchers w)
    (liveIntervals w) (pendingTimeouts w) (broadcasts w).

(** A fresh handle of the runtime. *)
Definition newHandle : M nat :=
  fun w =>
    (Ok (nextHandle w),
     mkWorld (now w) (trace w) (oracles w) (gitStatusWatchers w)
       (remoteStatusPollers w) (S (nextHandle w)) (openWatchers w)
       (liveIntervals w) (pendingTimeouts w) (broadcasts w)).

Definition set_openWatchers (s : gset nat) (w : World) : World :=
  mkWorld (now w) (trace w) (oracles w) (gitStatusWatchers w)
    (remoteStatusPollers w) (nextHandle w) s
    (liveIntervals w) (pendingTimeouts w) (broadcasts w).

Definition set_liveIntervals (s : gset nat) (w : World) : World :=
  mkWorld (now w) (trace w) (oracles w) (gitStatusWatchers w)
    (remoteStatusPollers w) (nextHandle w) (openWatchers w)
    s (pendingTimeouts w) (broadcasts w).

Definition set_pendingTimeouts (s : gset nat) (w : World) : World :=
  mkWorld (now w) (trace w) (oracles w) (gitStatusWatchers w)
    (remoteStatusPollers w) (nextHandle w) (openWatchers w)
    (liveIntervals w) s (broadcasts w).

Definition set_broadcasts (l : list (string * option string)) (w : World) : World :=
  mkWorld (now w) (trace w) (oracles w) (gitStatusWatchers w)
    (remoteStatusPollers w) (nextHandle w) (openWatchers w)
    (liveIntervals w) (pendingTimeouts w) l.

(** [setInterval(...)], [setTimeout(...)]: the callback is a definition
    of its own, run when the runtime fires the handle. *)
Definition setInterval : M nat :=
  h <- newHandle ;;
  modify (fun w => set_liveIntervals ({[h]} ∪ liveIntervals w) w) ;;;
  ret h.

Definition clearInterval (h : nat) : M unit :=
  modify (fun w => set_liveIntervals (liveIntervals w ∖ {[h]}) w).

Definition setTimeout : M nat :=
  h <- newHandle ;;
  modify (fun w => set_pendingTimeouts ({[h]} ∪ pendingTimeouts w) w) ;;;
  ret h.

Definition clearTimeout (h : nat) : M unit :=
  modify (fun w => set_pendingTimeouts (pendingTimeouts w ∖ {[h]}) w).

(** [fs.watch(p, { recursive: true }, listener)]: a new open watcher, or
    the exception the call throws. *)
Definition fsWatch (p : string) : M nat :=
  failure <- ask (fun o n => watch_oracle o n p) ;;
  match failure with
  | Some e => throw e
  | None =>
      h <- newHandle ;;
      modify (fun w => set_openWatchers ({[h]} ∪ openWatchers w) w) ;;;
      ret h
  end.

(** [watcher.close()] *)
Definition closeWatcher (h : nat) : M unit :=
  modify (fun w => set_openWatchers (openWatchers w ∖ {[h]}) w).

(** The commands a computation adds to the trace of [w]. *)
Definition issued {A} (m : M A) (w : World) : list Cmd :=
  drop (length (trace w)) (trace (snd (m w))).

Definition result {A} (m : M A) (w : World) : Res A := fst (m w).

End Sys.

Import Sys.

Open Scope js_scope.

(* ===================================================================== *)
(** * src/main/services/GitService.ts *)
(* ===================================================================== *)

(** [DiffLine]: [{ left?: string; right?: string; type }]. *)
Module DiffLine.

Inductive kind := context | add | del.

Record t := mk { left : option string; right : option string; type : kind }.

End DiffLine.

Module GitService.

Definition MAX_UNTRACKED_DIFF_BYTES : Z := 512 * 1024.

(** [readFileTextCapped]: the text of a regular file of at most
    [maxBytes] bytes, [None] otherwise or when it cannot be read. *)
Definition readFileTextCapped (filePath : string) (maxBytes : Z)
  : M (option string) :=
  st <- stat filePath ;;
  match st with
  | None => ret None
  | Some st =>
      if negb (Stats.isFile st) || (maxBytes <? Stats.size st) then ret None
      else readFile filePath
  end.

(** Headers emitted by [git diff] that are skipped when parsing hunks. *)
Definition DIFF_HEADER_PREFIXES : list string :=
  [ "diff "; "index "; "--- "; "+++ "; "@@"; "new file mode";
    "old file mode"; "deleted file mode"; "similarity index";
    "rename from"; "rename to"; "Binary files" ].

(** The body of the loop of [parseDiffLines] for one line: [None] where
    the loop [continue]s, the record it pushes otherwise. For the empty
    line [line[0]] is [undefined], which the first test excludes. *)
Definition parseLine (line : string) : option DiffLine.t :=
  if negb (Js.truthy line) then None
  else if existsb (fun p => Js.startsWith line p) DIFF_HEADER_PREFIXES then None
  else
    match line with
    | String prefix content =>
        if Ascii.eqb prefix "\"%char then None
        else if Ascii.eqb prefix " "%char
        then Some (DiffLine.mk (Some content) (Some content) DiffLine.context)
        else if Ascii.eqb prefix "-"%char
        then Some (DiffLine.mk (Some content) None DiffLine.del)
        else if Ascii.eqb prefix "+"%char
        then Some (DiffLine.mk None (Some content) DiffLine.add)
        else Some (DiffLine.mk (Some line) (Some line) DiffLine.context)
    | EmptyString =>
        Some (DiffLine.mk (Some line) (Some line) DiffLine.context)
    end.

(** [parseDiffLines]: the lines and the binary flag. *)
Definition parseDiffLines (stdout : string) : list DiffLine.t * bool :=
  let linesRaw := Js.split stdout (String "010"%char EmptyString) in
  let result := omap parseLine linesRaw in
  let isBinary := (length result =? 0)%nat && Js.includes stdout "Binary files" in
  (result, isBinary).

(** The value [getFileDiff] and [getCommitFileDiff] resolve to. *)
Record FileDiff := mkFileDiff {
  lines : list DiffLine.t;
  isBinary : option bool;
}.

Definition addLine (l : string) : DiffLine.t := DiffLine.mk None (Some l) DiffLine.add.
Definition delLine (l : string) : DiffLine.t := DiffLine.mk (Some l) None DiffLine.del.

Definition NL : string := String "010"%char EmptyString.

(** The test both diff functions start with:
    [!absPath.startsWith(resolvedTaskPath + path.sep) && absPath !== resolvedTaskPath] *)
Definition outsideWorktree (o : Oracles) (taskPath filePath : string) : bool :=
  let absPath := path_resolve o [taskPath; filePath] in
  let resolvedTaskPath := path_resolve o [taskPath] in
  negb (Js.startsWith absPath (resolvedTaskPath +:+ path_sep o))
  && negb (String.eqb absPath resolvedTaskPath).

Definition getFileDiff (taskPath filePath : string) : M FileDiff :=
  outside <- platform_of (fun o => outsideWorktree o taskPath filePath) ;;
  if outside then throw (JsError "File path is outside the worktree")
  else
    try_catch
      (stdout <- execFileAsync "git"
         ["diff"; "--no-color"; "--unified=2000"; "HEAD"; "--"; filePath] taskPath ;;
       let '(result, isBin) := parseDiffLines stdout in
       if isBin then ret (mkFileDiff [] (Some true))
       else if (length result =? 0)%nat then
         try_catch
           (abs <- platform_of (fun o => path_join o [taskPath; filePath]) ;;
            content <- readFileTextCapped abs MAX_UNTRACKED_DIFF_BYTES ;;
            match content with
            | Some content => ret (mkFileDiff (map addLine (Js.split content NL)) None)
            | None =>
                prev <- execFileAsync "git" ["show"; "HEAD:" +:+ filePath] taskPath ;;
                ret (mkFileDiff (map delLine (Js.split prev NL)) None)
            end)
           (fun _ => ret (mkFileDiff [] None))
       else ret (mkFileDiff result None))
      (fun _ =>
         abs <- platform_of (fun o => path_join o [taskPath; filePath]) ;;
         content <- readFileTextCapped abs MAX_UNTRACKED_DIFF_BYTES ;;
         match content with
         | Some content => ret (mkFileDiff (map addLine (Js.split content NL)) None)
         | None =>
             try_catch
               (prev <- execFileAsync "git" ["show"; "HEAD:" +:+ filePath] taskPath ;;
                ret (mkFileDiff (map delLine (Js.split prev NL)) None))
               (fun _ => ret (mkFileDiff [] None))
         end).

(** [push]: resolves to the [output] field. *)
Definition indicatesNoUpstream (error : Exn) : bool :=
  let stderr := default "" (exn_stderr error) in
  Js.includes stderr "has no upstream branch"
  || Js.includes stderr "no upstream configured".

Definition push (taskPath : string) : M string :=
  try_catch
    (stdout <- execFileAsync "git" ["push"] taskPath ;;
     ret (Js.trim stdout))
    (fun error =>
       if indicatesNoUpstream error then
         branch <- execFileAsync "git" ["branch"; "--show-current"] taskPath ;;
         stdout <- execFileAsync "git"
           ["push"; "--set-upstream"; "origin"; Js.trim branch] taskPath ;;
         ret (Js.trim stdout)
       else throw error).

(** A commit of the log, as [getLog] returns it. *)
Record Commit := mkCommit {
  hash : string;
  subject : string;
  body : string;
  author : string;
  date : string;
  isPushed : bool;
  tags : list string;
}.

(** The three attempts of [getLog] to count the commits the remote does
    not have, in the order the nested [try] blocks make them. *)
Definition aheadOfUpstream (taskPath : string) : M Z :=
  countOut <- execFileAsync "git"
    ["rev-list"; "--count"; "@{upstream}..HEAD"] taskPath ;;
  ret (Js.orZero (Js.parseInt (Js.trim countOut))).

Definition aheadOfOriginBranch (taskPath : string) : M Z :=
  branchOut <- execFileAsync "git" ["rev-parse"; "--abbrev-ref"; "HEAD"] taskPath ;;
  let currentBranch := Js.trim branchOut in
  countOut <- execFileAsync "git"
    ["rev-list"; "--count"; "origin/" +:+ currentBranch +:+ "..HEAD"] taskPath ;;
  ret (Js.orZero (Js.parseInt (Js.trim countOut))).

Definition aheadOfOriginHead (taskPath : string) : M Z :=
  defaultBranchOut <- execFileAsync "git"
    ["symbolic-ref"; "--short"; "refs/remotes/origin/HEAD"] taskPath ;;
  let defaultBranch := Js.trim defaultBranchOut in
  countOut <- execFileAsync "git"
    ["rev-list"; "--count"; defaultBranch +:+ "..HEAD"] taskPath ;;
  ret (Js.orZero (Js.parseInt (Js.trim countOut))).

(** The block of [getLog] guarded by [if (aheadCount < 0)]. *)
Definition computeAheadCount (taskPath : string) : M Z :=
  try_catch (aheadOfUpstream taskPath) (fun _ =>
  try_catch (aheadOfOriginBranch taskPath) (fun _ =>
  try_catch (aheadOfOriginHead taskPath) (fun _ =>
  ret 0))).

Definition FIELD_SEP : string := "---FIELD_SEP---".
Definition RECORD_SEP : string := "---RECORD_SEP---".

(** [parts[i] || ''] *)
Definition part (parts : list string) (i : nat) : string :=
  default "" (parts !! i).

(** The function [getLog] maps over the entries of the log. *)
Definition parseEntry (skip aheadCount : Z) (index : nat) (entry : string) : Commit :=
  let parts := Js.split (Js.trim entry) FIELD_SEP in
  let refs := part parts 4 in
  let tags :=
    map (Js.slice 5)
      (filter (fun r => Is_true (Js.startsWith r "tag: "))
         (map Js.trim (Js.split refs ","))) in
  mkCommit (part parts 0) (part parts 1) (Js.trim (part parts 5))
    (part parts 2) (part parts 3)
    (skip + Z.of_nat index >=? aheadCount)
    tags.

(** [getLog(taskPath, maxCount = 50, skip = 0, knownAheadCount?)]:
    the commits and the ahead count. *)
Definition getLog (taskPath : string) (maxCount skip knownAheadCount : option Z)
  : M (list Commit * Z) :=
  let maxCount := default 50 maxCount in
  let skip := default 0 skip in
  let aheadCount := default (-1) knownAheadCount in
  aheadCount <-
    (if aheadCount <? 0 then computeAheadCount taskPath else ret aheadCount) ;;
  let format :=
    RECORD_SEP +:+ "%H" +:+ FIELD_SEP +:+ "%s" +:+ FIELD_SEP +:+ "%an" +:+ FIELD_SEP
      +:+ "%aI" +:+ FIELD_SEP +:+ "%D" +:+ FIELD_SEP +:+ "%b" in
  stdout <- execFileAsync "git"
    ["log"; "--max-count=" +:+ Js.ofZ maxCount; "--skip=" +:+ Js.ofZ skip;
     "--pretty=format:" +:+ format; "--"] taskPath ;;
  if negb (Js.truthy (Js.trim stdout)) then ret ([], aheadCount)
  else
    let commits :=
      imap (parseEntry skip aheadCount)
        (filter (fun entry => Is_true (Js.truthy (Js.trim entry)))
           (Js.split stdout RECORD_SEP)) in
    ret (commits, aheadCount).

(** [getLatestCommit]: [commits[0] || null]. *)
Definition getLatestCommit (taskPath : string) : M (option Commit) :=
  r <- getLog taskPath (Some 1) None None ;;
  ret (head (fst r)).

(** [getCommitFileDiff] *)
Definition getCommitFileDiff (taskPath commitHash filePath : string) : M FileDiff :=
  outside <- platform_of (fun o => outsideWorktree o taskPath filePath) ;;
  if outside then throw (JsError "File path is outside the worktree")
  else
    hasParent <-
      try_catch
        (execFileAsync "git" ["rev-parse"; "--verify"; commitHash +:+ "~1"] taskPath ;;;
         ret true)
        (fun _ => ret false) ;;
    if hasParent : bool then
      stdout <- execFileAsync "git"
        ["diff"; "--no-color"; "--unified=2000"; commitHash +:+ "~1"; commitHash;
         "--"; filePath] taskPath ;;
      let '(result, isBin) := parseDiffLines stdout in
      if isBin then ret (mkFileDiff [] (Some true))
      else ret (mkFileDiff result None)
    else
      try_catch
        (content <- execFileAsync "git"
           ["show"; commitHash +:+ ":" +:+ filePath] taskPath ;;
         ret (mkFileDiff (map addLine (Js.split content NL)) None))
        (fun _ => ret (mkFileDiff [] None)).

(** [softResetLastCommit]: resolves to the subject and the body of the
    commit that was reset. *)
Definition softResetLastCommit (taskPath : string) : M (string * string) :=
  try_catch
    (execFileAsync "git" ["rev-parse"; "--verify"; "HEAD~1"] taskPath ;;; ret tt)
    (fun _ => throw (JsError "Cannot undo the initial commit")) ;;;
  r <- getLog taskPath (Some 1) None None ;;
  let log := fst r in
  if match head log with Some c => isPushed c | None => false end
  then throw (JsError "Cannot undo a commit that has already been pushed")
  else
    subject <- execFileAsync "git" ["log"; "-1"; "--pretty=format:%s"] taskPath ;;
    body <- execFileAsync "git" ["log"; "-1"; "--pretty=format:%b"] taskPath ;;
    execFileAsync "git" ["reset"; "--soft"; "HEAD~1"] taskPath ;;;
    ret (Js.trim subject, Js.trim body).

End GitService.

(* ===================================================================== *)
(** * src/main/ipc/gitIpc.ts *)
(* ===================================================================== *)

Module GitIpc.

(** What the watch functions return:
    [{ success: true, watchId }] or [{ success: false, error }]. *)
Inductive WatchReply :=
| Watching (watchId : string)
| WatchFailed (error : string).

Definition supportsRecursiveWatch (o : Oracles) : bool :=
  String.eqb (platform o) "darwin" || String.eqb (platform o) "win32".

(** [broadcastGitStatusChange]: the payload goes to every window. *)
Definition broadcastGitStatusChange (taskPath : string) (error : option string) : M unit :=
  modify (fun w => set_broadcasts (broadcasts w ++ [(taskPath, error)]) w).

(** The fingerprint the remote poller computes from a status listing. *)
Definition statusHash (changes : list GitChange) : string :=
  Js.join "|"
    (map (fun c => path c +:+ ":" +:+ status c +:+ ":" +:+ Js.ofBool (isStaged c))
       changes).

(** The callback [ensureRemoteStatusPoller] hands to [setInterval]: one
    poll of the remote status. *)
Definition pollRemoteStatus (taskPath connectionId : string) : M unit :=
  try_catch
    (changes <- ask_or_throw (fun o n => remoteStatus_oracle o n connectionId taskPath) ;;
     let hash := statusHash changes in
     poller <- get (fun w => remoteStatusPollers w !! taskPath) ;;
     match poller with
     | None => ret tt
     | Some poller =>
         if negb (String.eqb hash (lastStatusHash poller)) then
           modify (fun w =>
             set_remoteStatusPollers
               (<[taskPath :=
                    mkPollEntry (intervalId poller) (poll_watchIds poller) hash
                      (Sys.connectionId poller)]> (remoteStatusPollers w)) w) ;;;
           broadcastGitStatusChange taskPath None
         else ret tt
     end)
    (fun _ => ret tt).

Definition ensureRemoteStatusPoller (taskPath connectionId : string) : M WatchReply :=
  watchId <- randomUUID ;;
  existing <- get (fun w => remoteStatusPollers w !! taskPath) ;;
  match existing with
  | Some existing =>
      modify (fun w =>
        set_remoteStatusPollers
          (<[taskPath :=
               mkPollEntry (intervalId existing) ({[watchId]} ∪ poll_watchIds existing)
                 (lastStatusHash existing) (Sys.connectionId existing)]>
             (remoteStatusPollers w)) w) ;;;
      ret (Watching watchId)
  | None =>
      h <- setInterval ;;
      modify (fun w =>
        set_remoteStatusPollers
          (<[taskPath := mkPollEntry h {[watchId]} "" connectionId]>
             (remoteStatusPollers w)) w) ;;;
      ret (Watching watchId)
  end.

(** [if (watchId) ids.delete(watchId)] *)
Definition forget (watchId : option string) (ids : gset string) : gset string :=
  match watchId with
  | Some i => if Js.truthy i then ids ∖ {[i]} else ids
  | None => ids
  end.

Definition releaseRemoteStatusPoller (taskPath : string) (watchId : option string) : M unit :=
  entry <- get (fun w => remoteStatusPollers w !! taskPath) ;;
  match entry with
  | None => ret tt
  | Some entry =>
      let ids := forget watchId (poll_watchIds entry) in
      modify (fun w =>
        set_remoteStatusPollers
          (<[taskPath :=
               mkPollEntry (intervalId entry) ids (lastStatusHash entry)
                 (Sys.connectionId entry)]> (remoteStatusPollers w)) w) ;;;
      if (size ids <=? 0)%nat then
        clearInterval (intervalId entry) ;;;
        modify (fun w => set_remoteStatusPollers (delete taskPath (remoteStatusPollers w)) w)
      else ret tt
  end.

(** The listener [ensureGitStatusWatcher] hands to [fs.watch]: a raw
    event restarts the debounce timer. *)
Definition onWatchEvent (taskPath : string) : M unit :=
  entry <- get (fun w => gitStatusWatchers w !! taskPath) ;;
  match entry with
  | None => ret tt
  | Some entry =>
      match debounceTimer entry with
      | Some t => clearTimeout t
      | None => ret tt
      end ;;;
      t <- setTimeout ;;
      modify (fun w =>
        set_gitStatusWatchers
          (<[taskPath := mkWatchEntry (watcher entry) (watchIds entry) (Some t)]>
             (gitStatusWatchers w)) w)
  end.

(** The debounce timer [t] of [taskPath] comes due: it fires if it has
    not been cleared. *)
Definition onDebounceFire (taskPath : string) (t : nat) : M unit :=
  pending <- get (fun w => bool_decide (t ∈ pendingTimeouts w)) ;;
  if pending : bool then
    clearTimeout t ;;;
    broadcastGitStatusChange taskPath None
  else ret tt.

(** The ['error'] listener of the watcher. *)
Definition onWatcherError (taskPath : string) : M unit :=
  entry <- get (fun w => gitStatusWatchers w !! taskPath) ;;
  match entry with
  | Some entry =>
      match debounceTimer entry with
      | Some t => clearTimeout t
      | None => ret tt
      end ;;;
      closeWatcher (watcher entry)
  | None => ret tt
  end ;;;
  modify (fun w => set_gitStatusWatchers (delete taskPath (gitStatusWatchers w)) w) ;;;
  broadcastGitStatusChange taskPath (Some "watcher-error").

Definition ensureGitStatusWatcher (taskPath : string) : M WatchReply :=
  supported <- platform_of supportsRecursiveWatch ;;
  if negb supported then ret (WatchFailed "recursive-watch-unsupported")
  else
    present <- (if Js.truthy taskPath then existsSync taskPath else ret false) ;;
    if negb present then ret (WatchFailed "workspace-unavailable")
    else
      existing <- get (fun w => gitStatusWatchers w !! taskPath) ;;
      watchId <- randomUUID ;;
      match existing with
      | Some existing =>
          modify (fun w =>
            set_gitStatusWatchers
              (<[taskPath :=
                   mkWatchEntry (watcher existing) ({[watchId]} ∪ watchIds existing)
                     (debounceTimer existing)]> (gitStatusWatchers w)) w) ;;;
          ret (Watching watchId)
      | None =>
          try_catch
            (h <- fsWatch taskPath ;;
             modify (fun w =>
               set_gitStatusWatchers
                 (<[taskPath := mkWatchEntry h {[watchId]} None]>
                    (gitStatusWatchers w)) w) ;;;
             ret (Watching watchId))
            (fun error =>
               ret (WatchFailed
                      match error with
                      | NonError _ => "Failed to watch workspace"
                      | _ => exn_message error
                      end))
      end.

Definition releaseGitStatusWatcher (taskPath : string) (watchId : option string) : M unit :=
  entry <- get (fun w => gitStatusWatchers w !! taskPath) ;;
  match entry with
  | None => ret tt
  | Some entry =>
      let ids := forget watchId (watchIds entry) in
      modify (fun w =>
        set_gitStatusWatchers
          (<[taskPath := mkWatchEntry (watcher entry) ids (debounceTimer entry)]>
             (gitStatusWatchers w)) w) ;;;
      if (size ids <=? 0)%nat then
        match debounceTimer entry with
        | Some t => clearTimeout t
        | None => ret tt
        end ;;;
        closeWatcher (watcher entry) ;;;
        modify (fun w => set_gitStatusWatchers (delete taskPath (gitStatusWatchers w)) w)
      else ret tt
  end.

(** The handler of ['git:watch-status']. *)
Definition watchStatus (taskPath : string) : M WatchReply :=
  remoteProject <- resolveRemoteProjectForWorktreePath taskPath ;;
  match remoteProject with
  | Some sshConnectionId => ensureRemoteStatusPoller taskPath sshConnectionId
  | None => ensureGitStatusWatcher taskPath
  end.

(** The handler of ['git:unwatch-status']. *)
Definition unwatchStatus (taskPath : string) (watchId : option string) : M unit :=
  remoteProject <- resolveRemoteProjectForWorktreePath taskPath ;;
  match remoteProject with
  | Some _ => releaseRemoteStatusPoller taskPath watchId
  | None => releaseGitStatusWatcher taskPath watchId
  end.

(** ** The handler of ['git:get-branch-status'] *)

Inductive BranchStatusReply :=
| BranchStatusOk (s : BranchStatus)
| BranchStatusFailed (error : string).

Definition upper (c : ascii) : ascii :=
  let n := nat_of_ascii c in
  if (97 <=? n)%nat && (n <=? 122)%nat then ascii_of_nat (n - 32) else c.

(** The keyword [kw] at the head of [s], letters compared without case:
    what follows it. *)
Fixpoint afterKeyword (kw s : string) : option string :=
  match kw, s with
  | EmptyString, _ => Some s
  | String k kw', String c s' =>
      if Ascii.eqb (upper k) (upper c) then afterKeyword kw' s' else None
  | String _ _, EmptyString => None
  end.

(** The longest run of decimal digits at the head of [s]. *)
Fixpoint leadingDigits (s : string) : string :=
  match s with
  | String c s' =>
      match Js.digit c with
      | Some _ => String c (leadingDigits s')
      | None => EmptyString
      end
  | EmptyString => EmptyString
  end.

(** A match of [/kw\s+(\d+)/i] that starts at the head of [s]: its group. *)
Definition countAfterKeywordHere (kw s : string) : option string :=
  match afterKeyword kw s with
  | Some r =>
      let r' := Js.trimStart r in
      if (String.length r' <? String.length r)%nat && Js.truthy (leadingDigits r')
      then Some (leadingDigits r')
      else None
  | None => None
  end.

(** [s.match(/kw\s+(\d+)/i)]: the group of the leftmost match. *)
Fixpoint countAfterKeyword (kw s : string) : option string :=
  match countAfterKeywordHere kw s with
  | Some d => Some d
  | None =>
      match s with
      | String _ s' => countAfterKeyword kw s'
      | EmptyString => None
      end
  end.

(** [x || '0'] *)
Definition orZeroString (x : option string) : string :=
  match x with
  | Some s => if Js.truthy s then s else "0"
  | None => "0"
  end.

(** Reading [behind] and [ahead] off the output of
    [rev-list --left-right --count]; both stay [0] when the output has
    fewer than two fields. The pair is (ahead, behind). *)
Definition readLeftRight (stdout : string) : Z * Z :=
  let parts := Js.splitSpaces (Js.trim stdout) in
  if (2 <=? length parts)%nat then
    (Js.orZero (Js.parseInt (orZeroString (parts !! 1%nat))),
     Js.orZero (Js.parseInt (orZeroString (parts !! 0%nat))))
  else (0, 0).

(** The three attempts of the handler, in the order of its nested [try]
    blocks. *)
Definition againstUpstream (GIT taskPath : string) : M (Z * Z) :=
  stdout <- execFileAsync GIT
    ["rev-list"; "--left-right"; "--count"; "@{upstream}...HEAD"] taskPath ;;
  ret (readLeftRight stdout).

Definition againstOriginBranch (GIT taskPath branch : string) : M (Z * Z) :=
  stdout <- execFileAsync GIT
    ["rev-list"; "--left-right"; "--count"; "origin/" +:+ branch +:+ "...HEAD"] taskPath ;;
  ret (readLeftRight stdout).

Definition fromStatusLine (GIT taskPath : string) : M (Z * Z) :=
  stdout <- execFileAsync GIT ["status"; "-sb"] taskPath ;;
  let line := default "" (head (Js.split stdout GitService.NL)) in
  let m := countAfterKeyword "ahead" line in
  let n := countAfterKeyword "behind" line in
  ret (match m with
       | Some g => Js.orZero (Js.parseInt (orZeroString (Some g)))
       | None => 0
       end,
       match n with
       | Some g => Js.orZero (Js.parseInt (orZeroString (Some g)))
       | None => 0
       end).

(** Ahead and behind, as the handler computes them. *)
Definition aheadBehind (GIT taskPath branch : string) : M (Z * Z) :=
  try_catch (againstUpstream GIT taskPath) (fun _ =>
  try_catch (againstOriginBranch GIT taskPath branch) (fun _ =>
  try_catch (fromStatusLine GIT taskPath) (fun _ =>
  ret (0, 0)))).

Definition determineDefaultBranch (GIT taskPath : string) : M string :=
  try_catch
    (stdout <- execFileAsync "gh"
       ["repo"; "view"; "--json"; "defaultBranchRef"; "-q"; ".defaultBranchRef.name"]
       taskPath ;;
     let db := Js.trim stdout in
     ret (if Js.truthy db then db else "main"))
    (fun _ =>
       try_catch
         (stdout <- execFileAsync GIT
            ["symbolic-ref"; "--short"; "refs/remotes/origin/HEAD"] taskPath ;;
          let line := Js.trim stdout in
          let last := default "" (last (Js.split line "/")) in
          ret (if Js.truthy last then last else "main"))
         (fun _ => ret "main")).

(** The commits ahead of [origin/<defaultBranch>]; [0] on the default
    branch itself and when the count cannot be had. *)
Definition countAheadOfDefault (GIT taskPath branch defaultBranch : string) : M Z :=
  if negb (String.eqb branch defaultBranch) then
    try_catch
      (countOut <- execFileAsync GIT
         ["rev-list"; "--count"; "origin/" +:+ defaultBranch +:+ "..HEAD"] taskPath ;;
       ret (Js.orZero (Js.parseInt (Js.trim countOut))))
      (fun _ => ret 0)
  else ret 0.

(** The part of the handler that runs for a local working tree that
    exists and is a repository: its outer [try] block. *)
Definition localBranchStatus (GIT taskPath : string) : M BranchStatusReply :=
  try_catch
    (currentBranchOut <- execFileAsync GIT ["branch"; "--show-current"] taskPath ;;
     let branch := Js.trim currentBranchOut in
     defaultBranch <- determineDefaultBranch GIT taskPath ;;
     ab <- aheadBehind GIT taskPath branch ;;
     aheadOfDefault <- countAheadOfDefault GIT taskPath branch defaultBranch ;;
     ret (BranchStatusOk (mkBranchStatus branch defaultBranch (fst ab) (snd ab) aheadOfDefault)))
    (fun error => ret (BranchStatusFailed (exn_message error))).

(** The handler; [GIT] is the executable [resolveGitBin] chose when the
    handlers were registered, [taskPath] the field of its argument. *)
Definition getBranchStatus (GIT : string) (taskPath : option string) : M BranchStatusReply :=
  match taskPath with
  | None => ret (BranchStatusFailed "Path does not exist")
  | Some taskPath =>
      if negb (Js.truthy taskPath) then ret (BranchStatusFailed "Path does not exist")
      else
        remoteProject <- resolveRemoteProjectForWorktreePath taskPath ;;
        match remoteProject with
        | Some sshConnectionId =>
            try_catch
              (st <- ask_or_throw
                 (fun o n => remoteBranchStatus_oracle o n sshConnectionId taskPath) ;;
               ret (BranchStatusOk st))
              (fun error => ret (BranchStatusFailed (exn_message error)))
        | None =>
            present <- existsSync taskPath ;;
            if negb present then ret (BranchStatusFailed "Path does not exist")
            else
              inside <-
                try_catch
                  (execFileAsync GIT ["rev-parse"; "--is-inside-work-tree"] taskPath ;;;
                   ret true)
                  (fun _ => ret false) ;;
              if negb inside then ret (BranchStatusFailed "Not a git repository")
              else localBranchStatus GIT taskPath
        end
  end.

(** ** The handler of ['git:rename-branch'] *)

Inductive RenameReply :=
| Renamed (remotePushed : bool)
| RenameFailed (error : string).

(** Whether the old branch tracks a remote or exists on [origin], and the
    name of the remote: the block that precedes the rename. *)
Definition detectRemote (GIT repoPath oldBranch : string) : M (bool * string) :=
  try_catch
    (remoteOut <- execFileAsync GIT
       ["config"; "--get"; "branch." +:+ oldBranch +:+ ".remote"] repoPath ;;
     if Js.truthy (Js.trim remoteOut) then ret (true, Js.trim remoteOut)
     else ret (false, "origin"))
    (fun _ =>
       try_catch
         (lsRemote <- execFileAsync GIT
            ["ls-remote"; "--heads"; "origin"; oldBranch] repoPath ;;
          ret (Js.truthy (Js.trim lsRemote), "origin"))
         (fun _ => ret (false, "origin"))).

Definition renameBranch (GIT repoPath oldBranch newBranch : string) : M RenameReply :=
  try_catch
    (remoteProject <- resolveRemoteProjectForWorktreePath repoPath ;;
     match remoteProject with
     | Some sshConnectionId =>
         pushed <- ask_or_throw
           (fun o n => remoteRenameBranch_oracle o n sshConnectionId repoPath oldBranch newBranch) ;;
         ret (Renamed pushed)
     | None =>
         r <- detectRemote GIT repoPath oldBranch ;;
         let remotePushed := fst r in
         let remoteName := snd r in
         execFileAsync GIT ["branch"; "-m"; oldBranch; newBranch] repoPath ;;;
         (if remotePushed then
            try_catch
              (execFileAsync GIT ["push"; remoteName; "--delete"; oldBranch] repoPath ;;;
               ret tt)
              (fun _ => ret tt) ;;;
            execFileAsync GIT ["push"; "-u"; remoteName; newBranch] repoPath ;;;
            ret tt
          else ret tt) ;;;
         ret (Renamed remotePushed)
     end)
    (fun error => ret (RenameFailed (exn_message error))).

End GitIpc.

(* ===================================================================== *)
(** * Node's [path] module on POSIX, and scripted worlds *)
(* ===================================================================== *)

Module Posix.

(** Node's [normalizeString] on the segments of a path: [.] and empty
    segments go, [..] removes the segment before it; above the root it
    is dropped, or kept when [allowAboveRoot]. [acc] is reversed. *)
Fixpoint normalizeSegments (allowAboveRoot : bool) (acc segs : list string)
  : list string :=
  match segs with
  | [] => rev acc
  | seg :: rest =>
      if String.eqb seg "" || String.eqb seg "." then
        normalizeSegments allowAboveRoot acc rest
      else if String.eqb seg ".." then
        match acc with
        | top :: acc' =>
            if String.eqb top ".." then
              normalizeSegments allowAboveRoot
                (if allowAboveRoot then ".." :: acc else acc) rest
            else normalizeSegments allowAboveRoot acc' rest
        | [] =>
            normalizeSegments allowAboveRoot
              (if allowAboveRoot then [".."] else []) rest
        end
      else normalizeSegments allowAboveRoot (seg :: acc) rest
  end.

Definition isAbsolute (p : string) : bool := Js.startsWith p "/".

(** The loop of [path.resolve]: from the right, prepend arguments until
    an absolute one has been taken. *)
Fixpoint resolveLoop (revArgs : list string) (resolved : string) : string * bool :=
  match revArgs with
  | [] => (resolved, false)
  | p :: rest =>
      if negb (Js.truthy p) then resolveLoop rest resolved
      else
        let resolved' := p +:+ "/" +:+ resolved in
        if isAbsolute p then (resolved', true) else resolveLoop rest resolved'
  end.

(** [path.resolve(...args)] in a process whose working directory is [cwd]. *)
Definition resolve (cwd : string) (args : list string) : string :=
  let '(resolved, absolute) := resolveLoop (rev args ++ [cwd]) "" in
  let body := Js.join "/" (normalizeSegments (negb absolute) [] (Js.split resolved "/")) in
  if absolute then "/" +:+ body
  else if Js.truthy body then body else ".".

(** [path.join(...args)] *)
Definition join (args : list string) : string :=
  let joined := Js.join "/" (filter (fun a => Is_true (Js.truthy a)) args) in
  if negb (Js.truthy joined) then "."
  else
    let absolute := isAbsolute joined in
    let trailing := Js.startsWith (String.rev joined) "/" in
    let body := Js.join "/" (normalizeSegments (negb absolute) [] (Js.split joined "/")) in
    if negb (Js.truthy body) then
      if absolute then "/" else if trailing then "./" else "."
    else
      let body := if trailing then body +:+ "/" else body in
      if absolute then "/" +:+ body else body.

End Posix.

Module Example.

Definition failure (err : string) : ExecError + string :=
  inl (mkExecError (Some err) ("Command failed: " +:+ err)).

(** An executable that answers by its arguments alone, from a table; a
    command the table does not list fails. *)
Fixpoint answer (table : list (list string * (ExecError + string))) (a : list string)
  : ExecError + string :=
  match table with
  | [] => failure "fatal: not scripted"
  | (a', r) :: rest => if bool_decide (a = a') then r else answer rest a
  end.

(** A macOS process in [/]; [files] are the regular files that exist,
    with their text; [remote] tells the paths of remote projects;
    [statuses] are the listings the remote polls see, in turn. *)
Definition oraclesOf
    (table : list (list string * (ExecError + string)))
    (files : list (string * string))
    (remote : string -> option string)
    (statuses : nat -> Exn + list GitChange) : Oracles :=
  mkOracles
    (fun _ c => answer table (args c))
    (fun _ p =>
       (fun text => Stats.mk true (Z.of_nat (String.length text))) <$> (list_to_map files : gmap string string) !! p)
    (fun _ p => (list_to_map files : gmap string string) !! p)
    (fun _ _ => true)
    (fun _ _ => None)
    (fun n => "uuid-" +:+ Js.ofZ (Z.of_nat n))
    (fun _ p => remote p)
    (fun n _ _ => statuses n)
    (fun _ _ _ => inl (NonError "offline"))
    (fun _ _ _ _ _ => inl (NonError "offline"))
    "darwin"
    "/"
    (Posix.resolve "/")
    Posix.join.

Definition worldOf (o : Oracles) : World :=
  mkWorld 0 [] o ∅ ∅ 0 ∅ ∅ ∅ [].

Definition local (table : list (list string * (ExecError + string)))
    (files : list (string * string)) : World :=
  worldOf (oraclesOf table files (fun _ => None) (fun _ => inr [])).

End Example.

(* ===================================================================== *)
(** * Traces of commands *)
(* ===================================================================== *)

Module Trace.

(** The world after the commands [l] have been run, in order. *)
Definition run (l : list Cmd) (w : World) : World :=
  fold_left (fun w c => log_cmd c w) l w.

(** The world a computation leaves. *)
Definition after {A} (m : M A) (w : World) : World := snd (m w).

(** The computation throws. *)
Definition fails {A} (m : M A) (w : World) : Prop :=
  exists e, result m w = Throw e.

(** A computation that only runs commands, all of them in [P]. *)
Definition emits {A} (P : Cmd -> Prop) (m : M A) : Prop :=
  forall w, exists l, after m w = run l w /\ Forall P l.

(** A query of the repository: a command that reads and changes nothing. *)
Definition readOnly (c : Cmd) : Prop :=
  prog c = "git" /\
  exists verb rest, args c = verb :: rest
    /\ verb ∈ ["rev-parse"; "rev-list"; "symbolic-ref"; "log"].


End Trace.

(** The commands of [push] and what a finished push resolves to. *)
Module PushCommands.

Definition plainPush (taskPath : string) : Cmd := mkCmd "git" ["push"] taskPath.

Definition branchQuery (taskPath : string) : Cmd :=
  mkCmd "git" ["branch"; "--show-current"] taskPath.

Definition upstreamPush (taskPath branch : string) : Cmd :=
  mkCmd "git" ["push"; "--set-upstream"; "origin"; branch] taskPath.

Definition isUpstreamPush (c : Cmd) : bool :=
  match args c with
  | verb :: flag :: _ => String.eqb verb "push" && String.eqb flag "--set-upstream"
  | _ => false
  end.

Definition settled (r : ExecError + string) : Res string :=
  match r with
  | inr out => Ok (Js.trim out)
  | inl e => Throw (ExecFailure e)
  end.

(** The text [phrase] occurs in [s]. *)
Definition occursIn (phrase s : string) : Prop :=
  exists before after, s = before +:+ phrase +:+ after.

(** The failure tells of a missing upstream: it has a stderr, and one of
    the two sentences git prints for a branch without upstream occurs in
    it. *)
Definition missingUpstream (e : ExecError) : Prop :=
  exists text, stderr e = Some text
    /\ (occursIn "has no upstream branch" text
        \/ occursIn "no upstream configured" text).

(** A remote that has diverged rejects the push; no upstream is missing. *)
Definition rejected : World :=
  Example.local
    [(["push"], Example.failure "! [rejected] main -> main (non-fast-forward)")] [].

(** A branch without upstream: the plain push fails, the retry succeeds. *)
Definition withoutUpstream : World :=
  Example.local
    [(["push"],
      Example.failure "fatal: The current branch topic has no upstream branch.");
     (["branch"; "--show-current"], inr ("topic" +:+ GitService.NL));
     (["push"; "--set-upstream"; "origin"; "topic"], inr "branch set up")] [].

End PushCommands.

(** What the specification asks of a diff line, and the lines the parser
    leaves out. *)
Module DiffProps.

(** A context line carries the same text on both sides, a deletion only
    the left one, an addition only the right one. *)
Definition wellFormed (d : DiffLine.t) : Prop :=
  match DiffLine.type d with
  | DiffLine.context =>
      exists s, DiffLine.left d = Some s /\ DiffLine.right d = Some s
  | DiffLine.del => is_Some (DiffLine.left d) /\ DiffLine.right d = None
  | DiffLine.add => DiffLine.left d = None /\ is_Some (DiffLine.right d)
  end.

(** The lines the loop of [parseDiffLines] passes over: the empty line,
    the headers of [git diff] and the markers that start with a
    backslash. *)
Definition skipped (line : string) : bool :=
  negb (Js.truthy line)
  || existsb (fun p => Js.startsWith line p) GitService.DIFF_HEADER_PREFIXES
  || Js.startsWith line "\".

Definition allOf (k : DiffLine.kind) (l : list DiffLine.t) : Prop :=
  Forall (fun d => DiffLine.type d = k) l.

End DiffProps.

(** The commands of [getFileDiff] and the files it is asked about. *)
Module DiffCommands.

Definition diffCmd (taskPath filePath : string) : Cmd :=
  mkCmd "git" ["diff"; "--no-color"; "--unified=2000"; "HEAD"; "--"; filePath] taskPath.

Definition showCmd (taskPath filePath : string) : Cmd :=
  mkCmd "git" ["show"; "HEAD:" +:+ filePath] taskPath.

(** The diff against HEAD tells nothing: the command fails, or its
    output has no line to parse and no binary marker. *)
Definition noDiff (r : ExecError + string) : Prop :=
  match r with
  | inl _ => True
  | inr stdout => GitService.parseDiffLines stdout = ([], false)
  end.

(** An untracked file [notes.txt] of two lines in [/repo]; HEAD does not
    have it and [git diff HEAD] prints nothing for it. *)
Definition untracked : World :=
  Example.local
    [(["diff"; "--no-color"; "--unified=2000"; "HEAD"; "--"; "notes.txt"], inr "")]
    [("/repo/notes.txt", "first" +:+ GitService.NL +:+ "second")].

(** A file that is gone from the working tree and still in HEAD, in a
    repository where [git diff HEAD] fails. *)
Definition unreadable : World :=
  Example.local
    [(["show"; "HEAD:gone.txt"], inr ("old" +:+ GitService.NL))] [].

End DiffCommands.

(** The commands of [getLog] and [softResetLastCommit], the two parts
    [getLog] is made of, and a repository to try them on. *)
Module LogCommands.
Import GitService.

Definition logFormat : string :=
  RECORD_SEP +:+ "%H" +:+ FIELD_SEP +:+ "%s" +:+ FIELD_SEP +:+ "%an" +:+ FIELD_SEP
    +:+ "%aI" +:+ FIELD_SEP +:+ "%D" +:+ FIELD_SEP +:+ "%b".

Definition logCmd (taskPath : string) (maxCount skip : option Z) : Cmd :=
  mkCmd "git"
    ["log"; "--max-count=" +:+ Js.ofZ (default 50 maxCount);
     "--skip=" +:+ Js.ofZ (default 0 skip);
     "--pretty=format:" +:+ logFormat; "--"] taskPath.

(** The ahead count [getLog] works with: the caller's when it is there
    and not negative, a fresh one otherwise. *)
Definition aheadCountFor (taskPath : string) (knownAheadCount : option Z) : M Z :=
  if default (-1) knownAheadCount <? 0 then computeAheadCount taskPath
  else ret (default (-1) knownAheadCount).

(** The commits [getLog] reads off the output of [git log]. *)
Definition commitsOf (skip : option Z) (aheadCount : Z) (stdout : string) : list Commit :=
  if negb (Js.truthy (Js.trim stdout)) then []
  else
    imap (parseEntry (default 0 skip) aheadCount)
      (filter (fun entry => Is_true (Js.truthy (Js.trim entry)))
         (Js.split stdout RECORD_SEP)).

Definition verifyParent (taskPath : string) : Cmd :=
  mkCmd "git" ["rev-parse"; "--verify"; "HEAD~1"] taskPath.

Definition softReset (taskPath : string) : Cmd :=
  mkCmd "git" ["reset"; "--soft"; "HEAD~1"] taskPath.

Definition record (h s : string) : string :=
  RECORD_SEP +:+ h +:+ FIELD_SEP +:+ s +:+ FIELD_SEP +:+ "ann" +:+ FIELD_SEP
    +:+ "2026-01-01T00:00:00Z" +:+ FIELD_SEP +:+ "" +:+ FIELD_SEP +:+ "".

(** Three commits, the two newest not on the upstream yet. *)
Definition twoAhead : World :=
  Example.local
    [(["rev-list"; "--count"; "@{upstream}..HEAD"], inr ("2" +:+ NL));
     (["rev-parse"; "--verify"; "HEAD~1"], inr "c2");
     (args (logCmd "/repo" None None),
      inr (record "c3" "third" +:+ NL +:+ record "c2" "second" +:+ NL
             +:+ record "c1" "first"));
     (args (logCmd "/repo" (Some 1) None), inr (record "c3" "third"));
     (["log"; "-1"; "--pretty=format:%s"], inr "third");
     (["log"; "-1"; "--pretty=format:%b"], inr "");
     (["reset"; "--soft"; "HEAD~1"], inr "")] [].

(** A repository with one commit. *)
Definition initialCommit : World :=
  Example.local
    [(args (logCmd "/repo" (Some 1) None), inr (record "c1" "first"))] [].

(** A repository without remote: no command that compares with a remote
    succeeds. *)
Definition noRemote : World :=
  Example.local
    [(["rev-parse"; "--abbrev-ref"; "HEAD"], inr ("main" +:+ NL));
     (["rev-parse"; "--verify"; "HEAD~1"], inr "c1");
     (["rev-parse"; "--is-inside-work-tree"], inr "true");
     (["branch"; "--show-current"], inr ("main" +:+ NL));
     (args (logCmd "/repo" None None),
      inr (record "c2" "second" +:+ NL +:+ record "c1" "first"));
     (args (logCmd "/repo" (Some 1) None), inr (record "c2" "second"))] [].

End LogCommands.

(** The steps of [softResetLastCommit] once both guards have passed. *)
Module ResetSteps.

Definition subjectCmd (taskPath : string) : Cmd :=
  mkCmd "git" ["log"; "-1"; "--pretty=format:%s"] taskPath.

Definition bodyCmd (taskPath : string) : Cmd :=
  mkCmd "git" ["log"; "-1"; "--pretty=format:%b"] taskPath.

Definition resetSteps (taskPath : string) : M (string * string) :=
  subject <- execFileAsync "git" ["log"; "-1"; "--pretty=format:%s"] taskPath ;;
  body <- execFileAsync "git" ["log"; "-1"; "--pretty=format:%b"] taskPath ;;
  execFileAsync "git" ["reset"; "--soft"; "HEAD~1"] taskPath ;;;
  ret (Js.trim subject, Js.trim body).

(** [log[0]?.isPushed] *)
Definition latestPushed (log : list GitService.Commit) : bool :=
  match head log with
  | Some c => GitService.isPushed c
  | None => false
  end.

End ResetSteps.

(** The commands of the rename handler, and a branch to rename. *)
Module RenameCommands.

Definition configQuery (GIT repoPath oldBranch : string) : Cmd :=
  mkCmd GIT ["config"; "--get"; "branch." +:+ oldBranch +:+ ".remote"] repoPath.

Definition lsRemote (GIT repoPath oldBranch : string) : Cmd :=
  mkCmd GIT ["ls-remote"; "--heads"; "origin"; oldBranch] repoPath.

Definition renameCmd (GIT repoPath oldBranch newBranch : string) : Cmd :=
  mkCmd GIT ["branch"; "-m"; oldBranch; newBranch] repoPath.

Definition deleteRemote (GIT repoPath remoteName oldBranch : string) : Cmd :=
  mkCmd GIT ["push"; remoteName; "--delete"; oldBranch] repoPath.

Definition pushNew (GIT repoPath remoteName newBranch : string) : Cmd :=
  mkCmd GIT ["push"; "-u"; remoteName; newBranch] repoPath.





(** A branch that tracks [origin]. *)
Definition tracking : World :=
  Example.local
    [(["config"; "--get"; "branch.draft.remote"], inr ("origin" +:+ GitService.NL));
     (["branch"; "-m"; "draft"; "feature"], inr "");
     (["push"; "origin"; "--delete"; "draft"], inr "");
     (["push"; "-u"; "origin"; "feature"], inr "")] [].

End RenameCommands.

(** Status listings that differ only in their counts of lines. *)
Module PollExamples.

Definition sameStatus (a b : GitChange) : Prop :=
  path a = path b /\ status a = status b /\ isStaged a = isStaged b.

Definition listing (n : Z) : list GitChange :=
  [mkGitChange "src/a.ts" "modified" n 0 false;
   mkGitChange "README.md" "added" 3 0 true].

(** A remote project [/srv/repo] on connection [ssh-1] whose status is
    polled: the [n]-th interaction sees [n] added lines in [src/a.ts]. *)
Definition polled : World :=
  mkWorld 0 []
    (Example.oraclesOf [] [] (fun _ => Some "ssh-1")
       (fun n => inr (listing (Z.of_nat n))))
    ∅ {["/srv/repo" := mkPollEntry 0 {["w1"]} "" "ssh-1"]} 1 ∅ {[0%nat]} ∅ [].

End PollExamples.

(** What can be seen of a watched path: its entry in a registry and
    whether the resource of that entry is still alive. *)
Module Watching.

Definition pollerOf (w : World) (taskPath : string) : option RemoteStatusPollEntry :=
  remoteStatusPollers w !! taskPath.

Definition watcherOf (w : World) (taskPath : string) : option GitStatusWatchEntry :=
  gitStatusWatchers w !! taskPath.

(** The moment's answer of [randomUUID]. *)
Definition nextUUID (w : World) : string := uuid_oracle (oracles w) (now w).

(** A Mac on which [/repo] exists and [/srv/repo] is a remote project. *)
Definition desk : World :=
  Example.worldOf
    (Example.oraclesOf [] []
       (fun p => if String.eqb p "/srv/repo" then Some "ssh-1" else None)
       (fun _ => inr [])).

End Watching.

(* ===================================================================== *)
(** * src/main/services/GitService.ts: status, staging, commits *)
(* ===================================================================== *)

Module GitServiceOps.
Import GitService.

Definition MAX_UNTRACKED_LINECOUNT_BYTES : Z := 512 * 1024.

(** [items.map(async f)] awaited in order, as the [for ... of] loops with
    [await] in their body run. *)
Fixpoint forEach {A B} (f : A -> M B) (l : list A) : M (list B) :=
  match l with
  | [] => ret []
  | x :: rest =>
      y <- f x ;;
      ys <- forEach f rest ;;
      ret (y :: ys)
  end.

(** The bytes of value [0x0a] in the data of a stream. *)
Fixpoint countNewlines (data : string) : Z :=
  match data with
  | EmptyString => 0
  | String c rest => (if Ascii.eqb c "010" then 1 else 0) + countNewlines rest
  end.

(** [countFileNewlinesCapped]: the file is read as a stream of bytes;
    [None] from the read stands for its ['error'] event. *)
Definition countFileNewlinesCapped (filePath : string) (maxBytes : Z) : M (option Z) :=
  st <- stat filePath ;;
  match st with
  | None => ret None
  | Some st =>
      if negb (Stats.isFile st) || (maxBytes <? Stats.size st) then ret None
      else
        data <- readFile filePath ;;
        ret (countNewlines <$> data)
  end.

(** [l.replace(/\r$/, '')] *)
Definition stripCR (l : string) : string :=
  match String.rev l with
  | String "013" r => String.rev r
  | _ => l
  end.

(** [p[0] === '-' ? 0 : parseInt(p[0], 10) || 0] *)
Definition numstatCount (field : string) : Z :=
  if String.eqb field "-" then 0 else Js.orZero (Js.parseInt field).

(** [sumNumstat]: what one output of [git diff --numstat] adds to the
    additions and the deletions. *)
Definition sumNumstat (stdout : string) : Z * Z :=
  let lines :=
    filter (fun l => Is_true (0 <? String.length (Js.trim l))%nat)
      (Js.split (Js.trim stdout) NL) in
  fold_left
    (fun acc l =>
       let p := Js.split l (String "009" EmptyString) in
       if (2 <=? length p)%nat
       then (fst acc + numstatCount (default "" (p !! 0%nat)),
             snd acc + numstatCount (default "" (p !! 1%nat)))
       else acc)
    lines (0, 0).

(** The numstat of one of the two diffs of [getStatus]; a failure of the
    command and an output of blanks add nothing. *)
Definition numstatOf (args : list string) (taskPath : string) : M (Z * Z) :=
  try_catch
    (out <- execFileAsync "git" args taskPath ;;
     if Js.truthy out && Js.truthy (Js.trim out) then ret (sumNumstat out)
     else ret (0, 0))
    (fun _ => ret (0, 0)).

(** The status word of a two-letter status code. *)
Definition statusOfCode (statusCode : string) : string :=
  if Js.includes statusCode "A" || Js.includes statusCode "?" then "added"
  else if Js.includes statusCode "D" then "deleted"
  else if Js.includes statusCode "R" then "renamed"
  else "modified".

(** The path of a status line: for a rename the part after the last
    [->], trimmed. *)
Definition pathOfLine (line : string) : string :=
  let statusCode := String.substring 0 2 line in
  let filePath := Js.slice 3 line in
  if Js.includes statusCode "R" && Js.includes filePath "->"
  then Js.trim (default "" (last (Js.split filePath "->")))
  else filePath.

(** [statusCode[0] !== ' ' && statusCode[0] !== '?'] *)
Definition stagedCode (statusCode : string) : bool :=
  match statusCode with
  | String c _ => negb (Ascii.eqb c " ") && negb (Ascii.eqb c "?")
  | EmptyString => true
  end.

(** The body of the loop of [getStatus] for one status line. *)
Definition statusEntry (taskPath line : string) : M GitChange :=
  let statusCode := String.substring 0 2 line in
  let filePath := pathOfLine line in
  staged <- numstatOf ["diff"; "--numstat"; "--cached"; "--"; filePath] taskPath ;;
  unstaged <- numstatOf ["diff"; "--numstat"; "--"; filePath] taskPath ;;
  let additions := fst staged + fst unstaged in
  let deletions := snd staged + snd unstaged in
  additions <-
    (if (additions =? 0) && (deletions =? 0) && Js.includes statusCode "?" then
       absPath <- platform_of (fun o => path_join o [taskPath; filePath]) ;;
       count <- countFileNewlinesCapped absPath MAX_UNTRACKED_LINECOUNT_BYTES ;;
       ret (default additions count)
     else ret additions) ;;
  ret (mkGitChange filePath (statusOfCode statusCode) additions deletions
         (stagedCode statusCode)).

(** The lines of the status output that the loop goes through. *)
Definition statusLinesOf (statusOutput : string) : list string :=
  filter (fun l => Is_true (0 <? String.length l)%nat)
    (map stripCR (Js.split statusOutput NL)).

Definition getStatus (taskPath : string) : M (list GitChange) :=
  inside <-
    try_catch
      (execFileAsync "git" ["rev-parse"; "--is-inside-work-tree"] taskPath ;;; ret true)
      (fun _ => ret false) ;;
  if negb inside then ret []
  else
    statusOutput <- execFileAsync "git"
      ["status"; "--porcelain"; "--untracked-files=all"] taskPath ;;
    if negb (Js.truthy (Js.trim statusOutput)) then ret []
    else forEach (statusEntry taskPath) (statusLinesOf statusOutput).

Definition stageFile (taskPath filePath : string) : M unit :=
  execFileAsync "git" ["add"; "--"; filePath] taskPath ;;; ret tt.

Definition stageAllFiles (taskPath : string) : M unit :=
  execFileAsync "git" ["add"; "-A"] taskPath ;;; ret tt.

Definition unstageFile (taskPath filePath : string) : M unit :=
  try_catch
    (execFileAsync "git" ["reset"; "HEAD"; "--"; filePath] taskPath ;;; ret tt)
    (fun _ =>
       execFileAsync "git" ["rm"; "--cached"; "--"; filePath] taskPath ;;; ret tt).

(** [commit]: resolves to the [hash] field. *)
Definition commit (taskPath message : string) : M string :=
  if negb (Js.truthy message) || negb (Js.truthy (Js.trim message))
  then throw (JsError "Commit message cannot be empty")
  else
    execFileAsync "git" ["commit"; "-m"; message] taskPath ;;;
    stdout <- execFileAsync "git" ["rev-parse"; "HEAD"] taskPath ;;
    ret (Js.trim stdout).

(** [pull]: resolves to the [output] field. *)
Definition pull (taskPath : string) : M string :=
  stdout <- execFileAsync "git" ["pull"] taskPath ;;
  ret (Js.trim stdout).

(** An entry of [getCommitFiles]. *)
Record CommitFile := mkCommitFile {
  cf_path : string;
  cf_status : string;
  cf_additions : Z;
  cf_deletions : Z;
}.

Definition TAB : string := String "009" EmptyString.

(** [s.trim().split('\n').filter(Boolean)] *)
Definition nonEmptyLines (s : string) : list string :=
  filter (fun l => Is_true (Js.truthy l)) (Js.split (Js.trim s) NL).

(** The status word of a code of [git diff-tree --name-status]. *)
Definition statusOfLetter (code : string) : string :=
  if String.eqb code "A" then "added"
  else if String.eqb code "D" then "deleted"
  else if Js.startsWith code "R" then "renamed"
  else "modified".

(** The loop that fills [statusMap]: a later line for a path replaces an
    earlier one. *)
Definition statusMapOf (statusLines : list string) : gmap string string :=
  fold_left
    (fun m line =>
       let fields := Js.split line TAB in
       let code := default "" (head fields) in
       let filePath := default "" (last (tail fields)) in
       <[filePath := statusOfLetter code]> m)
    statusLines ∅.

(** [addStr === '-' ? 0 : parseInt(addStr || '0', 10) || 0], the field
    being [undefined] when the line is too short. *)
Definition statCount (field : option string) : Z :=
  match field with
  | Some f =>
      if String.eqb f "-" then 0
      else Js.orZero (Js.parseInt (if Js.truthy f then f else "0"))
  | None => 0
  end.

Definition commitFileOf (statusMap : gmap string string) (line : string) : CommitFile :=
  let fields := Js.split line TAB in
  let filePath := Js.join TAB (drop 2 fields) in
  mkCommitFile filePath
    (default "modified" (statusMap !! filePath))
    (statCount (fields !! 0%nat))
    (statCount (fields !! 1%nat)).

Definition diffTree (mode commitHash : string) : list string :=
  ["diff-tree"; "--root"; "--no-commit-id"; "-r"; "-m"; "--first-parent"; mode; commitHash].

Definition getCommitFiles (taskPath commitHash : string) : M (list CommitFile) :=
  stdout <- execFileAsync "git" (diffTree "--numstat" commitHash) taskPath ;;
  nameStatus <- execFileAsync "git" (diffTree "--name-status" commitHash) taskPath ;;
  let statLines := nonEmptyLines stdout in
  let statusLines := nonEmptyLines nameStatus in
  let statusMap := statusMapOf statusLines in
  ret (map (commitFileOf statusMap) statLines).

(** ** [revertFile]

    [revertFile] is the one function of the service that changes the
    disk by itself: [fs.unlinkSync]. Its computations carry, beside the
    world, the paths unlinked so far, oldest first; the list survives a
    throw. *)

Definition F (A : Type) : Type := list string -> World -> Res A * (list string * World).

Definition retF {A} (a : A) : F A := fun removed w => (Ok a, (removed, w)).

Definition throwF {A} (e : Exn) : F A := fun removed w => (Throw e, (removed, w)).

Definition bindF {A B} (m : F A) (k : A -> F B) : F B :=
  fun removed w =>
    match m removed w with
    | (Ok a, (removed', w')) => k a removed' w'
    | (Throw e, s) => (Throw e, s)
    end.

Definition try_catchF {A} (m : F A) (h : Exn -> F A) : F A :=
  fun removed w =>
    match m removed w with
    | (Ok a, s) => (Ok a, s)
    | (Throw e, (removed', w')) => h e removed' w'
    end.

(** A computation that leaves the disk alone. *)
Definition lift {A} (m : M A) : F A :=
  fun removed w => let '(r, w') := m w in (r, (removed, w')).

Declare Scope fs_scope.
Delimit Scope fs_scope with fs.
Notation "x <~ m ;; k" := (bindF m (fun x => k))
  (at level 100, m at next level, right associativity) : fs_scope.
Notation "m ~;; k" := (bindF m (fun _ => k))
  (at level 100, right associativity) : fs_scope.

Section Unlink.

(** What [fs.unlinkSync(p)] throws at a moment, if it fails then. *)
Variable unlink_oracle : nat -> string -> option Exn.

Definition unlinkSync (p : string) : F unit :=
  fun removed w =>
    match unlink_oracle (now w) p with
    | Some e => (Throw e, (removed, tick w))
    | None => (Ok tt, (removed ++ [p], tick w))
    end.

(** [revertFile]: resolves to the [action] field. *)
Definition revertFile (taskPath filePath : string) : F string :=
  (outside <~ lift (platform_of (fun o => outsideWorktree o taskPath filePath)) ;;
   if outside then throwF (JsError "File path is outside the worktree")
   else
     absPath <~ lift (platform_of (fun o => path_resolve o [taskPath; filePath])) ;;
     fileExistsInHead <~
       try_catchF
         (lift (execFileAsync "git" ["cat-file"; "-e"; "HEAD:" +:+ filePath] taskPath)
          ~;; retF true)
         (fun _ => retF false) ;;
     if fileExistsInHead : bool then
       try_catchF
         (lift (execFileAsync "git" ["checkout"; "HEAD"; "--"; filePath] taskPath)
          ~;; retF "reverted")
         (fun error =>
            throwF (JsError ("Failed to revert file: " +:+ exn_message error)))
     else
       present <~ lift (existsSync absPath) ;;
       (if present : bool then unlinkSync absPath else retF tt) ~;;
       retF "reverted")%fs.

End Unlink.

End GitServiceOps.
(* ===================================================================== *)
(** * src/main/ipc/gitIpc.ts: the handlers of the commit workflow *)
(* ===================================================================== *)

Module GitHandlers.
Import GitService GitServiceOps GitIpc.

(** What a handler resolves to: [{ success: true, ... }] with its
    payload, or [{ success: false, error }]. *)
Inductive Reply (A : Type) :=
| Success (value : A)
| Failure (error : string).
Arguments Success {A} value.
Arguments Failure {A} error.

(** A code unit that [/[0-9a-f]/i] matches. *)
Definition isHexDigit (c : ascii) : bool :=
  let n := nat_of_ascii c in
  ((48 <=? n) && (n <=? 57) || (97 <=? n) && (n <=? 102) || (65 <=? n) && (n <=? 70))%nat.

(** [/^[0-9a-f]{4,40}$/i.test(s)] *)
Definition isCommitHash (s : string) : bool :=
  ((4 <=? String.length s) && (String.length s <=? 40))%nat
  && forallb isHexDigit (list_ascii_of_string s).

(** [String(error)] *)
Definition jsString (error : Exn) : string :=
  match error with
  | NonError v => v
  | _ => if Js.truthy (exn_message error) then "Error: " +:+ exn_message error else "Error"
  end.

(** [errObj?.stderr?.trim() || errObj?.message || String(error)] *)
Definition stderrOrMessage (error : Exn) : string :=
  let stderr := Js.trim (default "" (exn_stderr error)) in
  if Js.truthy stderr then stderr
  else
    match error with
    | NonError _ => jsString error
    | _ => if Js.truthy (exn_message error) then exn_message error else jsString error
    end.

(** [quoteGhArg] *)
Fixpoint escapeQuotes (arg : string) : string :=
  match arg with
  | EmptyString => EmptyString
  | String c rest =>
      if Ascii.eqb c "'" then "'\''" +:+ escapeQuotes rest
      else String c (escapeQuotes rest)
  end.

Definition quoteGhArg (arg : string) : string :=
  "'" +:+ escapeQuotes arg +:+ "'".

(** The loop of [resolveGitBin] over the candidates. *)
Fixpoint firstExisting (candidates : list string) : M string :=
  match candidates with
  | [] => ret "git"
  | p :: rest =>
      present <- (if Js.truthy p then existsSync p else ret false) ;;
      if present : bool then ret p else firstExisting rest
  end.

(** [resolveGitBin]; [GIT_PATH] is the variable of the environment. *)
Definition resolveGitBin (GIT_PATH : option string) : M string :=
  let fromEnv := Js.trim (default "" GIT_PATH) in
  firstExisting
    (filter (fun p => Is_true (Js.truthy p))
       [fromEnv; "/opt/homebrew/bin/git"; "/usr/local/bin/git"; "/usr/bin/git"]).

Section Paths.

(** [path.isAbsolute] of the platform, and [fs.statSync(p).isDirectory()]
    at a moment, [None] when [statSync] throws. *)
Variable isAbsolute : string -> bool.
Variable isDirectory_oracle : nat -> string -> option bool.

Definition statSync (p : string) : M (option bool) :=
  fun w => (Ok (isDirectory_oracle (now w) p), tick w).

(** [validateTaskPath]: the error, or [None] for a path that is fine. *)
Definition validateTaskPath (taskPath : option string) : M (option string) :=
  match taskPath with
  | None => ret (Some "Missing taskPath")
  | Some taskPath =>
      if negb (Js.truthy taskPath) then ret (Some "Missing taskPath")
      else if negb (isAbsolute taskPath) then ret (Some "taskPath must be absolute")
      else
        isDir <- statSync taskPath ;;
        match isDir with
        | None => ret (Some "taskPath does not exist")
        | Some false => ret (Some "taskPath is not a directory")
        | Some true => ret None
        end
  end.

(** The frame the handlers below share: the task path is validated, then
    [body] runs; what is thrown becomes the [error] that [describe]
    makes of it. *)
Definition guarded {A} (describe : Exn -> string) (taskPath : string) (body : M (Reply A))
  : M (Reply A) :=
  try_catch
    (pathErr <- validateTaskPath (Some taskPath) ;;
     match pathErr with
     | Some err => ret (Failure err)
     | None => body
     end)
    (fun error => ret (Failure (describe error))).

(** ['git:commit'] *)
Definition handleCommit (taskPath message : string) : M (Reply string) :=
  guarded exn_message taskPath
    (hash <- commit taskPath message ;;
     broadcastGitStatusChange taskPath None ;;;
     ret (Success hash)).

(** ['git:push'] *)
Definition handlePush (taskPath : string) : M (Reply string) :=
  guarded stderrOrMessage taskPath
    (output <- push taskPath ;;
     ret (Success output)).

(** ['git:pull'] *)
Definition handlePull (taskPath : string) : M (Reply string) :=
  guarded stderrOrMessage taskPath
    (output <- pull taskPath ;;
     ret (Success output)).

(** ['git:get-log'] *)
Definition handleGetLog (taskPath : string) (maxCount skip aheadCount : option Z)
  : M (Reply (list Commit * Z)) :=
  guarded exn_message taskPath
    (r <- getLog taskPath maxCount skip aheadCount ;;
     ret (Success r)).

(** ['git:get-latest-commit'] *)
Definition handleGetLatestCommit (taskPath : string) : M (Reply (option Commit)) :=
  guarded exn_message taskPath
    (c <- getLatestCommit taskPath ;;
     ret (Success c)).

(** ['git:get-commit-files'] *)
Definition handleGetCommitFiles (taskPath commitHash : string)
  : M (Reply (list CommitFile)) :=
  guarded exn_message taskPath
    (if negb (isCommitHash commitHash) then ret (Failure "Invalid commit hash")
     else
       files <- getCommitFiles taskPath commitHash ;;
       ret (Success files)).

(** ['git:get-commit-file-diff'] *)
Definition handleGetCommitFileDiff (taskPath commitHash filePath : string)
  : M (Reply FileDiff) :=
  guarded exn_message taskPath
    (if negb (isCommitHash commitHash) then ret (Failure "Invalid commit hash")
     else
       diff <- getCommitFileDiff taskPath commitHash filePath ;;
       ret (Success diff)).

(** ['git:soft-reset'] *)
Definition handleSoftReset (taskPath : string) : M (Reply (string * string)) :=
  guarded exn_message taskPath
    (r <- softResetLastCommit taskPath ;;
     broadcastGitStatusChange taskPath None ;;;
     ret (Success r)).

End Paths.

(** ['git:get-status']: the listing of the remote service for a remote
    project, that of [getStatus] otherwise. *)
Definition handleGetStatus (taskPath : string) : M (Reply (list GitChange)) :=
  try_catch
    (remoteProject <- resolveRemoteProjectForWorktreePath taskPath ;;
     match remoteProject with
     | Some sshConnectionId =>
         changes <- ask_or_throw
           (fun o n => remoteStatus_oracle o n sshConnectionId taskPath) ;;
         ret (Success changes)
     | None =>
         changes <- getStatus taskPath ;;
         ret (Success changes)
     end)
    (fun error => ret (Failure (exn_message error))).

End GitHandlers.
(* ===================================================================== *)
(** * The renderer: helpers of the commit area and of the file list *)
(* ===================================================================== *)

Module Renderer.

(** [filePath.lastIndexOf('/')] for a single code unit; [None] is [-1]. *)
Fixpoint lastIndexOf (c : ascii) (s : string) : option nat :=
  match s with
  | EmptyString => None
  | String d rest =>
      match lastIndexOf c rest with
      | Some i => Some (S i)
      | None => if Ascii.eqb d c then Some O else None
      end
  end.

Record PathParts := mkPathParts { filename : string; directory : string }.

(** [splitPath] *)
Definition splitPath (filePath : string) : PathParts :=
  match lastIndexOf "/" filePath with
  | None => mkPathParts filePath ""
  | Some lastSlash =>
      mkPathParts (Js.slice (S lastSlash) filePath) (String.substring 0 lastSlash filePath)
  end.

(** [toLowerCase] on a code unit below 256: the letters of ASCII and of
    Latin-1. *)
Definition lower (c : ascii) : ascii :=
  let n := nat_of_ascii c in
  if ((65 <=? n) && (n <=? 90)
      || (192 <=? n) && (n <=? 222) && negb (n =? 215))%nat
  then ascii_of_nat (n + 32) else c.

Fixpoint toLowerCase (s : string) : string :=
  match s with
  | EmptyString => EmptyString
  | String c rest => String (lower c) (toLowerCase rest)
  end.

(** The first line with something other than white space, or the raw
    text, capped at 120 code units. *)
Definition firstLineCapped (raw : string) : string :=
  let firstLine :=
    default raw
      (List.find (fun l => (0 <? String.length (Js.trim l))%nat)
         (Js.split raw GitService.NL)) in
  if (120 <? String.length firstLine)%nat
  then String.substring 0 120 firstLine +:+ "..."
  else firstLine.

(** [friendlyGitError] *)
Definition friendlyGitError (raw : string) : string :=
  let s := toLowerCase raw in
  if Js.includes s "non-fast-forward"
     || Js.includes s "tip of your current branch is behind"
  then "Remote has new commits. Pull before pushing."
  else if Js.includes s "merge conflict" || Js.includes s "fix conflicts"
  then "Merge conflicts detected. Resolve them in your editor."
  else if Js.includes s "permission denied" || Js.includes s "authentication"
  then "Authentication failed. Check your credentials."
  else if Js.includes s "could not resolve host" || Js.includes s "unable to access"
  then "Cannot reach remote. Check your network connection."
  else if Js.includes s "no such remote"
  then "No remote configured for this repository."
  else if Js.includes s "cannot undo the initial commit"
  then "Cannot undo the initial commit."
  else if Js.includes s "nothing to commit" then "Nothing to commit."
  else firstLineCapped raw.

End Renderer.

(** The commands of the staging and commit functions. *)
Module OpsCommands.

Definition commitCmd (taskPath message : string) : Cmd :=
  mkCmd "git" ["commit"; "-m"; message] taskPath.

Definition headQuery (taskPath : string) : Cmd :=
  mkCmd "git" ["rev-parse"; "HEAD"] taskPath.

Definition resetPath (taskPath filePath : string) : Cmd :=
  mkCmd "git" ["reset"; "HEAD"; "--"; filePath] taskPath.

Definition rmCached (taskPath filePath : string) : Cmd :=
  mkCmd "git" ["rm"; "--cached"; "--"; filePath] taskPath.

End OpsCommands.

(** The commands of [revertFile]. *)
Module RevertCommands.

Definition catFile (taskPath filePath : string) : Cmd :=
  mkCmd "git" ["cat-file"; "-e"; "HEAD:" +:+ filePath] taskPath.

Definition checkout (taskPath filePath : string) : Cmd :=
  mkCmd "git" ["checkout"; "HEAD"; "--"; filePath] taskPath.

(** The world and the paths unlinked that a computation leaves. *)
Definition removedBy {A} (m : GitServiceOps.F A) (removed : list string) (w : World)
  : list string :=
  fst (snd (m removed w)).

Definition worldAfter {A} (m : GitServiceOps.F A) (removed : list string) (w : World)
  : World :=
  snd (snd (m removed w)).

Definition outcomeOf {A} (m : GitServiceOps.F A) (removed : list string) (w : World)
  : Res A :=
  fst (m removed w).

(** A repository whose HEAD has [a.ts], where the checkout fails. *)
Definition locked : World :=
  Example.local
    [(["cat-file"; "-e"; "HEAD:a.ts"], inr "");
     (["checkout"; "HEAD"; "--"; "a.ts"],
      Example.failure "error: unable to create file a.ts: Permission denied")] [].

(** A repository whose HEAD does not have [new.ts]. *)
Definition fresh : World := Example.local [] [].

End RevertCommands.

(** What a computation may run and what it resolves to, for computations
    that also ask the file system. *)
Module Behaviour.

(** Every command the computation runs is in [P]. *)
Definition onlyRuns {A} (P : Cmd -> Prop) (m : M A) : Prop :=
  forall w, exists l, trace (Trace.after m w) = trace w ++ l /\ Forall P l.

(** The computation resolves, whatever the world. *)
Definition neverThrows {A} (m : M A) : Prop :=
  forall w, exists a, result m w = Ok a.

(** Whatever the computation resolves to is in [Q]. *)
Definition ensures {A} (Q : A -> Prop) (m : M A) : Prop :=
  forall w a, result m w = Ok a -> Q a.

(** A command of git that inspects the repository and changes neither
    the working tree, nor the history, nor a remote. *)
Definition inspects (c : Cmd) : Prop :=
  prog c = "git" /\
  exists verb rest, args c = verb :: rest
    /\ verb ∈ ["rev-parse"; "rev-list"; "symbolic-ref"; "log"; "status"; "diff";
               "diff-tree"; "show"].

End Behaviour.

(** The commands of [getStatus] and what it reads off a status line. *)
Module StatusCommands.
Import GitServiceOps.

Definition insideQuery (taskPath : string) : Cmd :=
  mkCmd "git" ["rev-parse"; "--is-inside-work-tree"] taskPath.

Definition statusQuery (taskPath : string) : Cmd :=
  mkCmd "git" ["status"; "--porcelain"; "--untracked-files=all"] taskPath.



(** The lines [getStatus] makes entries of. *)
Definition listed (statusOutput : string) : list string :=
  if Js.truthy (Js.trim statusOutput) then statusLinesOf statusOutput else [].

(** The entry has the path, the status and the staging flag of the line. *)
Definition readsLine (line : string) (c : GitChange) : Prop :=
  path c = pathOfLine line
  /\ status c = statusOfCode (String.substring 0 2 line)
  /\ isStaged c = stagedCode (String.substring 0 2 line).

(** A working tree with a file staged and changed again, and a file that
    is not tracked; the numstat of the second is not scripted. *)
Definition dirty : World :=
  Example.local
    [(["rev-parse"; "--is-inside-work-tree"], inr "true");
     (["status"; "--porcelain"; "--untracked-files=all"],
      inr ("MM src/a.ts" +:+ GitService.NL +:+ "?? new.txt" +:+ GitService.NL));
     (["diff"; "--numstat"; "--cached"; "--"; "src/a.ts"],
      inr ("3" +:+ TAB +:+ "1" +:+ TAB +:+ "src/a.ts" +:+ GitService.NL));
     (["diff"; "--numstat"; "--"; "src/a.ts"],
      inr ("2" +:+ TAB +:+ "5" +:+ TAB +:+ "src/a.ts" +:+ GitService.NL))]
    [("/repo/new.txt", "a" +:+ GitService.NL +:+ "b" +:+ GitService.NL)].

End StatusCommands.

(** What every diff handed to the renderer satisfies. *)
Module DiffShape.
Import GitService.

(** The lines are well formed, and a diff flagged binary has none. The
    flag is never [false]: it is [true] or absent. *)
Definition sound (d : FileDiff) : Prop :=
  Forall DiffProps.wellFormed (lines d)
  /\ (isBinary d = Some true -> lines d = [])
  /\ isBinary d <> Some false.

(** An image that has changed: git prints the headers and the marker of
    binary files, and no hunk. *)
Definition binaryChange : World :=
  Example.local
    [(["diff"; "--no-color"; "--unified=2000"; "HEAD"; "--"; "logo.png"],
      inr ("diff --git a/logo.png b/logo.png" +:+ NL +:+ "index 1b2..3c4 100644" +:+ NL
           +:+ "Binary files a/logo.png and b/logo.png differ" +:+ NL))] [].

End DiffShape.

(** What a handler leaves alone, and the replies of a handler that was
    stopped before it ran anything. *)
Module HandlerProps.
Import GitHandlers.

(** The computation leaves the broadcasts sent so far as they are. *)
Definition silent {A} (m : M A) : Prop :=
  forall w, broadcasts (Trace.after m w) = broadcasts w.

(** The handler replies with the failure [err], having run no command
    and sent no broadcast. *)
Definition refused {A} (err : string) (m : M (Reply A)) (w : World) : Prop :=
  result m w = Ok (Failure err)
  /\ issued m w = []
  /\ broadcasts (Trace.after m w) = broadcasts w.

(** The broadcasts a handler has added are one change notice for
    [taskPath] when it replied with a success, none otherwise. *)
Definition noticeIffSuccess {A} (taskPath : string) (m : M (Reply A)) (w : World) : Prop :=
  exists reply,
    result m w = Ok reply
    /\ broadcasts (Trace.after m w) =
         broadcasts w ++ match reply with
                         | Success _ => [(taskPath, None)]
                         | Failure _ => []
                         end.

(** The task path is fine at the moment of [w]. *)
Definition validAt (isAbsolute : string -> bool) (isDirectory_oracle : nat -> string -> option bool)
    (taskPath : string) (w : World) : Prop :=
  result (validateTaskPath isAbsolute isDirectory_oracle (Some taskPath)) w = Ok None.

(** Every path is a directory. *)
Definition anyDirectory : nat -> string -> option bool := fun _ _ => Some true.

(** A repository with a staged change; the commit is [abc1234]. *)
Definition staged : World :=
  Example.local
    [(["commit"; "-m"; "fix: typo"], inr "[main abc1234] fix: typo");
     (["rev-parse"; "HEAD"], inr ("abc1234" +:+ GitService.NL))] [].

End HandlerProps.

(** Shapes of text that the hypotheses about the output of git speak of. *)
Module Text.

(** The code unit [a] does not occur in [s]. *)
Fixpoint avoids (a : ascii) (s : string) : bool :=
  match s with
  | EmptyString => true
  | String c rest => negb (Ascii.eqb c a) && avoids a rest
  end.

(** The text starts with a code unit that is not white space. *)
Definition startsTight (s : string) : bool :=
  match s with
  | String c _ => negb (Js.isSpace c)
  | EmptyString => false
  end.

(** The text ends with a code unit that is not white space. *)
Definition endsTight (s : string) : bool := startsTight (String.rev s).

End Text.

(** The commit area of the renderer: what it sends and what it shows. *)
Module CommitArea.
Import Renderer.

(** [canCommit] *)
Definition canCommit (hasStagedFiles : bool) (commitMessage : string) (isCommitting : bool)
  : bool :=
  hasStagedFiles && (0 <? String.length (Js.trim commitMessage))%nat && negb isCommitting.

(** The message [handleCommit] sends with ['git:commit']. *)
Definition messageOf (commitMessage description : string) : string :=
  if Js.truthy (Js.trim description)
  then Js.trim commitMessage +:+ GitService.NL +:+ GitService.NL +:+ Js.trim description
  else Js.trim commitMessage.

(** The description of the toast for a reply of failure:
    [friendlyGitError(result?.error || 'Unknown error')]. *)
Definition toastOf (error : string) : string :=
  friendlyGitError (if Js.truthy error then error else "Unknown error").

End CommitArea.

(** The commands that count commits, and a line of two counts. *)
Module CountCommands.

Definition upstreamCount (taskPath : string) : Cmd :=
  mkCmd "git" ["rev-list"; "--count"; "@{upstream}..HEAD"] taskPath.

Definition leftRight (GIT taskPath : string) : Cmd :=
  mkCmd GIT ["rev-list"; "--left-right"; "--count"; "@{upstream}...HEAD"] taskPath.

(** [Number.MAX_SAFE_INTEGER]: up to it every integer is a number of
    JavaScript, and [parseInt] reads its decimal without rounding. *)
Definition MAX_SAFE_INTEGER : Z := 9007199254740991.

(** A count as git prints it, small enough to be held exactly. *)
Definition safeCount (k : Z) : Prop := 0 <= k <= MAX_SAFE_INTEGER.

(** What [git rev-list --left-right --count A...B] prints: the commits
    only [A] has, a tab, the commits only [B] has, a line break. *)
Definition leftRightLine (left right : Z) : string :=
  Js.ofZ left +:+ GitServiceOps.TAB +:+ Js.ofZ right +:+ GitService.NL.

(** A branch three commits ahead of its upstream and one behind. *)
Definition diverged : World :=
  Example.local
    [(["rev-list"; "--left-right"; "--count"; "@{upstream}...HEAD"], inr (leftRightLine 1 3));
     (["rev-list"; "--count"; "@{upstream}..HEAD"], inr (Js.ofZ 3 +:+ GitService.NL))] [].

End CountCommands.

(** What [git diff-tree] prints for a commit, and what [getCommitFiles]
    is to make of it. *)
Module TreeOutput.
Import GitServiceOps Text.

(** A file of a commit as git reports it: the counts of added and
    deleted lines, absent for a binary file; the letter of the change;
    the path. *)
Record TreeChange := mkTreeChange {
  tc_added : option Z;
  tc_deleted : option Z;
  tc_letter : string;
  tc_path : string;
}.

(** A count as [--numstat] prints it: [-] stands for a binary file. *)
Definition printedCount (n : option Z) : string :=
  match n with
  | Some k => Js.ofZ k
  | None => "-"
  end.

Definition numstatLine (c : TreeChange) : string :=
  printedCount (tc_added c) +:+ TAB +:+ printedCount (tc_deleted c) +:+ TAB +:+ tc_path c.

Definition nameStatusLine (c : TreeChange) : string :=
  tc_letter c +:+ TAB +:+ tc_path c.

(** Lines, each followed by a line break. *)
Definition unlines (ls : list string) : string :=
  fold_right (fun l rest => l +:+ GitService.NL +:+ rest) "" ls.

(** A text without tab and line break that neither starts nor ends with
    white space; so it is not empty. *)
Definition plain (s : string) : bool :=
  avoids "009" s && avoids "010" s && startsTight s && endsTight s.

(** A line of the report that [getCommitFiles] reads back as it is: the
    letter and the path are plain and the counts, where the file has
    them, are held exactly. *)
Definition readable (c : TreeChange) : Prop :=
  plain (tc_letter c) = true /\ plain (tc_path c) = true
  /\ from_option CountCommands.safeCount True (tc_added c)
  /\ from_option CountCommands.safeCount True (tc_deleted c).

(** The entry [getCommitFiles] is to return for a file. *)
Definition entryOf (c : TreeChange) : CommitFile :=
  mkCommitFile (tc_path c) (statusOfLetter (tc_letter c))
    (default 0 (tc_added c)) (default 0 (tc_deleted c)).

(** A commit that changes a source file, adds an image and deletes a
    note. *)
Definition sample : list TreeChange :=
  [ mkTreeChange (Some 12) (Some 3) "M" "src/main.ts";
    mkTreeChange None None "A" "assets/logo.png";
    mkTreeChange (Some 0) (Some 40) "D" "notes/old plan.md" ].

Definition sampleCommit : World :=
  Example.local
    [(diffTree "--numstat" "abc1234", inr (unlines (map numstatLine sample)));
     (diffTree "--name-status" "abc1234", inr (unlines (map nameStatusLine sample)))] [].

End TreeOutput.

(** A file that is not tracked, in the listing of [getStatus]. *)
Module UntrackedFile.
Import GitServiceOps.




End UntrackedFile.

(** A diff of a query file in which a comment line was deleted. *)
Module HeaderLookalike.
Import GitService.

Definition droppedComment : string :=
  "diff --git a/q.sql b/q.sql" +:+ NL
  +:+ "--- a/q.sql" +:+ NL
  +:+ "+++ b/q.sql" +:+ NL
  +:+ "@@ -1,2 +1 @@" +:+ NL
  +:+ "--- drop the table first" +:+ NL
  +:+ " select 1;".

End HeaderLookalike.

(** The commands of [getCommitFileDiff]. *)
Module CommitDiffCommands.

Definition parentQuery (taskPath commitHash : string) : Cmd :=
  mkCmd "git" ["rev-parse"; "--verify"; commitHash +:+ "~1"] taskPath.

Definition parentDiff (taskPath commitHash filePath : string) : Cmd :=
  mkCmd "git"
    ["diff"; "--no-color"; "--unified=2000"; commitHash +:+ "~1"; commitHash; "--"; filePath]
    taskPath.

Definition showAt (taskPath commitHash filePath : string) : Cmd :=
  mkCmd "git" ["show"; commitHash +:+ ":" +:+ filePath] taskPath.

(** The first commit of a repository, which adds [README.md]. *)
Definition rootCommit : World :=
  Example.local
    [(["show"; "abc1234:README.md"], inr ("# emdash" +:+ GitService.NL +:+ "notes"))] [].

End CommitDiffCommands.

(** The registries of [gitIpc.ts] over time: what the runtime can make
    the main process do, and what holds of the watchers, intervals and
    timers whatever it does. *)
Module Registry.
Import GitIpc.

(** A call of one of the two watch handlers, or a callback the runtime
    runs: the listener of a watcher, its ['error'] listener, a debounce
    timer that comes due, the interval of a poller. *)
Inductive Event :=
| WatchCall (taskPath : string)
| UnwatchCall (taskPath : string) (watchId : option string)
| FsEvent (taskPath : string)
| WatcherError (taskPath : string)
| TimerDue (taskPath : string) (timer : nat)
| PollDue (taskPath connectionId : string).

Definition dispatch (ev : Event) : M unit :=
  match ev with
  | WatchCall taskPath => watchStatus taskPath ;;; ret tt
  | UnwatchCall taskPath watchId => unwatchStatus taskPath watchId
  | FsEvent taskPath => onWatchEvent taskPath
  | WatcherError taskPath => onWatcherError taskPath
  | TimerDue taskPath timer => onDebounceFire taskPath timer
  | PollDue taskPath connectionId => pollRemoteStatus taskPath connectionId
  end.

(** The world after the events, in order. *)
Definition runEvents (evs : list Event) (w : World) : World :=
  fold_left (fun w ev => Trace.after (dispatch ev) w) evs w.

Section Owned.

Context {E : Type} (handleOf : E -> nat) (idsOf : E -> gset string).

(** The handles that are alive are exactly those of the entries of the
    registry, one for each entry; every entry has a subscriber; and the
    handles were made by the runtime before [next]. *)
Definition owned (registry : gmap string E) (alive : gset nat) (next : nat) : Prop :=
  (forall p e, registry !! p = Some e ->
     handleOf e ∈ alive /\ idsOf e <> ∅ /\ (handleOf e < next)%nat)
  /\ (forall h, h ∈ alive -> exists p e, registry !! p = Some e /\ handleOf e = h)
  /\ (forall p1 p2 e1 e2,
        registry !! p1 = Some e1 -> registry !! p2 = Some e2 ->
        handleOf e1 = handleOf e2 -> p1 = p2).

End Owned.

(** Every pending timer is the debounce timer of a watched path. *)
Definition timed (registry : gmap string GitStatusWatchEntry) (pending : gset nat) : Prop :=
  forall t, t ∈ pending ->
    exists p e, registry !! p = Some e /\ debounceTimer e = Some t.

(** The pending timers once the debounce timer of an entry is cleared. *)
Definition withoutTimer (e : GitStatusWatchEntry) (pending : gset nat) : gset nat :=
  match debounceTimer e with
  | Some t => pending ∖ {[t]}
  | None => pending
  end.

Definition tidy (w : World) : Prop :=
  owned watcher watchIds (gitStatusWatchers w) (openWatchers w) (nextHandle w)
  /\ owned intervalId poll_watchIds (remoteStatusPollers w) (liveIntervals w) (nextHandle w)
  /\ timed (gitStatusWatchers w) (pendingTimeouts w).

(** A morning at the desk: two panels watch [/repo], files change, one
    panel closes, the remote project is watched and polled. *)
Definition morning : list Event :=
  [ WatchCall "/repo"; WatchCall "/repo"; FsEvent "/repo"; FsEvent "/repo";
    UnwatchCall "/repo" (Some "uuid-1"); WatchCall "/srv/repo";
    PollDue "/srv/repo" "ssh-1"; TimerDue "/repo" 2 ].

(** A panel watches [/repo], a file changes, the panel closes. *)
Definition glance : list Event :=
  [ WatchCall "/repo"; FsEvent "/repo"; UnwatchCall "/repo" (Some "uuid-2") ].

End Registry.

(** How a POSIX shell reads one word of a command line, as far as the
    output of [quoteGhArg] exercises it: inside single quotes every code
    unit stands for itself up to the closing quote; outside, a backslash
    makes the next code unit stand for itself, a blank or an operator
    ends the word, and what would start an expansion or a double quote
    is not read ([None]). *)
Module Sh.

Definition endsWord (c : ascii) : bool :=
  existsb (Ascii.eqb c) [" "; "009"; "010"; "|"; "&"; ";"; "<"; ">"; "("; ")"]%char.

Definition expands (c : ascii) : bool :=
  existsb (Ascii.eqb c) ["$"; "`"; "034"]%char.

(** [word quoted acc s]: the word that starts [s], with what follows it;
    [acc] is what has been read of it, reversed. *)
Fixpoint word (quoted : bool) (acc : string) (s : string) : option (string * string) :=
  match s with
  | EmptyString => if quoted then None else Some (String.rev acc, EmptyString)
  | String c rest =>
      if quoted then
        if Ascii.eqb c "'" then word false acc rest
        else word true (String c acc) rest
      else if Ascii.eqb c "'" then word true acc rest
      else if Ascii.eqb c "\" then
        match rest with
        | String d rest' => word false (String d acc) rest'
        | EmptyString => None
        end
      else if endsWord c then Some (String.rev acc, s)
      else if expands c then None
      else word false (String c acc) rest
  end.

(** The first word of a command line. *)
Definition firstWord (s : string) : option (string * string) := word false EmptyString s.

End Sh.

(** What a call leaves of the state of the main process. *)
Module Untouched.

(** The registries, the handles of the runtime and the broadcasts are
    the same in both worlds. *)
Definition sameState (w w' : World) : Prop :=
  gitStatusWatchers w' = gitStatusWatchers w
  /\ remoteStatusPollers w' = remoteStatusPollers w
  /\ openWatchers w' = openWatchers w
  /\ liveIntervals w' = liveIntervals w
  /\ pendingTimeouts w' = pendingTimeouts w
  /\ broadcasts w' = broadcasts w.

(** A Linux machine on which [/repo] exists. *)
Definition linux : World :=
  Example.worldOf
    (mkOracles (fun _ _ => Example.failure "fatal: not scripted")
       (fun _ _ => None) (fun _ _ => None) (fun _ _ => true) (fun _ _ => None)
       (fun n => "uuid-" +:+ Js.ofZ (Z.of_nat n)) (fun _ _ => None)
       (fun _ _ _ => inl (NonError "offline")) (fun _ _ _ => inl (NonError "offline"))
       (fun _ _ _ _ _ => inl (NonError "offline"))
       "linux" "/" (Posix.resolve "/") Posix.join).

End Untouched.

(** The search of [resolveGitBin], said without the loop. *)
Module GitBinSearch.

(** The places searched, in order: the trimmed [GIT_PATH] when it is set
    and not blank, then the three usual places. *)
Definition places (GIT_PATH : option string) : list string :=
  match Js.trim (default "" GIT_PATH) with
  | EmptyString => []
  | fromEnv => [fromEnv]
  end ++ ["/opt/homebrew/bin/git"; "/usr/local/bin/git"; "/usr/bin/git"].

(** [bin] is the first of [ps] that exists; the places are looked at one
    after the other, the first at moment [n], and [present] tells what
    exists at each moment. *)
Definition firstFound (present : nat -> string -> bool) (n : nat)
    (ps : list string) (bin : string) : Prop :=
  exists before after,
    ps = before ++ bin :: after
    /\ present (n + length before)%nat bin = true
    /\ forall i p, before !! i = Some p -> present (n + i)%nat p = false.

(** None of [ps] exists when it is looked at. *)
Definition noneFound (present : nat -> string -> bool) (n : nat)
    (ps : list string) : Prop :=
  forall i p, ps !! i = Some p -> present (n + i)%nat p = false.

(** A machine on which the files [present] exist, and no others. *)
Definition machine (present : list string) : World :=
  let o := Example.oraclesOf [] [] (fun _ => None) (fun _ => inr []) in
  Example.worldOf
    (mkOracles (exec_oracle o) (stat_oracle o) (readFile_oracle o)
       (fun _ p => bool_decide (p ∈ present))
       (watch_oracle o) (uuid_oracle o) (resolveRemote_oracle o)
       (remoteStatus_oracle o) (remoteBranchStatus_oracle o)
       (remoteRenameBranch_oracle o) (platform o) (path_sep o)
       (path_resolve o) (path_join o)).

End GitBinSearch.

(* ===================================================================== *)
(** * Properties *)
(* ===================================================================== *)

Module TraceFacts.
Import Trace.

Lemma trace_run l : forall w, trace (run l w) = trace w ++ l.
Proof.
  induction l as [|c l IH]; intros w; cbn.
  - by rewrite app_nil_r.
  - rewrite IH. cbn. by rewrite <- app_assoc.
Qed.

Lemma run_app l1 l2 w : run (l1 ++ l2) w = run l2 (run l1 w).
Proof. unfold run. apply fold_left_app. Qed.



Lemma issued_run {A} (m : M A) (w : World) (l : list Cmd) :
  after m w = run l w -> issued m w = l.
Proof.
  unfold after, issued. intros ->. rewrite trace_run. apply drop_app_length.
Qed.

Lemma outcome {A} (m : M A) (w : World) (r : Res A) (l : list Cmd) :
  m w = (r, run l w) -> result m w = r /\ issued m w = l.
Proof.
  intros H. split.
  - unfold result. by rewrite H.
  - apply issued_run. unfold after. by rewrite H.
Qed.

Lemma bind_ok {A B} (m : M A) (k : A -> M B) w a w' :
  m w = (Ok a, w') -> bind m k w = k a w'.
Proof. unfold bind. by intros ->. Qed.

Lemma bind_throw {A B} (m : M A) (k : A -> M B) w e w' :
  m w = (Throw e, w') -> bind m k w = (Throw e, w').
Proof. unfold bind. by intros ->. Qed.

Lemma issued_trace {A} (m : M A) (w : World) (l : list Cmd) :
  trace (after m w) = trace w ++ l -> issued m w = l.
Proof. unfold after, issued. intros ->. apply drop_app_length. Qed.

Lemma try_catch_ok {A} (m : M A) (h : Exn -> M A) w a w' :
  m w = (Ok a, w') -> try_catch m h w = (Ok a, w').
Proof. unfold try_catch. by intros ->. Qed.

Lemma try_catch_throw {A} (m : M A) (h : Exn -> M A) w e w' :
  m w = (Throw e, w') -> try_catch m h w = h e w'.
Proof. unfold try_catch. by intros ->. Qed.

Lemma execFileAsync_ok p a d w out :
  exec_oracle (oracles w) (now w) (mkCmd p a d) = inr out ->
  execFileAsync p a d w = (Ok out, log_cmd (mkCmd p a d) w).
Proof. unfold execFileAsync. by intros ->. Qed.

Lemma execFileAsync_throw p a d w e :
  exec_oracle (oracles w) (now w) (mkCmd p a d) = inl e ->
  execFileAsync p a d w = (Throw (ExecFailure e), log_cmd (mkCmd p a d) w).
Proof. unfold execFileAsync. by intros ->. Qed.

Lemma fails_eq {A} (m : M A) (w : World) :
  fails m w -> exists e, m w = (Throw e, after m w).
Proof.
  intros [e He]. exists e. unfold result, after in *.
  destruct (m w) as [r w']. cbn in *. by subst.
Qed.

Lemma emits_ret {A} P (a : A) : emits P (ret a).
Proof. intros w. exists []. by split. Qed.

Lemma emits_throw {A} P e : emits P (@throw A e).
Proof. intros w. exists []. by split. Qed.

Lemma emits_exec P p a d : P (mkCmd p a d) -> emits P (execFileAsync p a d).
Proof.
  intros HP w. exists [mkCmd p a d]. split; [|by constructor].
  unfold after, execFileAsync. by destruct (exec_oracle _ _ _).
Qed.

Lemma emits_bind {A B} P (m : M A) (k : A -> M B) :
  emits P m -> (forall a, emits P (k a)) -> emits P (bind m k).
Proof.
  intros Hm Hk w. destruct (Hm w) as (l1 & E1 & F1).
  unfold after, bind in *. destruct (m w) as [[a|e] w1]; cbn in E1; subst w1.
  - destruct (Hk a (run l1 w)) as (l2 & E2 & F2).
    exists (l1 ++ l2). rewrite run_app. split; [done|]. by apply Forall_app.
  - exists l1. by split.
Qed.

Lemma emits_try_catch {A} P (m : M A) (h : Exn -> M A) :
  emits P m -> (forall e, emits P (h e)) -> emits P (try_catch m h).
Proof.
  intros Hm Hh w. destruct (Hm w) as (l1 & E1 & F1).
  unfold after, try_catch in *. destruct (m w) as [[a|e] w1]; cbn in E1; subst w1.
  - exists l1. by split.
  - destruct (Hh e (run l1 w)) as (l2 & E2 & F2).
    exists (l1 ++ l2). rewrite run_app. split; [done|]. by apply Forall_app.
Qed.

Lemma emits_issued {A} P (m : M A) w : emits P m -> Forall P (issued m w).
Proof.
  intros H. destruct (H w) as (l & E & F). by rewrite (issued_run m w l E).
Qed.

End TraceFacts.


Module OccursFacts.

Lemma prefix_append (p s : string) :
  String.prefix p s = true <-> exists b, s = p +:+ b.
Proof.
  revert s. induction p as [|c p IH]; intros s.
  - split; [intros _; by exists s|intros _; by destruct s].
  - destruct s as [|d s]; cbn [String.prefix].
    { split; [done|]. by intros [b Hb]. }
    destruct (ascii_dec c d) as [->|Hne].
    + rewrite IH. split; intros [b Hb]; exists b.
      * change (String d s = String d (p +:+ b)). by rewrite Hb.
      * change (String d s = String d (p +:+ b)) in Hb. by injection Hb.
    + split; [done|]. intros [b Hb].
      change (String d s = String c (p +:+ b)) in Hb. by injection Hb.
Qed.

(** [includes] tells whether the phrase occurs somewhere in the text. *)
Lemma includes_append (s p : string) :
  Js.includes s p = true <-> exists a b, s = a +:+ p +:+ b.
Proof.
  induction s as [|c s IH]; cbn [Js.includes].
  - rewrite orb_false_r, prefix_append. split.
    + intros [b Hb]. by exists "", b.
    + intros (a & b & H). destruct a as [|d a]; [|discriminate H].
      by exists b.
  - rewrite orb_true_iff, prefix_append, IH. split.
    + intros [[b Hb]|(a & b & Hab)].
      * by exists "", b.
      * exists (String c a), b. change (String c s = String c (a +:+ p +:+ b)).
        by rewrite Hab.
    + intros (a & b & Hab). destruct a as [|d a].
      * left. by exists b.
      * right. change (String c s = String d (a +:+ p +:+ b)) in Hab.
        injection Hab as -> ->. by exists a, b.
Qed.

End OccursFacts.

Module PushFacts.
Import Trace TraceFacts OccursFacts GitService PushCommands.

Lemma push_run (taskPath : string) (w : World) :
  let o := exec_oracle (oracles w) in
  let n := now w in
  push taskPath w =
  match o n (plainPush taskPath) with
  | inr out => (Ok (Js.trim out), run [plainPush taskPath] w)
  | inl e =>
      if indicatesNoUpstream (ExecFailure e) then
        match o (S n) (branchQuery taskPath) with
        | inr branch =>
            let retry := upstreamPush taskPath (Js.trim branch) in
            (settled (o (S (S n)) retry),
             run [plainPush taskPath; branchQuery taskPath; retry] w)
        | inl e' =>
            (Throw (ExecFailure e'), run [plainPush taskPath; branchQuery taskPath] w)
        end
      else (Throw (ExecFailure e), run [plainPush taskPath] w)
  end.
Proof.
  cbv zeta. unfold push, try_catch, bind, execFileAsync, plainPush, branchQuery, upstreamPush.
  destruct (exec_oracle (oracles w) (now w) _) as [e|out]; cbn; [|done].
  destruct (indicatesNoUpstream (ExecFailure e)); cbn; [|done].
  destruct (exec_oracle (oracles w) (S (now w)) _) as [e'|b]; cbn; [done|].
  destruct (exec_oracle (oracles w) (S (S (now w))) _); done.
Qed.

(** The test of [push] on the error is the test for a missing upstream. *)
Lemma indicatesNoUpstream_spec (e : ExecError) :
  indicatesNoUpstream (ExecFailure e) = true <-> missingUpstream e.
Proof.
  unfold indicatesNoUpstream, missingUpstream, occursIn. cbn [exn_stderr].
  rewrite orb_true_iff, !includes_append. split.
  - destruct (stderr e) as [text|] eqn:E.
    + intros H. by exists text.
    + intros [(a & b & H)|(a & b & H)]; by destruct a.
  - intros (text & -> & H). exact H.
Qed.

Lemma indicatesNoUpstream_false (e : ExecError) :
  indicatesNoUpstream (ExecFailure e) = false <-> ~ missingUpstream e.
Proof. rewrite <- indicatesNoUpstream_spec. by destruct (indicatesNoUpstream _). Qed.

(** C1. Every call of [push] runs a plain [git push] first, once. When
    it succeeds nothing else runs. When it fails and its stderr holds
    neither [has no upstream branch] nor [no upstream configured] (or
    there is no stderr), that very error is thrown and nothing else runs.
    When it fails and the stderr holds one of the two sentences, the
    retry runs, once: the current branch is asked for and pushed with
    [--set-upstream origin], and the outcome of that push is the outcome
    of the call (an error of the branch query ends the retry with that
    error). So the retry is entered if and only if the plain push failed
    with a stderr that tells of a missing upstream, and in no case does
    more than one upstream-setting push run. *)
Theorem push_retries_once_only_for_missing_upstream (taskPath : string) (w : World) :
  let o := exec_oracle (oracles w) in
  let n := now w in
  let cmds := issued (push taskPath) w in
  let res := result (push taskPath) w in
  head cmds = Some (plainPush taskPath)
  /\ (forall out, o n (plainPush taskPath) = inr out ->
        res = Ok (Js.trim out) /\ cmds = [plainPush taskPath])
  /\ (forall e, o n (plainPush taskPath) = inl e -> ~ missingUpstream e ->
        res = Throw (ExecFailure e) /\ cmds = [plainPush taskPath])
  /\ (forall e, o n (plainPush taskPath) = inl e -> missingUpstream e ->
        match o (S n) (branchQuery taskPath) with
        | inr branch =>
            let retry := upstreamPush taskPath (Js.trim branch) in
            cmds = [plainPush taskPath; branchQuery taskPath; retry]
            /\ res = settled (o (S (S n)) retry)
        | inl e' =>
            cmds = [plainPush taskPath; branchQuery taskPath]
            /\ res = Throw (ExecFailure e')
        end)
  /\ (branchQuery taskPath ∈ cmds <->
      exists e, o n (plainPush taskPath) = inl e /\ missingUpstream e)
  /\ (length (filter (fun c => Is_true (isUpstreamPush c)) cmds) <= 1)%nat
  /\ length (filter (fun c => c = plainPush taskPath) cmds) = 1%nat.
Proof.
  cbv zeta. pose proof (push_run taskPath w) as H. cbv zeta in H.
  assert (branchQuery taskPath ∉ [plainPush taskPath]) as Hnot.
  { intros Hin. apply list_elem_of_In in Hin. cbn in Hin.
    destruct Hin as [Hin|[]]. discriminate Hin. }
  assert (branchQuery taskPath <> plainPush taskPath) as Hbq by discriminate.
  assert (forall b, upstreamPush taskPath b <> plainPush taskPath) as Hup by discriminate.
  destruct (exec_oracle (oracles w) (now w) (plainPush taskPath)) as [e|out].
  - destruct (indicatesNoUpstream (ExecFailure e)) eqn:Hind.
    + assert (missingUpstream e) as Hmiss by (by apply indicatesNoUpstream_spec).
      destruct (exec_oracle (oracles w) (S (now w)) (branchQuery taskPath)) as [e'|b];
        apply outcome in H as [Hr Hi]; rewrite Hr, Hi.
      * split; [done|]. split; [done|].
        split; [by intros ? [= <-] Hno|]. split; [by intros ? [= <-] _|].
        split; [|split].
        -- split; [intros _; by exists e|intros _].
           apply list_elem_of_In. cbn. auto.
        -- vm_compute. lia.
        -- rewrite !filter_cons, filter_nil.
           destruct (decide _) as [_|Hc]; [|by destruct Hc].
           by destruct (decide (branchQuery taskPath = plainPush taskPath)).
      * split; [done|]. split; [done|].
        split; [by intros ? [= <-] Hno|]. split; [by intros ? [= <-] _|].
        split; [|split].
        -- split; [intros _; by exists e|intros _].
           apply list_elem_of_In. cbn. auto.
        -- vm_compute. lia.
        -- rewrite !filter_cons, filter_nil.
           destruct (decide _) as [_|Hc]; [|by destruct Hc].
           destruct (decide (branchQuery taskPath = plainPush taskPath)); [done|].
           by destruct (decide (upstreamPush taskPath (Js.trim b) = plainPush taskPath));
             [destruct (Hup (Js.trim b))|].
    + assert (~ missingUpstream e) as Hmiss by (by apply indicatesNoUpstream_false).
      apply outcome in H as [Hr Hi]. rewrite Hr, Hi.
      split; [done|]. split; [done|].
      split; [by intros ? [= <-] _|]. split; [by intros ? [= <-] Hyes|].
      split; [|split].
      * split; [done|]. by intros (e0 & [= <-] & He0).
      * vm_compute. lia.
      * rewrite filter_cons, filter_nil. by destruct (decide _) as [_|Hc]; [|destruct Hc].
  - apply outcome in H as [Hr Hi]. rewrite Hr, Hi.
    split; [done|]. split; [by intros ? [= <-]|].
    split; [done|]. split; [done|]. split; [|split].
    + split; [done|]. by intros (e0 & [=] & _).
    + vm_compute. lia.
    + rewrite filter_cons, filter_nil. by destruct (decide _) as [_|Hc]; [|destruct Hc].
Qed.

(** On a branch without upstream the retry is entered and its push
    decides; a push the remote rejects as non-fast-forward tells of no
    missing upstream and is passed on after the one command. *)
Lemma push_retries_once_only_for_missing_upstream_witness :
  (missingUpstream
     (mkExecError (Some "fatal: The current branch topic has no upstream branch.")
        "Command failed: fatal: The current branch topic has no upstream branch.")
   /\ issued (push "/repo") withoutUpstream
      = [plainPush "/repo"; branchQuery "/repo"; upstreamPush "/repo" "topic"]
   /\ result (push "/repo") withoutUpstream = Ok "branch set up")
  /\ (~ missingUpstream
        (mkExecError (Some "! [rejected] main -> main (non-fast-forward)")
           "Command failed: ! [rejected] main -> main (non-fast-forward)")
      /\ result (push "/repo") rejected
         = Throw (ExecFailure (mkExecError
             (Some "! [rejected] main -> main (non-fast-forward)")
             "Command failed: ! [rejected] main -> main (non-fast-forward)"))
      /\ issued (push "/repo") rejected = [plainPush "/repo"]).
Proof.
  assert (missingUpstream
            (mkExecError (Some "fatal: The current branch topic has no upstream branch.")
               "Command failed: fatal: The current branch topic has no upstream branch."))
    as Hyes.
  { eexists. split; [reflexivity|]. left.
    by exists "fatal: The current branch topic ", ".". }
  assert (~ missingUpstream
            (mkExecError (Some "! [rejected] main -> main (non-fast-forward)")
               "Command failed: ! [rejected] main -> main (non-fast-forward)")) as Hno.
  { apply indicatesNoUpstream_false. reflexivity. }
  split.
  - split; [exact Hyes|].
    exact (proj1 (proj2 (proj2 (proj2
             (push_retries_once_only_for_missing_upstream "/repo" withoutUpstream))))
             _ eq_refl Hyes).
  - split; [exact Hno|].
    exact (proj1 (proj2 (proj2
             (push_retries_once_only_for_missing_upstream "/repo" rejected)))
             _ eq_refl Hno).
Defined.


(** A rejected push is returned as it is, after one command. *)
Example push_rejected :
  result (push "/repo") rejected =
    Throw (ExecFailure (mkExecError
      (Some "! [rejected] main -> main (non-fast-forward)")
      "Command failed: ! [rejected] main -> main (non-fast-forward)"))
  /\ issued (push "/repo") rejected = [plainPush "/repo"].
Proof. by vm_compute. Qed.

(** A push without upstream is retried once, for the current branch. *)
Example push_without_upstream :
  result (push "/repo") withoutUpstream = Ok "branch set up"
  /\ issued (push "/repo") withoutUpstream =
       [plainPush "/repo"; branchQuery "/repo"; upstreamPush "/repo" "topic"].
Proof. by vm_compute. Qed.

End PushFacts.

Module DiffFacts.
Import GitService DiffProps.

Lemma parseLine_skipped (line : string) :
  parseLine line = None <-> skipped line = true.
Proof.
  unfold parseLine, skipped, Js.startsWith.
  destruct line as [|c s]; cbn [Js.truthy negb orb]; [done|].
  destruct (existsb _ DIFF_HEADER_PREFIXES); cbn [orb]; [done|].
  cbn [String.prefix].
  destruct (Ascii.eqb_spec c "\"%char) as [->|Hc].
  - destruct (ascii_dec "\" "\"); [|done]. by destruct s.
  - destruct (ascii_dec "\" c) as [<-|_]; [done|].
    split; [|done].
    repeat (destruct (Ascii.eqb c _); [done|]). done.
Qed.

Lemma parseLine_wellFormed (line : string) (d : DiffLine.t) :
  parseLine line = Some d -> wellFormed d.
Proof.
  unfold parseLine, wellFormed.
  destruct (negb (Js.truthy line)); [done|].
  destruct (existsb _ _); [done|].
  destruct line as [|c s].
  - intros [= <-]. cbn. eauto.
  - repeat (destruct (Ascii.eqb c _); [try done; intros [= <-]; cbn; eauto|]).
    intros [= <-]. cbn. eauto.
Qed.

(** C3. Whatever the raw text, every record of [parseDiffLines] is a
    context line with the same text on both sides, a deletion with only
    the left side, or an addition with only the right side; so none has
    both sides undefined. One line of the text gives at most one record,
    of one type, so no line is both an addition and a deletion. A line
    the parser keeps is classified by its first code unit: a space
    gives context, [-] a deletion, [+] an addition of the rest of the
    line, and anything else gives a context line of the whole line. *)
Theorem parseDiffLines_records (stdout : string) :
  let records := fst (parseDiffLines stdout) in
  Forall wellFormed records
  /\ Forall (fun d => ~ (DiffLine.left d = None /\ DiffLine.right d = None)) records
  /\ records = omap parseLine (Js.split stdout NL)
  /\ (forall line d1 d2,
        parseLine line = Some d1 -> parseLine line = Some d2 ->
        ~ (DiffLine.type d1 = DiffLine.add /\ DiffLine.type d2 = DiffLine.del))
  /\ (forall c rest, skipped (String c rest) = false ->
        parseLine (String c rest) =
          Some (if Ascii.eqb c " " then DiffLine.mk (Some rest) (Some rest) DiffLine.context
                else if Ascii.eqb c "-" then DiffLine.mk (Some rest) None DiffLine.del
                else if Ascii.eqb c "+" then DiffLine.mk None (Some rest) DiffLine.add
                else DiffLine.mk (Some (String c rest)) (Some (String c rest))
                       DiffLine.context)).
Proof.
  cbv zeta.
  assert (Forall wellFormed (fst (parseDiffLines stdout))) as Hwf.
  { unfold parseDiffLines. cbn [fst]. apply Forall_forall. intros d Hd.
    apply list_elem_of_omap in Hd as (line & _ & Hline).
    eapply parseLine_wellFormed, Hline. }
  split; [exact Hwf|]. split; [|split; [reflexivity|split]].
  - eapply Forall_impl; [exact Hwf|]. intros d Hd [Hl Hr]. unfold wellFormed in Hd.
    destruct (DiffLine.type d).
    + destruct Hd as (s & Hs & _). congruence.
    + destruct Hd as [_ [s Hs]]. congruence.
    + destruct Hd as [[s Hs] _]. congruence.
  - intros line d1 d2 H1 H2 [Ha Hd]. congruence.
  - intros c rest Hs.
    destruct (parseLine (String c rest)) as [d|] eqn:E.
    2:{ apply parseLine_skipped in E. congruence. }
    revert E. unfold parseLine. unfold skipped in Hs.
    apply orb_false_iff in Hs as [Hs Hb]. apply orb_false_iff in Hs as [_ Hh].
    rewrite Hh. cbn [Js.truthy negb].
    destruct (Ascii.eqb c "\"); [done|].
    repeat (destruct (Ascii.eqb c _); [by intros [= <-]|]).
    by intros [= <-].
Qed.

(** The parser on a line of each kind: [weird] has none of the three
    prefixes and is kept as context. *)
Lemma parseDiffLines_records_witness :
  skipped "weird" = false
  /\ parseLine "weird" =
       Some (DiffLine.mk (Some "weird") (Some "weird") DiffLine.context).
Proof.
  split; [reflexivity|].
  apply (proj2 (proj2 (proj2 (proj2 (parseDiffLines_records ""))))
           "w"%char "eird").
  reflexivity.
Defined.

End DiffFacts.

Module StringFacts.

Lemma append_cons (c : ascii) (s t : string) : String c s +:+ t = String c (s +:+ t).
Proof. reflexivity. Qed.

Lemma append_nil_l (s : string) : "" +:+ s = s.
Proof. reflexivity. Qed.

Lemma append_nil_r (s : string) : s +:+ "" = s.
Proof. induction s as [|c s IH]; [done|]. by rewrite append_cons, IH. Qed.

Lemma append_assoc (s t u : string) : (s +:+ t) +:+ u = s +:+ (t +:+ u).
Proof. induction s as [|c s IH]; [done|]. by rewrite !append_cons, IH. Qed.

Lemma rev_app_append (s t : string) : String.rev_app s t = String.rev_app s "" +:+ t.
Proof.
  revert t. induction s as [|c s IH]; intros t; cbn; [done|].
  rewrite IH. rewrite (IH (String c "")).
  by rewrite append_assoc.
Qed.

Lemma rev_cons (c : ascii) (s : string) :
  String.rev (String c s) = String.rev s +:+ String c "".
Proof. unfold String.rev. cbn. apply rev_app_append. Qed.

Lemma split_go_nonempty sep k cur s : Js.split_go sep k cur s <> [].
Proof.
  revert k cur. induction s as [|c s IH]; intros k cur; cbn [Js.split_go]; [done|].
  destruct k; [|apply IH].
  destruct (String.prefix sep (String c s)); [done|apply IH].
Qed.

Lemma join_cons sep x l :
  l <> [] -> Js.join sep (x :: l) = x +:+ sep +:+ Js.join sep l.
Proof. intros H. destruct l; [done|]. reflexivity. Qed.

(** Joining the pieces of a split on one code unit gives the text back. *)
Lemma join_split_go (a : ascii) (s cur : string) :
  Js.join (String a "") (Js.split_go (String a "") 0 cur s) = String.rev cur +:+ s.
Proof.
  revert cur. induction s as [|c s IH]; intros cur.
  - cbn. by rewrite append_nil_r.
  - cbn [Js.split_go String.prefix String.length Nat.pred].
    destruct (ascii_dec a c) as [->|Hne].
    + assert (String.prefix "" s = true) as -> by (by destruct s).
      rewrite join_cons by apply split_go_nonempty.
      rewrite IH. done.
    + rewrite IH, rev_cons, append_assoc. done.
Qed.

Lemma join_split (a : ascii) (s : string) :
  Js.join (String a "") (Js.split s (String a "")) = s.
Proof. unfold Js.split. by rewrite join_split_go. Qed.

End StringFacts.

Module FileDiffFacts.
Import Trace TraceFacts GitService DiffProps DiffCommands StringFacts.

Lemma readFileTextCapped_total (p : string) (maxBytes : Z) (w : World) :
  exists content, readFileTextCapped p maxBytes w
                  = (Ok content, after (readFileTextCapped p maxBytes) w)
    /\ exists k, trace (after (readFileTextCapped p maxBytes) w) = trace w
       /\ oracles (after (readFileTextCapped p maxBytes) w) = oracles w
       /\ now (after (readFileTextCapped p maxBytes) w) = (k + now w)%nat.
Proof.
  unfold after, readFileTextCapped, bind, stat, readFile, ask.
  destruct (stat_oracle _ _ _) as [st|]; cbn.
  - destruct (negb _ || _); cbn; eexists; (split; [done|]);
      [exists 1%nat|exists 2%nat]; done.
  - eexists. split; [done|]. by exists 1%nat.
Qed.

Lemma allOf_add (l : list string) : allOf DiffLine.add (map addLine l).
Proof. unfold allOf. by apply Forall_map, Forall_forall. Qed.

Lemma allOf_del (l : list string) : allOf DiffLine.del (map delLine l).
Proof. unfold allOf. by apply Forall_map, Forall_forall. Qed.

Lemma rights_addLine (l : list string) : omap DiffLine.right (map addLine l) = l.
Proof. induction l as [|x l IH]; cbn; [done|]. by rewrite IH. Qed.

Lemma lefts_delLine (l : list string) : omap DiffLine.left (map delLine l) = l.
Proof. induction l as [|x l IH]; cbn; [done|]. by rewrite IH. Qed.

(** The fallback of [getFileDiff], step by step. *)
Lemma getFileDiff_fallback (taskPath filePath : string) (w : World) :
  outsideWorktree (oracles w) taskPath filePath = false ->
  noDiff (exec_oracle (oracles w) (now w) (diffCmd taskPath filePath)) ->
  let w1 := run [diffCmd taskPath filePath] w in
  let abs := path_join (oracles w) [taskPath; filePath] in
  let read := readFileTextCapped abs MAX_UNTRACKED_DIFF_BYTES in
  let w2 := after read w1 in
  match result read w1 with
  | Ok (Some content) =>
      getFileDiff taskPath filePath w
      = (Ok (mkFileDiff (map addLine (Js.split content NL)) None), w2)
  | Ok None =>
      getFileDiff taskPath filePath w
      = (Ok (mkFileDiff
               match exec_oracle (oracles w2) (now w2) (showCmd taskPath filePath) with
               | inr prev => map delLine (Js.split prev NL)
               | inl _ => []
               end None),
         run [showCmd taskPath filePath] w2)
  | Throw _ => False
  end.
Proof.
  intros Hin Hno. cbv zeta.
  destruct (readFileTextCapped_total
              (path_join (oracles w) [taskPath; filePath]) MAX_UNTRACKED_DIFF_BYTES
              (run [diffCmd taskPath filePath] w)) as (content & Hread & _).
  unfold result. rewrite Hread. cbn [fst].
  set (w2 := after _ _) in *. change (run [diffCmd taskPath filePath] w)
    with (log_cmd (diffCmd taskPath filePath) w) in Hread.
  unfold diffCmd in Hread, Hno.
  assert (forall (k : option string -> M FileDiff),
            bind (readFileTextCapped (path_join (oracles w) [taskPath; filePath])
                    MAX_UNTRACKED_DIFF_BYTES) k
              (log_cmd (diffCmd taskPath filePath) w) = k content w2) as Hbind.
  { intros k. unfold bind. unfold diffCmd. by rewrite Hread. }
  unfold diffCmd in Hbind.
  destruct content as [content|].
  - unfold getFileDiff, platform_of, try_catch, execFileAsync.
    unfold bind at 1. rewrite Hin. unfold bind at 1.
    destruct (exec_oracle (oracles w) (now w) _) as [e|stdout].
    + unfold bind at 1. cbn [oracles log_cmd]. by rewrite Hbind.
    + cbn in Hno. rewrite Hno. cbn [Nat.eqb length].
      unfold bind at 1. cbn [oracles log_cmd]. by rewrite Hbind.
  - unfold getFileDiff, platform_of, try_catch, execFileAsync.
    unfold bind at 1. rewrite Hin. unfold bind at 1.
    destruct (exec_oracle (oracles w) (now w) _) as [e|stdout].
    + unfold bind at 1. cbn [oracles log_cmd]. rewrite Hbind.
      unfold bind, showCmd.
      by destruct (exec_oracle (oracles w2) (now w2) _).
    + cbn in Hno. rewrite Hno. cbn [Nat.eqb length].
      unfold bind at 1. cbn [oracles log_cmd]. rewrite Hbind.
      unfold bind, showCmd.
      by destruct (exec_oracle (oracles w2) (now w2) _).
Qed.

(** C6. Let the path lie in the working tree and let the diff against
    HEAD tell nothing, because the command fails or because its output
    has no line to parse and no binary marker. Then [getFileDiff]
    returns. If the file can be read, the lines are the lines of its
    text, each an addition, and joined they give the text again. If it
    cannot be read and [git show HEAD:file] succeeds, the lines are those
    of the HEAD version, each a deletion. If that fails as well, the
    sequence is empty. *)
Theorem getFileDiff_of_untracked_file (taskPath filePath : string) (w : World) :
  outsideWorktree (oracles w) taskPath filePath = false ->
  noDiff (exec_oracle (oracles w) (now w) (diffCmd taskPath filePath)) ->
  let w1 := run [diffCmd taskPath filePath] w in
  let read :=
    readFileTextCapped (path_join (oracles w) [taskPath; filePath])
      MAX_UNTRACKED_DIFF_BYTES in
  let w2 := after read w1 in
  let shown := exec_oracle (oracles w2) (now w2) (showCmd taskPath filePath) in
  let res := result (getFileDiff taskPath filePath) w in
  (exists content, result read w1 = Ok content)
  /\ (forall content, result read w1 = Ok (Some content) ->
        res = Ok (mkFileDiff (map addLine (Js.split content NL)) None)
        /\ allOf DiffLine.add (map addLine (Js.split content NL))
        /\ Js.join NL (omap DiffLine.right (map addLine (Js.split content NL))) = content)
  /\ (forall prev, result read w1 = Ok None -> shown = inr prev ->
        res = Ok (mkFileDiff (map delLine (Js.split prev NL)) None)
        /\ allOf DiffLine.del (map delLine (Js.split prev NL))
        /\ Js.join NL (omap DiffLine.left (map delLine (Js.split prev NL))) = prev)
  /\ (forall e, result read w1 = Ok None -> shown = inl e ->
        res = Ok (mkFileDiff [] None)).
Proof.
  intros Hin Hno. cbv zeta.
  pose proof (getFileDiff_fallback taskPath filePath w Hin Hno) as H. cbv zeta in H.
  split; [|split; [|split]].
  - destruct (readFileTextCapped_total
                (path_join (oracles w) [taskPath; filePath]) MAX_UNTRACKED_DIFF_BYTES
                (run [diffCmd taskPath filePath] w)) as (content & Hread & _).
    exists content. unfold result. by rewrite Hread.
  - intros content Hc. rewrite Hc in H. split; [|split].
    + unfold result at 1. by rewrite H.
    + apply allOf_add.
    + rewrite rights_addLine. apply join_split.
  - intros prev Hc Hs. rewrite Hc, Hs in H. split; [|split].
    + unfold result at 1. by rewrite H.
    + apply allOf_del.
    + rewrite lefts_delLine. apply join_split.
  - intros e Hc Hs. rewrite Hc, Hs in H. unfold result at 1. by rewrite H.
Qed.

(** The untracked [notes.txt] comes back as its two lines, both added. *)
Lemma getFileDiff_of_untracked_file_witness :
  outsideWorktree (oracles untracked) "/repo" "notes.txt" = false
  /\ noDiff (exec_oracle (oracles untracked) (now untracked) (diffCmd "/repo" "notes.txt"))
  /\ result (getFileDiff "/repo" "notes.txt") untracked
     = Ok (mkFileDiff [addLine "first"; addLine "second"] None).
Proof.
  split; [reflexivity|]. split; [reflexivity|].
  apply (proj1 (proj2 (getFileDiff_of_untracked_file "/repo" "notes.txt" untracked
                         eq_refl eq_refl))
           ("first" +:+ NL +:+ "second")).
  reflexivity.
Defined.

(** A file that cannot be read comes back as the lines of HEAD, deleted. *)
Example getFileDiff_unreadable :
  result (getFileDiff "/repo" "gone.txt") unreadable
  = Ok (mkFileDiff [delLine "old"; delLine ""] None).
Proof. by vm_compute. Qed.

(** C7. When the path, resolved against the working tree, is neither the
    root nor below it, [getFileDiff] and [getCommitFileDiff] throw, and
    the world is as it was: no command has run. *)
Theorem diff_outside_worktree_throws (taskPath commitHash filePath : string) (w : World) :
  outsideWorktree (oracles w) taskPath filePath = true ->
  getFileDiff taskPath filePath w
    = (Throw (JsError "File path is outside the worktree"), w)
  /\ getCommitFileDiff taskPath commitHash filePath w
    = (Throw (JsError "File path is outside the worktree"), w)
  /\ issued (getFileDiff taskPath filePath) w = []
  /\ issued (getCommitFileDiff taskPath commitHash filePath) w = [].
Proof.
  intros Hout.
  assert (getFileDiff taskPath filePath w
          = (Throw (JsError "File path is outside the worktree"), w)) as H1.
  { unfold getFileDiff, bind, platform_of. by rewrite Hout. }
  assert (getCommitFileDiff taskPath commitHash filePath w
          = (Throw (JsError "File path is outside the worktree"), w)) as H2.
  { unfold getCommitFileDiff, bind, platform_of. by rewrite Hout. }
  split; [done|]. split; [done|].
  split; apply (issued_run _ w []); unfold after; [by rewrite H1|by rewrite H2].
Qed.

(** A path that climbs out of [/repo] is refused before git is run. *)
Lemma diff_outside_worktree_throws_witness :
  outsideWorktree (oracles (Example.local [] [])) "/repo" "../etc/passwd" = true
  /\ getFileDiff "/repo" "../etc/passwd" (Example.local [] [])
     = (Throw (JsError "File path is outside the worktree"), Example.local [] []).
Proof.
  split; [reflexivity|].
  apply (diff_outside_worktree_throws "/repo" "0123abcd" "../etc/passwd"
           (Example.local [] []) eq_refl).
Defined.

(** On POSIX a file below the root passes the test, the root's sibling
    with a longer name does not. *)
Example outsideWorktree_posix :
  outsideWorktree (oracles (Example.local [] [])) "/repo" "src/main.ts" = false
  /\ outsideWorktree (oracles (Example.local [] [])) "/repo" "../repo-old/x" = true
  /\ outsideWorktree (oracles (Example.local [] [])) "/repo" "/etc/passwd" = true.
Proof. by vm_compute. Qed.

End FileDiffFacts.

Module LogFacts.
Import Trace TraceFacts GitService LogCommands.

Lemma readOnly_intro (verb : string) (rest : list string) (d : string) :
  verb ∈ ["rev-parse"; "rev-list"; "symbolic-ref"; "log"] ->
  readOnly (mkCmd "git" (verb :: rest) d).
Proof. intros H. split; [done|]. by exists verb, rest. Qed.

Ltac read_only :=
  repeat first
    [ apply emits_bind; [|intros ?]
    | apply emits_try_catch; [|intros ?]
    | apply emits_ret
    | apply emits_throw
    | apply emits_exec; apply readOnly_intro; set_solver ].

Lemma computeAheadCount_readOnly taskPath : emits readOnly (computeAheadCount taskPath).
Proof.
  unfold computeAheadCount, aheadOfUpstream, aheadOfOriginBranch, aheadOfOriginHead.
  read_only.
Qed.

(** The ahead count is always there: the innermost [catch] gives [0]. *)
Lemma computeAheadCount_total taskPath w :
  exists a, result (computeAheadCount taskPath) w = Ok a.
Proof.
  unfold result, computeAheadCount, try_catch.
  destruct (aheadOfUpstream taskPath w) as [[a|e] w1]; [by eexists|].
  destruct (aheadOfOriginBranch taskPath w1) as [[a|e2] w2]; [by eexists|].
  destruct (aheadOfOriginHead taskPath w2) as [[a|e3] w3]; by eexists.
Qed.

Lemma aheadCountFor_readOnly taskPath known : emits readOnly (aheadCountFor taskPath known).
Proof.
  unfold aheadCountFor. destruct (_ <? 0); [apply computeAheadCount_readOnly|apply emits_ret].
Qed.

Lemma aheadCountFor_total taskPath known w :
  exists a, result (aheadCountFor taskPath known) w = Ok a.
Proof.
  unfold aheadCountFor. destruct (_ <? 0); [apply computeAheadCount_total|by eexists].
Qed.

(** [getLog] is the ahead count followed by one [git log]. *)
Lemma getLog_run taskPath maxCount skip known w a :
  result (aheadCountFor taskPath known) w = Ok a ->
  let w1 := after (aheadCountFor taskPath known) w in
  getLog taskPath maxCount skip known w =
    (match exec_oracle (oracles w1) (now w1) (logCmd taskPath maxCount skip) with
     | inr stdout => Ok (commitsOf skip a stdout, a)
     | inl e => Throw (ExecFailure e)
     end, log_cmd (logCmd taskPath maxCount skip) w1).
Proof.
  unfold result, after, getLog, logCmd, commitsOf, logFormat. cbv zeta.
  unfold bind at 1. fold (aheadCountFor taskPath known).
  destruct (aheadCountFor taskPath known w) as [r w1]. cbn [fst snd]. intros ->.
  unfold bind, execFileAsync.
  destruct (exec_oracle (oracles w1) (now w1) _) as [e|stdout]; [done|].
  by destruct (negb (Js.truthy (Js.trim stdout))).
Qed.

Lemma getLog_readOnly taskPath maxCount skip known :
  emits readOnly (getLog taskPath maxCount skip known).
Proof.
  unfold getLog. cbv zeta. fold (aheadCountFor taskPath known).
  apply emits_bind; [apply aheadCountFor_readOnly|]. intros a.
  apply emits_bind; [apply emits_exec, readOnly_intro; set_solver|]. intros stdout.
  destruct (negb _); apply emits_ret.
Qed.

Lemma commitsOf_isPushed skip a stdout i c :
  commitsOf skip a stdout !! i = Some c ->
  isPushed c = (default 0 skip + Z.of_nat i >=? a).
Proof.
  unfold commitsOf. destruct (negb _); [done|].
  rewrite list_lookup_imap. destruct (_ !! i) as [entry|]; [|done].
  by intros [= <-].
Qed.

End LogFacts.

Module ResetFacts.
Import Trace TraceFacts GitService LogCommands ResetSteps LogFacts.

Lemma softReset_not_readOnly taskPath : ~ readOnly (softReset taskPath).
Proof.
  intros [_ (verb & rest & [= <- <-] & Hin)].
  apply list_elem_of_In in Hin. cbn in Hin. intuition discriminate.
Qed.

Lemma not_in_readOnly (l : list Cmd) taskPath :
  Forall readOnly l -> softReset taskPath ∉ l.
Proof.
  intros Hall Hin. eapply softReset_not_readOnly.
  eapply Forall_forall in Hall; eauto.
Qed.

(** [softResetLastCommit], guard by guard. *)
Lemma softResetLastCommit_run taskPath w :
  let w1 := run [verifyParent taskPath] w in
  let latest := getLog taskPath (Some 1) None None in
  softResetLastCommit taskPath w =
  match exec_oracle (oracles w) (now w) (verifyParent taskPath) with
  | inl _ => (Throw (JsError "Cannot undo the initial commit"), w1)
  | inr _ =>
      match latest w1 with
      | (Throw e, w2) => (Throw e, w2)
      | (Ok (log, _), w2) =>
          if latestPushed log
          then (Throw (JsError "Cannot undo a commit that has already been pushed"), w2)
          else resetSteps taskPath w2
      end
  end.
Proof.
  cbv zeta. unfold softResetLastCommit, verifyParent.
  unfold bind at 1. unfold try_catch, bind at 1. unfold execFileAsync at 1.
  destruct (exec_oracle (oracles w) (now w) _) as [e|out]; [done|].
  cbn [ret run fold_left]. unfold bind at 1.
  destruct (getLog taskPath (Some 1) None None _) as [[[log a]|e] w2]; [|done].
  cbn [fst]. unfold latestPushed. by destruct (match head log with Some _ => _ | None => _ end).
Qed.

Lemma resetSteps_issued taskPath w :
  exists l, after (resetSteps taskPath) w = run (subjectCmd taskPath :: l) w.
Proof.
  unfold after, resetSteps, bind, execFileAsync, subjectCmd.
  destruct (exec_oracle (oracles w) (now w) _) as [e|subject]; cbn.
  { by exists []. }
  destruct (exec_oracle (oracles w) (S (now w)) _) as [e|body]; cbn.
  { by exists [bodyCmd taskPath]. }
  destruct (exec_oracle (oracles w) (S (S (now w))) _) as [e|out]; cbn;
    by exists [bodyCmd taskPath; softReset taskPath].
Qed.

Lemma resetSteps_no_guard taskPath w m :
  result (resetSteps taskPath) w <> Throw (JsError m).
Proof.
  unfold result, resetSteps, bind, execFileAsync.
  destruct (exec_oracle (oracles w) (now w) _) as [e|subject]; cbn; [done|].
  destruct (exec_oracle (oracles w) (S (now w)) _) as [e|body]; cbn; [done|].
  by destruct (exec_oracle (oracles w) (S (S (now w))) _) as [e|out].
Qed.

Lemma getLog_no_guard taskPath maxCount skip known w m :
  result (getLog taskPath maxCount skip known) w <> Throw (JsError m).
Proof.
  destruct (aheadCountFor_total taskPath known w) as [a Ha].
  unfold result at 1. rewrite (getLog_run _ _ _ _ _ _ Ha). cbn [fst].
  by destruct (exec_oracle _ _ _).
Qed.

(** The outcome of [softResetLastCommit] and the commands it has run,
    case by case; [l] are the commands of [getLog]. *)
Lemma softResetLastCommit_cases taskPath w :
  let w1 := run [verifyParent taskPath] w in
  let latest := getLog taskPath (Some 1) None None in
  exists l, Forall readOnly l /\ issued latest w1 = l /\
  match exec_oracle (oracles w) (now w) (verifyParent taskPath) with
  | inl _ =>
      softResetLastCommit taskPath w
      = (Throw (JsError "Cannot undo the initial commit"), run [verifyParent taskPath] w)
  | inr _ =>
      match result latest w1 with
      | Throw e =>
          (forall m, e <> JsError m)
          /\ softResetLastCommit taskPath w = (Throw e, run (verifyParent taskPath :: l) w)
      | Ok (log, _) =>
          if latestPushed log
          then softResetLastCommit taskPath w
               = (Throw (JsError "Cannot undo a commit that has already been pushed"),
                  run (verifyParent taskPath :: l) w)
          else exists r t,
                 softResetLastCommit taskPath w
                 = (r, run (verifyParent taskPath :: l ++ subjectCmd taskPath :: t) w)
                 /\ forall m, r <> Throw (JsError m)
      end
  end.
Proof.
  cbv zeta. pose proof (softResetLastCommit_run taskPath w) as Hrun. cbv zeta in Hrun.
  set (w1 := run [verifyParent taskPath] w) in *.
  set (latest := getLog taskPath (Some 1) None None) in *.
  destruct (getLog_readOnly taskPath (Some 1) None None w1) as (l & Hl & Hro).
  fold latest in Hl.
  pose proof (getLog_no_guard taskPath (Some 1) None None w1) as Hng. fold latest in Hng.
  exists l. split; [done|]. split; [by apply issued_run|].
  destruct (exec_oracle (oracles w) (now w) (verifyParent taskPath)) as [e|out]; [done|].
  unfold after, result in *. destruct (latest w1) as [r w2]. cbn [fst snd] in *. subst w2.
  assert (run l w1 = run (verifyParent taskPath :: l) w) as Hw by done.
  destruct r as [[log a]|e].
  - destruct (latestPushed log).
    + by rewrite <- Hw.
    + destruct (resetSteps_issued taskPath (run l w1)) as (t & Ht).
      pose proof (resetSteps_no_guard taskPath (run l w1)) as Hn.
      unfold after, result in Ht, Hn.
      destruct (resetSteps taskPath (run l w1)) as [r w3]. cbn [fst snd] in *. subst w3.
      exists r, t. split; [|done]. rewrite Hrun. f_equal.
      rewrite app_comm_cons, run_app. done.
  - split; [intros m ->; by apply (Hng m)|]. by rewrite <- Hw.
Qed.

(** C2. [softResetLastCommit] throws the guard error of the initial
    commit when [HEAD~1] cannot be verified, and the guard error of the
    pushed commit when the latest commit of the log has [isPushed]. A
    guard error is thrown before [git reset] is run: up to then only
    queries of the repository have run, which change nothing. Conversely
    [git reset --soft HEAD~1] runs only if [HEAD~1] was verified and the
    log was read and its latest commit, if any, is not pushed. *)
Theorem softReset_guards (taskPath : string) (w : World) :
  let verified := exec_oracle (oracles w) (now w) (verifyParent taskPath) in
  let w1 := run [verifyParent taskPath] w in
  let latest := getLog taskPath (Some 1) None None in
  let cmds := issued (softResetLastCommit taskPath) w in
  let res := result (softResetLastCommit taskPath) w in
  (forall e, verified = inl e ->
     res = Throw (JsError "Cannot undo the initial commit")
     /\ cmds = [verifyParent taskPath])
  /\ (forall out c rest a, verified = inr out ->
        result latest w1 = Ok (c :: rest, a) -> isPushed c = true ->
        res = Throw (JsError "Cannot undo a commit that has already been pushed")
        /\ cmds = verifyParent taskPath :: issued latest w1)
  /\ (forall m, res = Throw (JsError m) ->
        Forall readOnly cmds /\ softReset taskPath ∉ cmds)
  /\ (softReset taskPath ∈ cmds ->
        (exists out, verified = inr out)
        /\ exists log a, result latest w1 = Ok (log, a) /\ latestPushed log = false)
  /\ ~ readOnly (softReset taskPath).
Proof.
  cbv zeta.
  destruct (softResetLastCommit_cases taskPath w) as (l & Hro & Hil & H). cbv zeta in H.
  assert (readOnly (verifyParent taskPath)) as Hv.
  { apply readOnly_intro. apply list_elem_of_In. cbn. auto. }
  assert (Forall readOnly (verifyParent taskPath :: l)) as Hvl by by constructor.
  rewrite Hil. clear Hil.
  assert (forall r, softResetLastCommit taskPath w = (r, run (verifyParent taskPath :: l) w) ->
            result (softResetLastCommit taskPath) w = r
            /\ issued (softResetLastCommit taskPath) w = verifyParent taskPath :: l
            /\ Forall readOnly (issued (softResetLastCommit taskPath) w)
            /\ softReset taskPath ∉ issued (softResetLastCommit taskPath) w) as Hguard.
  { intros r Hr. apply outcome in Hr as [Hr Hi]. rewrite Hi.
    repeat split; try done. by apply not_in_readOnly. }
  destruct (exec_oracle (oracles w) (now w) (verifyParent taskPath)) as [e|out].
  { apply outcome in H as [Hr Hi]. rewrite Hr, Hi.
    assert (Forall readOnly [verifyParent taskPath]) as Hv1
      by (constructor; [exact Hv|constructor]).
    split; [by intros|]. split; [by intros|]. split; [|split].
    - intros m _. split; [done|]. by apply not_in_readOnly.
    - intros Hin. exfalso. revert Hin. by apply not_in_readOnly.
    - apply softReset_not_readOnly. }
  split; [by intros|].
  destruct (result (getLog taskPath (Some 1) None None) (run [verifyParent taskPath] w))
    as [[log a]|e].
  - destruct (latestPushed log) eqn:Hp.
    + apply Hguard in H as (Hr & Hi & Hq & Hn). rewrite Hr.
      split; [by intros|]. split; [by intros|]. split; [|apply softReset_not_readOnly].
      intros Hin. by destruct Hn.
    + destruct H as (r & t & H & Hnog). apply outcome in H as [Hr Hi]. rewrite Hr.
      split; [intros out' c rest a' _ [= -> ->]; cbn in Hp; congruence|].
      split; [intros m ->; by destruct (Hnog m)|].
      split; [|apply softReset_not_readOnly].
      intros _. split; [by eexists|]. by exists log, a.
  - destruct H as [Hne H]. apply Hguard in H as (Hr & Hi & Hq & Hn). rewrite Hr.
    split; [by intros|]. split; [intros m [= ->]; by destruct (Hne m)|].
    split; [|apply softReset_not_readOnly].
    intros Hin. by destruct Hn.
Qed.

(** On the very first commit the guard throws after the one query. *)
Lemma softReset_guards_witness :
  exec_oracle (oracles initialCommit) (now initialCommit) (verifyParent "/repo")
    = Example.failure "fatal: not scripted"
  /\ result (softResetLastCommit "/repo") initialCommit
     = Throw (JsError "Cannot undo the initial commit")
  /\ issued (softResetLastCommit "/repo") initialCommit = [verifyParent "/repo"].
Proof.
  split; [reflexivity|].
  apply (proj1 (softReset_guards "/repo" initialCommit)
           (mkExecError (Some "fatal: not scripted") "Command failed: fatal: not scripted")).
  reflexivity.
Defined.

(** Without a remote every commit counts as pushed, and the undo is
    refused after six queries, the last of them the reading of the log. *)
Example softReset_pushed :
  result (softResetLastCommit "/repo") noRemote
  = Throw (JsError "Cannot undo a commit that has already been pushed")
  /\ length (issued (softResetLastCommit "/repo") noRemote) = 6%nat
  /\ last (issued (softResetLastCommit "/repo") noRemote)
     = Some (logCmd "/repo" (Some 1) None).
Proof. by vm_compute. Qed.

(** An unpushed commit with a parent is reset. *)
Example softReset_runs :
  result (softResetLastCommit "/repo") twoAhead = Ok ("third", "")
  /\ last (issued (softResetLastCommit "/repo") twoAhead) = Some (softReset "/repo").
Proof. by vm_compute. Qed.

End ResetFacts.

Module AheadFacts.
Import Trace TraceFacts GitService LogCommands LogFacts.

(** C4. [getLog] settles on an ahead count first: the caller's
    [knownAheadCount] when it is supplied and not negative, with no
    command run; the freshly computed one otherwise. There always is
    one. When [git log] then succeeds, [getLog] returns that count and
    commits of which the one at index [i] has [isPushed] exactly when
    [skip + i] is greater than or equal to the count; when [git log]
    fails, its error is thrown. *)
Theorem getLog_pushed_from_ahead_count
    (taskPath : string) (maxCount skip knownAheadCount : option Z) (w : World) :
  let counting := aheadCountFor taskPath knownAheadCount in
  let w1 := after counting w in
  let logged := exec_oracle (oracles w1) (now w1) (logCmd taskPath maxCount skip) in
  let res := result (getLog taskPath maxCount skip knownAheadCount) w in
  (forall k, knownAheadCount = Some k -> 0 <= k -> counting w = (Ok k, w))
  /\ (forall k, knownAheadCount = Some k -> k < 0 -> counting = computeAheadCount taskPath)
  /\ (knownAheadCount = None -> counting = computeAheadCount taskPath)
  /\ exists aheadCount, result counting w = Ok aheadCount
     /\ (forall e, logged = inl e -> res = Throw (ExecFailure e))
     /\ (forall stdout, logged = inr stdout ->
           exists commits, res = Ok (commits, aheadCount)
           /\ forall i c, commits !! i = Some c ->
                (isPushed c = true <-> aheadCount <= default 0 skip + Z.of_nat i)).
Proof.
  cbv zeta. split; [|split; [|split]].
  - intros k -> Hk. unfold aheadCountFor. cbn.
    destruct (Z.ltb_spec k 0); [lia|done].
  - intros k -> Hk. unfold aheadCountFor. cbn.
    destruct (Z.ltb_spec k 0); [done|lia].
  - by intros ->.
  - destruct (aheadCountFor_total taskPath knownAheadCount w) as [a Ha].
    exists a. split; [done|].
    pose proof (getLog_run taskPath maxCount skip knownAheadCount w a Ha) as Hrun.
    cbv zeta in Hrun.
    assert (result (getLog taskPath maxCount skip knownAheadCount) w
            = match exec_oracle (oracles (after (aheadCountFor taskPath knownAheadCount) w))
                      (now (after (aheadCountFor taskPath knownAheadCount) w))
                      (logCmd taskPath maxCount skip) with
              | inr stdout => Ok (commitsOf skip a stdout, a)
              | inl e => Throw (ExecFailure e)
              end) as -> by (unfold result; by rewrite Hrun).
    split.
    + by intros e ->.
    + intros stdout ->. eexists. split; [done|].
      intros i c Hc. rewrite (commitsOf_isPushed _ _ _ _ _ Hc).
      rewrite Z.geb_le. done.
Qed.

(** Two commits ahead: of the three commits of the first page the two
    newest are not pushed, the third is. *)
Lemma getLog_pushed_from_ahead_count_witness :
  exists commits,
    result (getLog "/repo" None None None) twoAhead = Ok (commits, 2)
    /\ isPushed <$> commits = [false; false; true]
    /\ forall i c, commits !! i = Some c -> (isPushed c = true <-> 2 <= 0 + Z.of_nat i).
Proof.
  destruct (getLog_pushed_from_ahead_count "/repo" None None None twoAhead)
    as (_ & _ & _ & a & Ha & _ & Hok).
  destruct (Hok _ eq_refl) as (commits & Hres & Hp).
  assert (a = 2) as -> by (vm_compute in Ha; congruence).
  exists commits. split; [exact Hres|]. split; [|exact Hp].
  vm_compute in Hres. injection Hres as <-. reflexivity.
Defined.

(** A count the caller passes in is used as it is, and nothing is asked
    of the remote. *)
Example getLog_known_ahead_count :
  result (getLog "/repo" None None (Some 1)) twoAhead
    = result (getLog "/repo" None None None)
        (Example.local
           [(["rev-list"; "--count"; "@{upstream}..HEAD"], inr "1");
            (args (logCmd "/repo" None None),
             inr (record "c3" "third" +:+ NL +:+ record "c2" "second" +:+ NL
                    +:+ record "c1" "first"))] [])
  /\ issued (getLog "/repo" None None (Some 1)) twoAhead = [logCmd "/repo" None None].
Proof. by vm_compute. Qed.

End AheadFacts.

Module FallbackFacts.
Import Trace TraceFacts GitService GitIpc LogCommands LogFacts.

Lemma computeAheadCount_all_fail taskPath w :
  let w1 := after (aheadOfUpstream taskPath) w in
  let w2 := after (aheadOfOriginBranch taskPath) w1 in
  let w3 := after (aheadOfOriginHead taskPath) w2 in
  fails (aheadOfUpstream taskPath) w ->
  fails (aheadOfOriginBranch taskPath) w1 ->
  fails (aheadOfOriginHead taskPath) w2 ->
  computeAheadCount taskPath w = (Ok 0, w3).
Proof.
  cbv zeta. intros (e1 & H1)%fails_eq (e2 & H2)%fails_eq (e3 & H3)%fails_eq.
  unfold computeAheadCount, try_catch. by rewrite H1, H2, H3.
Qed.

Lemma aheadBehind_all_fail GIT taskPath branch w :
  let w1 := after (againstUpstream GIT taskPath) w in
  let w2 := after (againstOriginBranch GIT taskPath branch) w1 in
  let w3 := after (fromStatusLine GIT taskPath) w2 in
  fails (againstUpstream GIT taskPath) w ->
  fails (againstOriginBranch GIT taskPath branch) w1 ->
  fails (fromStatusLine GIT taskPath) w2 ->
  aheadBehind GIT taskPath branch w = (Ok (0, 0), w3).
Proof.
  cbv zeta. intros (e1 & H1)%fails_eq (e2 & H2)%fails_eq (e3 & H3)%fails_eq.
  unfold aheadBehind, try_catch. by rewrite H1, H2, H3.
Qed.

Lemma commitsOf_all_pushed skip stdout :
  0 <= default 0 skip ->
  Forall (fun c => isPushed c = true) (commitsOf skip 0 stdout).
Proof.
  intros Hs. apply Forall_lookup. intros i c Hc.
  rewrite (commitsOf_isPushed _ _ _ _ _ Hc). apply Z.geb_le. lia.
Qed.

Lemma determineDefaultBranch_total GIT taskPath w :
  exists d, determineDefaultBranch GIT taskPath w
            = (Ok d, after (determineDefaultBranch GIT taskPath) w).
Proof.
  unfold after, determineDefaultBranch, try_catch, bind, execFileAsync.
  destruct (exec_oracle (oracles w) (now w) _); cbn; [|by eexists].
  destruct (exec_oracle _ _ _); cbn; by eexists.
Qed.

Lemma countAheadOfDefault_total GIT taskPath branch d w :
  exists n, countAheadOfDefault GIT taskPath branch d w
            = (Ok n, after (countAheadOfDefault GIT taskPath branch d) w).
Proof.
  unfold after, countAheadOfDefault. destruct (negb _); [|by eexists].
  unfold try_catch, bind, execFileAsync.
  destruct (exec_oracle (oracles w) (now w) _); cbn; by eexists.
Qed.

(** C5. When the three attempts of [getLog] to compare with the remote
    all fail, the ahead count is [0], without an error: [getLog] then
    returns whenever [git log] succeeds, with the count [0] and every
    commit marked as pushed. When the three attempts of the branch
    status handler all fail (its last resort is the first line of
    [git status -sb]), ahead and behind are both [0], and the handler
    answers with success and these two zeros; they are [0] as well when
    the first two attempts fail and the status line names no count. *)
Theorem ahead_behind_default_to_zero :
  (forall taskPath maxCount skip known w,
     let w1 := after (aheadOfUpstream taskPath) w in
     let w2 := after (aheadOfOriginBranch taskPath) w1 in
     let w3 := after (aheadOfOriginHead taskPath) w2 in
     fails (aheadOfUpstream taskPath) w ->
     fails (aheadOfOriginBranch taskPath) w1 ->
     fails (aheadOfOriginHead taskPath) w2 ->
     result (computeAheadCount taskPath) w = Ok 0
     /\ (default (-1) known < 0 -> 0 <= default 0 skip ->
         result (getLog taskPath maxCount skip known) w
         = match exec_oracle (oracles w3) (now w3) (logCmd taskPath maxCount skip) with
           | inr stdout => Ok (commitsOf skip 0 stdout, 0)
           | inl e => Throw (ExecFailure e)
           end
         /\ forall stdout, Forall (fun c => isPushed c = true) (commitsOf skip 0 stdout)))
  /\ (forall GIT taskPath current w,
        let asked := log_cmd (mkCmd GIT ["branch"; "--show-current"] taskPath) w in
        let w0 := after (determineDefaultBranch GIT taskPath) asked in
        let w1 := after (againstUpstream GIT taskPath) w0 in
        let w2 := after (againstOriginBranch GIT taskPath (Js.trim current)) w1 in
        exec_oracle (oracles w) (now w) (mkCmd GIT ["branch"; "--show-current"] taskPath)
          = inr current ->
        fails (againstUpstream GIT taskPath) w0 ->
        fails (againstOriginBranch GIT taskPath (Js.trim current)) w1 ->
        fails (fromStatusLine GIT taskPath) w2 ->
        result (aheadBehind GIT taskPath (Js.trim current)) w0 = Ok (0, 0)
        /\ exists s, result (localBranchStatus GIT taskPath) w = Ok (BranchStatusOk s)
                     /\ ahead s = 0 /\ behind s = 0)
  /\ (forall GIT taskPath branch w stdout,
        let w1 := after (againstUpstream GIT taskPath) w in
        let w2 := after (againstOriginBranch GIT taskPath branch) w1 in
        let line := default "" (head (Js.split stdout NL)) in
        fails (againstUpstream GIT taskPath) w ->
        fails (againstOriginBranch GIT taskPath branch) w1 ->
        exec_oracle (oracles w2) (now w2) (mkCmd GIT ["status"; "-sb"] taskPath)
          = inr stdout ->
        countAfterKeyword "ahead" line = None ->
        countAfterKeyword "behind" line = None ->
        result (aheadBehind GIT taskPath branch) w = Ok (0, 0)).
Proof.
  split; [|split].
  3:{ intros GIT taskPath branch w stdout. cbv zeta.
      intros (e1 & H1)%fails_eq (e2 & H2)%fails_eq Hs Ha Hb.
      unfold result, aheadBehind.
      erewrite try_catch_throw by exact H1. erewrite try_catch_throw by exact H2.
      erewrite try_catch_ok; [reflexivity|].
      unfold fromStatusLine. erewrite bind_ok by (apply execFileAsync_ok; exact Hs).
      cbv zeta. by rewrite Ha, Hb. }
  - intros taskPath maxCount skip known w. cbv zeta. intros F1 F2 F3.
    pose proof (computeAheadCount_all_fail taskPath w F1 F2 F3) as Hc. cbv zeta in Hc.
    split; [unfold result; by rewrite Hc|].
    intros Hk Hs. split; [|intros stdout; by apply commitsOf_all_pushed].
    assert (aheadCountFor taskPath known = computeAheadCount taskPath) as Hfor.
    { unfold aheadCountFor. destruct (Z.ltb_spec (default (-1) known) 0); [done|lia]. }
    assert (result (aheadCountFor taskPath known) w = Ok 0) as Ha
      by (rewrite Hfor; unfold result; by rewrite Hc).
    pose proof (getLog_run taskPath maxCount skip known w 0 Ha) as Hrun.
    cbv zeta in Hrun. rewrite Hfor in Hrun. unfold after in Hrun at 1 2.
    rewrite Hc in Hrun. cbn [snd] in Hrun.
    unfold result. by rewrite Hrun.
  - intros GIT taskPath current w. cbv zeta. intros Hb F1 F2 F3.
    pose proof (aheadBehind_all_fail GIT taskPath (Js.trim current) _ F1 F2 F3) as Hab.
    cbv zeta in Hab.
    split; [unfold result; by rewrite Hab|].
    destruct (determineDefaultBranch_total GIT taskPath
                (log_cmd (mkCmd GIT ["branch"; "--show-current"] taskPath) w))
      as [d Hd].
    match type of Hab with
    | _ = (_, ?w3) =>
        destruct (countAheadOfDefault_total GIT taskPath (Js.trim current) d w3) as [n Hn]
    end.
    exists (mkBranchStatus (Js.trim current) d 0 0 n). split; [|done].
    unfold result, localBranchStatus.
    erewrite try_catch_ok; [reflexivity|].
    erewrite bind_ok by (by apply execFileAsync_ok).
    erewrite bind_ok by exact Hd.
    erewrite bind_ok by exact Hab.
    erewrite bind_ok by exact Hn.
    reflexivity.
Qed.

(** In a repository without remote the three attempts fail and the
    ahead count is [0]. *)
Lemma ahead_behind_default_to_zero_witness :
  fails (aheadOfUpstream "/repo") noRemote
  /\ fails (aheadOfOriginBranch "/repo") (after (aheadOfUpstream "/repo") noRemote)
  /\ fails (aheadOfOriginHead "/repo")
       (after (aheadOfOriginBranch "/repo") (after (aheadOfUpstream "/repo") noRemote))
  /\ result (computeAheadCount "/repo") noRemote = Ok 0.
Proof.
  assert (fails (aheadOfUpstream "/repo") noRemote) as F1
    by (eexists; vm_compute; reflexivity).
  assert (fails (aheadOfOriginBranch "/repo") (after (aheadOfUpstream "/repo") noRemote))
    as F2 by (eexists; vm_compute; reflexivity).
  assert (fails (aheadOfOriginHead "/repo")
            (after (aheadOfOriginBranch "/repo") (after (aheadOfUpstream "/repo") noRemote)))
    as F3 by (eexists; vm_compute; reflexivity).
  split; [exact F1|]. split; [exact F2|]. split; [exact F3|].
  exact (proj1 (proj1 ahead_behind_default_to_zero "/repo" None None None noRemote
                  F1 F2 F3)).
Defined.

(** There the handler answers with success, nothing ahead, nothing
    behind, and the log shows both commits as pushed. *)
Example branch_status_without_remote :
  result (getBranchStatus "git" (Some "/repo")) noRemote
  = Ok (BranchStatusOk (mkBranchStatus "main" "main" 0 0 0))
  /\ match result (getLog "/repo" None None None) noRemote with
     | Ok (commits, aheadCount) => map isPushed commits = [true; true] /\ aheadCount = 0
     | Throw _ => False
     end.
Proof. by vm_compute. Qed.

End FallbackFacts.

Module RenameFacts.
Import Trace TraceFacts GitIpc RenameCommands.







(** A branch that tracks [origin] is renamed there as well, after the
    local rename. *)
Example rename_of_tracking_branch :
  issued (renameBranch "git" "/repo" "draft" "feature") tracking
  = [configQuery "git" "/repo" "draft"; renameCmd "git" "/repo" "draft" "feature";
     deleteRemote "git" "/repo" "origin" "draft"; pushNew "git" "/repo" "origin" "feature"]
  /\ result (renameBranch "git" "/repo" "draft" "feature") tracking = Ok (Renamed true).
Proof. by vm_compute. Qed.

End RenameFacts.

Module PollFacts.
Import Trace TraceFacts GitIpc PollExamples.

Lemma statusHash_same (l1 l2 : list GitChange) :
  Forall2 sameStatus l1 l2 -> statusHash l1 = statusHash l2.
Proof.
  intros H. unfold statusHash. f_equal.
  induction H as [|a b l1 l2 (Hp & Hs & Hg) _ IH]; cbn; [done|].
  by rewrite Hp, Hs, Hg, IH.
Qed.

(** One poll that sees the listing [changes]: the poller of the path, if
    there is one, ends with the fingerprint of [changes], and a
    notification is sent exactly if that differs from the one it had. *)
Lemma pollRemoteStatus_run taskPath connectionId w changes :
  remoteStatus_oracle (oracles w) (now w) connectionId taskPath = inr changes ->
  pollRemoteStatus taskPath connectionId w =
  (Ok tt,
   match remoteStatusPollers w !! taskPath with
   | None => tick w
   | Some poller =>
       if String.eqb (statusHash changes) (lastStatusHash poller) then tick w
       else
         set_broadcasts (broadcasts w ++ [(taskPath, None)])
           (set_remoteStatusPollers
              (<[taskPath := mkPollEntry (intervalId poller) (poll_watchIds poller)
                               (statusHash changes) (Sys.connectionId poller)]>
                 (remoteStatusPollers w)) (tick w))
   end).
Proof.
  intros H. unfold pollRemoteStatus, try_catch, bind, ask_or_throw, get. rewrite H.
  cbn [remoteStatusPollers tick].
  destruct (remoteStatusPollers w !! taskPath) as [poller|]; [|done].
  destruct (String.eqb (statusHash changes) (lastStatusHash poller)); reflexivity.
Qed.

(** C10. The fingerprint of a status listing depends on the path, the
    status and the staged flag of its entries only: listings that agree
    entry by entry on these three have the same fingerprint, whatever
    their counts of added and deleted lines. So the second of two
    consecutive polls that see such listings broadcasts nothing and
    leaves the pollers as they are. *)
Theorem unchanged_status_is_not_broadcast
    (taskPath connectionId : string) (w : World) (first second : list GitChange) :
  let poll := pollRemoteStatus taskPath connectionId in
  let w1 := after poll w in
  let w2 := after poll w1 in
  remoteStatus_oracle (oracles w) (now w) connectionId taskPath = inr first ->
  remoteStatus_oracle (oracles w) (S (now w)) connectionId taskPath = inr second ->
  Forall2 sameStatus first second ->
  statusHash first = statusHash second
  /\ broadcasts w2 = broadcasts w1
  /\ remoteStatusPollers w2 = remoteStatusPollers w1.
Proof.
  cbv zeta. intros H1 H2 Hsame.
  pose proof (statusHash_same _ _ Hsame) as Hh. split; [exact Hh|].
  assert (after (pollRemoteStatus taskPath connectionId) w
          = snd (pollRemoteStatus taskPath connectionId w)) as Hw1 by done.
  rewrite (pollRemoteStatus_run _ _ _ _ H1) in Hw1. cbn [snd] in Hw1.
  rewrite !Hw1. clear Hw1.
  set (w1 := match remoteStatusPollers w !! taskPath with None => _ | Some _ => _ end).
  assert (oracles w1 = oracles w /\ now w1 = S (now w)) as [Ho Hn].
  { subst w1. destruct (remoteStatusPollers w !! taskPath) as [p|]; [|done].
    by destruct (String.eqb _ _). }
  assert (match remoteStatusPollers w1 !! taskPath with
          | Some p => lastStatusHash p = statusHash first
          | None => True
          end) as Hlast.
  { subst w1. destruct (remoteStatusPollers w !! taskPath) as [p|] eqn:Ep.
    - destruct (String.eqb_spec (statusHash first) (lastStatusHash p)) as [Heq|Hne].
      + cbn [remoteStatusPollers tick]. by rewrite Ep.
      + cbn [remoteStatusPollers set_broadcasts set_remoteStatusPollers].
        by rewrite lookup_insert_eq.
    - cbn [remoteStatusPollers tick]. by rewrite Ep. }
  unfold after. rewrite (pollRemoteStatus_run taskPath connectionId w1 second).
  2:{ by rewrite Ho, Hn. }
  cbn [snd]. destruct (remoteStatusPollers w1 !! taskPath) as [p|]; [|done].
  rewrite Hlast, Hh, String.eqb_refl. done.
Qed.

(** Between the two polls of [polled] only the count of added lines of
    [src/a.ts] changes; the second poll is silent. *)
Lemma unchanged_status_is_not_broadcast_witness :
  remoteStatus_oracle (oracles polled) 0 "ssh-1" "/srv/repo" = inr (listing 0)
  /\ remoteStatus_oracle (oracles polled) 1 "ssh-1" "/srv/repo" = inr (listing 1)
  /\ Forall2 sameStatus (listing 0) (listing 1)
  /\ statusHash (listing 0) = statusHash (listing 1)
  /\ broadcasts (after (pollRemoteStatus "/srv/repo" "ssh-1")
                   (after (pollRemoteStatus "/srv/repo" "ssh-1") polled))
     = broadcasts (after (pollRemoteStatus "/srv/repo" "ssh-1") polled).
Proof.
  assert (Forall2 sameStatus (listing 0) (listing 1)) as Hsame
    by (repeat constructor).
  split; [reflexivity|]. split; [reflexivity|]. split; [exact Hsame|].
  destruct (unchanged_status_is_not_broadcast "/srv/repo" "ssh-1" polled
              (listing 0) (listing 1) eq_refl eq_refl Hsame) as (Hh & Hb & _).
  split; [exact Hh|exact Hb].
Defined.

(** The first poll of [polled] does broadcast: the listing is new. *)
Example first_poll_broadcasts :
  broadcasts (after (pollRemoteStatus "/srv/repo" "ssh-1") polled) = [("/srv/repo", None)].
Proof. by vm_compute. Qed.

End PollFacts.

Module WatchFacts.
Import Trace TraceFacts GitIpc Watching.

Lemma forget_own (i : string) (ids : gset string) :
  Js.truthy i = true -> forget (Some i) ids = ids ∖ {[i]}.
Proof. unfold forget. by intros ->. Qed.

Lemma size_zero_empty (ids : gset string) : (size ids <=? 0)%nat = true <-> ids = ∅.
Proof.
  rewrite Nat.leb_le. split.
  - intros H. apply leibniz_equiv, size_empty_iff. lia.
  - intros ->. by rewrite size_empty.
Qed.

Section Sets.
Context {K : Type} `{Countable K}.

Lemma drop_one_of_two (a b : K) :
  a <> b -> ({[b]} ∪ {[a]}) ∖ {[a]} = ({[b]} : gset K).
Proof.
  intros Hne. apply set_eq. intros x.
  rewrite elem_of_difference, elem_of_union, !elem_of_singleton.
  split; [intros [[->| ->] Hx]; done|intros ->; split; [by left|congruence]].
Qed.

Lemma singleton_not_empty (b : K) : ({[b]} : gset K) <> ∅.
Proof.
  intros Hb. apply (not_elem_of_empty (C := gset K) b).
  rewrite <- Hb. by apply elem_of_singleton.
Qed.

Lemma drop_last (b : K) : ({[b]} : gset K) ∖ {[b]} = ∅.
Proof. apply difference_diag_L. Qed.

Lemma in_added (h : K) (X : gset K) : h ∈ {[h]} ∪ X.
Proof. apply elem_of_union_l. by apply elem_of_singleton. Qed.

Lemma not_in_removed (h : K) (X : gset K) : h ∉ X ∖ {[h]}.
Proof. rewrite elem_of_difference, elem_of_singleton. by intros [_ Hh]. Qed.

End Sets.

(** ** The remote poller *)

(** A watch of a path that is polled already: the entry gets the new
    [watchId], and no interval is made. *)
Lemma ensureRemoteStatusPoller_shared taskPath connectionId w e :
  pollerOf w taskPath = Some e ->
  let w' := after (ensureRemoteStatusPoller taskPath connectionId) w in
  result (ensureRemoteStatusPoller taskPath connectionId) w = Ok (Watching (nextUUID w))
  /\ pollerOf w' taskPath
     = Some (mkPollEntry (intervalId e) ({[nextUUID w]} ∪ poll_watchIds e)
               (lastStatusHash e) (Sys.connectionId e))
  /\ liveIntervals w' = liveIntervals w
  /\ nextHandle w' = nextHandle w.
Proof.
  unfold pollerOf, nextUUID. intros He. cbv zeta.
  unfold result, after, ensureRemoteStatusPoller, randomUUID, ask, bind, get.
  cbn [remoteStatusPollers tick]. rewrite He. cbn.
  by rewrite lookup_insert_eq.
Qed.

(** The first watch of a path makes the interval and the entry. *)
Lemma ensureRemoteStatusPoller_first taskPath connectionId w :
  pollerOf w taskPath = None ->
  let w' := after (ensureRemoteStatusPoller taskPath connectionId) w in
  result (ensureRemoteStatusPoller taskPath connectionId) w = Ok (Watching (nextUUID w))
  /\ pollerOf w' taskPath
     = Some (mkPollEntry (nextHandle w) {[nextUUID w]} "" connectionId)
  /\ liveIntervals w' = {[nextHandle w]} ∪ liveIntervals w
  /\ oracles w' = oracles w /\ now w' = S (now w).
Proof.
  unfold pollerOf, nextUUID. intros He. cbv zeta.
  unfold result, after, ensureRemoteStatusPoller, randomUUID, ask, bind, get.
  cbn [remoteStatusPollers tick]. rewrite He. cbn.
  by rewrite lookup_insert_eq.
Qed.

Lemma releaseRemoteStatusPoller_run taskPath watchId w e :
  pollerOf w taskPath = Some e ->
  let ids := forget watchId (poll_watchIds e) in
  releaseRemoteStatusPoller taskPath watchId w =
  (Ok tt,
   if (size ids <=? 0)%nat then
     set_remoteStatusPollers (delete taskPath (remoteStatusPollers w))
       (set_liveIntervals (liveIntervals w ∖ {[intervalId e]}) w)
   else
     set_remoteStatusPollers
       (<[taskPath := mkPollEntry (intervalId e) ids (lastStatusHash e)
                        (Sys.connectionId e)]> (remoteStatusPollers w)) w).
Proof.
  unfold pollerOf. intros He. cbv zeta.
  unfold releaseRemoteStatusPoller, bind, get. rewrite He.
  unfold modify, clearInterval, modify, ret.
  destruct (size (forget watchId (poll_watchIds e)) <=? 0)%nat; [|done].
  cbn. by rewrite delete_insert_eq.
Qed.

(** A release takes the [watchId] out; the interval and the entry go
    when no [watchId] is left, and stay otherwise. *)
Lemma releaseRemoteStatusPoller_counts taskPath watchId w e :
  pollerOf w taskPath = Some e ->
  let ids := forget watchId (poll_watchIds e) in
  let w' := after (releaseRemoteStatusPoller taskPath watchId) w in
  (ids <> ∅ ->
     pollerOf w' taskPath
     = Some (mkPollEntry (intervalId e) ids (lastStatusHash e) (Sys.connectionId e))
     /\ liveIntervals w' = liveIntervals w)
  /\ (ids = ∅ ->
        pollerOf w' taskPath = None
        /\ liveIntervals w' = liveIntervals w ∖ {[intervalId e]})
  /\ oracles w' = oracles w /\ now w' = now w.
Proof.
  intros He. cbv zeta. unfold after.
  rewrite (releaseRemoteStatusPoller_run _ _ _ _ He). cbn [snd]. unfold pollerOf.
  destruct (size (forget watchId (poll_watchIds e)) <=? 0)%nat eqn:Hs.
  - apply size_zero_empty in Hs. cbn. rewrite lookup_delete_eq. by rewrite Hs.
  - cbn. rewrite lookup_insert_eq. split; [done|]. split; [|done].
    intros Hempty. apply size_zero_empty in Hempty. congruence.
Qed.

(** ** The local watcher *)

Lemma ensureGitStatusWatcher_shared taskPath w e :
  supportsRecursiveWatch (oracles w) = true ->
  Js.truthy taskPath = true ->
  existsSync_oracle (oracles w) (now w) taskPath = true ->
  watcherOf w taskPath = Some e ->
  let id := uuid_oracle (oracles w) (S (now w)) in
  let w' := after (ensureGitStatusWatcher taskPath) w in
  result (ensureGitStatusWatcher taskPath) w = Ok (Watching id)
  /\ watcherOf w' taskPath
     = Some (mkWatchEntry (watcher e) ({[id]} ∪ watchIds e) (debounceTimer e))
  /\ openWatchers w' = openWatchers w
  /\ nextHandle w' = nextHandle w.
Proof.
  unfold watcherOf. intros Hsup Hpath Hex He. cbv zeta.
  unfold result, after, ensureGitStatusWatcher, platform_of, existsSync, randomUUID,
    ask, bind, get.
  rewrite Hsup, Hpath. cbn beta iota delta [negb]. rewrite Hex.
  cbn [negb gitStatusWatchers tick]. rewrite He. cbn.
  by rewrite lookup_insert_eq.
Qed.

Lemma ensureGitStatusWatcher_first taskPath w :
  supportsRecursiveWatch (oracles w) = true ->
  Js.truthy taskPath = true ->
  existsSync_oracle (oracles w) (now w) taskPath = true ->
  watch_oracle (oracles w) (S (S (now w))) taskPath = None ->
  watcherOf w taskPath = None ->
  let id := uuid_oracle (oracles w) (S (now w)) in
  let w' := after (ensureGitStatusWatcher taskPath) w in
  result (ensureGitStatusWatcher taskPath) w = Ok (Watching id)
  /\ watcherOf w' taskPath = Some (mkWatchEntry (nextHandle w) {[id]} None)
  /\ openWatchers w' = {[nextHandle w]} ∪ openWatchers w
  /\ oracles w' = oracles w /\ now w' = S (S (S (now w))).
Proof.
  unfold watcherOf. intros Hsup Hpath Hex Hw He. cbv zeta.
  unfold result, after, ensureGitStatusWatcher, platform_of, existsSync, randomUUID,
    ask, bind, get.
  rewrite Hsup, Hpath. cbn beta iota delta [negb]. rewrite Hex.
  cbn [negb gitStatusWatchers tick]. rewrite He.
  unfold try_catch, fsWatch, bind, ask. cbn [oracles now tick]. rewrite Hw. cbn.
  by rewrite lookup_insert_eq.
Qed.

Lemma releaseGitStatusWatcher_run taskPath watchId w e :
  watcherOf w taskPath = Some e ->
  let ids := forget watchId (watchIds e) in
  releaseGitStatusWatcher taskPath watchId w =
  (Ok tt,
   if (size ids <=? 0)%nat then
     set_gitStatusWatchers (delete taskPath (gitStatusWatchers w))
       (set_openWatchers (openWatchers w ∖ {[watcher e]})
          match debounceTimer e with
          | Some t => set_pendingTimeouts (pendingTimeouts w ∖ {[t]}) w
          | None => w
          end)
   else
     set_gitStatusWatchers
       (<[taskPath := mkWatchEntry (watcher e) ids (debounceTimer e)]>
          (gitStatusWatchers w)) w).
Proof.
  unfold watcherOf. intros He. cbv zeta.
  unfold releaseGitStatusWatcher, bind, get. rewrite He.
  unfold modify, closeWatcher, clearTimeout, modify, ret.
  destruct (size (forget watchId (watchIds e)) <=? 0)%nat; [|done].
  destruct (debounceTimer e); cbn; by rewrite delete_insert_eq.
Qed.

Lemma releaseGitStatusWatcher_counts taskPath watchId w e :
  watcherOf w taskPath = Some e ->
  let ids := forget watchId (watchIds e) in
  let w' := after (releaseGitStatusWatcher taskPath watchId) w in
  (ids <> ∅ ->
     watcherOf w' taskPath = Some (mkWatchEntry (watcher e) ids (debounceTimer e))
     /\ openWatchers w' = openWatchers w)
  /\ (ids = ∅ ->
        watcherOf w' taskPath = None
        /\ openWatchers w' = openWatchers w ∖ {[watcher e]})
  /\ oracles w' = oracles w /\ now w' = now w.
Proof.
  intros He. cbv zeta. unfold after.
  rewrite (releaseGitStatusWatcher_run _ _ _ _ He). cbn [snd]. unfold watcherOf.
  destruct (size (forget watchId (watchIds e)) <=? 0)%nat eqn:Hs.
  - apply size_zero_empty in Hs. rewrite Hs.
    destruct (debounceTimer e); cbn; by rewrite lookup_delete_eq.
  - cbn. rewrite lookup_insert_eq. split; [done|]. split; [|done].
    intros Hempty. apply size_zero_empty in Hempty. congruence.
Qed.

(** Outside the counting, an error of the watcher itself ends it
    whatever subscriptions it has, and tells the windows once. *)
Lemma onWatcherError_tears_down taskPath w e :
  watcherOf w taskPath = Some e ->
  let w' := after (onWatcherError taskPath) w in
  watcherOf w' taskPath = None
  /\ (watcher e ∉ openWatchers w')
  /\ broadcasts w' = broadcasts w ++ [(taskPath, Some "watcher-error")].
Proof.
  unfold watcherOf. intros He. cbv zeta.
  unfold after, onWatcherError, bind, get. rewrite He.
  unfold closeWatcher, clearTimeout, broadcastGitStatusChange, modify, ret.
  destruct (debounceTimer e); cbn; rewrite lookup_delete_eq;
    (split; [done|]); (split; [apply not_in_removed|done]).
Qed.

(** A burst of raw events leaves one pending timer, so one notification. *)
Example debounce_coalesces :
  let w1 := after (ensureGitStatusWatcher "/repo") desk in
  let w2 := after (onWatchEvent "/repo") (after (onWatchEvent "/repo") w1) in
  size (pendingTimeouts w2) = 1%nat
  /\ broadcasts (after (onDebounceFire "/repo" 1) (after (onDebounceFire "/repo" 2) w2))
     = [("/repo", None)].
Proof. by vm_compute. Qed.

(** ** Two watches, two releases *)

Lemma poller_two_watches taskPath connectionId w :
  pollerOf w taskPath = None ->
  let id1 := nextUUID w in
  let w1 := after (ensureRemoteStatusPoller taskPath connectionId) w in
  let id2 := nextUUID w1 in
  let w2 := after (ensureRemoteStatusPoller taskPath connectionId) w1 in
  let w3 := after (releaseRemoteStatusPoller taskPath (Some id1)) w2 in
  let w4 := after (releaseRemoteStatusPoller taskPath (Some id2)) w3 in
  Js.truthy id1 = true -> Js.truthy id2 = true -> id1 <> id2 ->
  pollerOf w3 taskPath = Some (mkPollEntry (nextHandle w) {[id2]} "" connectionId)
  /\ nextHandle w ∈ liveIntervals w3
  /\ pollerOf w4 taskPath = None
  /\ nextHandle w ∉ liveIntervals w4.
Proof.
  intros Hnone. cbv zeta. intros Ht1 Ht2 Hne.
  destruct (ensureRemoteStatusPoller_first taskPath connectionId w Hnone)
    as (_ & He1 & Hl1 & _). cbv zeta in He1, Hl1.
  set (w1 := after (ensureRemoteStatusPoller taskPath connectionId) w) in *. clearbody w1.
  destruct (ensureRemoteStatusPoller_shared taskPath connectionId w1 _ He1)
    as (_ & He2 & Hl2 & _). cbv zeta in He2, Hl2. cbn [intervalId poll_watchIds
      lastStatusHash Sys.connectionId] in He2.
  set (w2 := after (ensureRemoteStatusPoller taskPath connectionId) w1) in *. clearbody w2.
  destruct (releaseRemoteStatusPoller_counts taskPath (Some (nextUUID w)) w2 _ He2)
    as (Hkeep & _ & _). cbv zeta in Hkeep. cbn [intervalId poll_watchIds
      lastStatusHash Sys.connectionId] in Hkeep.
  rewrite (forget_own _ _ Ht1) in Hkeep.
  rewrite (drop_one_of_two _ _ Hne) in Hkeep.
  destruct Hkeep as [He3 Hl3]; [apply singleton_not_empty|].
  set (w3 := after (releaseRemoteStatusPoller taskPath (Some (nextUUID w))) w2) in *. clearbody w3.
  destruct (releaseRemoteStatusPoller_counts taskPath (Some (nextUUID w1)) w3 _ He3)
    as (_ & Hgone & _). cbv zeta in Hgone. cbn [intervalId poll_watchIds] in Hgone.
  rewrite (forget_own _ _ Ht2) in Hgone.
  destruct Hgone as [He4 Hl4]; [apply drop_last|].
  split; [exact He3|]. split; [rewrite Hl3, Hl2, Hl1; apply in_added|].
  split; [exact He4|]. rewrite Hl4. apply not_in_removed.
Qed.

Lemma watcher_two_watches taskPath w :
  supportsRecursiveWatch (oracles w) = true ->
  Js.truthy taskPath = true ->
  watcherOf w taskPath = None ->
  existsSync_oracle (oracles w) (now w) taskPath = true ->
  watch_oracle (oracles w) (2 + now w) taskPath = None ->
  existsSync_oracle (oracles w) (3 + now w) taskPath = true ->
  let id1 := uuid_oracle (oracles w) (1 + now w) in
  let id2 := uuid_oracle (oracles w) (4 + now w) in
  let w1 := after (ensureGitStatusWatcher taskPath) w in
  let w2 := after (ensureGitStatusWatcher taskPath) w1 in
  let w3 := after (releaseGitStatusWatcher taskPath (Some id1)) w2 in
  let w4 := after (releaseGitStatusWatcher taskPath (Some id2)) w3 in
  Js.truthy id1 = true -> Js.truthy id2 = true -> id1 <> id2 ->
  result (ensureGitStatusWatcher taskPath) w = Ok (Watching id1)
  /\ result (ensureGitStatusWatcher taskPath) w1 = Ok (Watching id2)
  /\ watcherOf w3 taskPath = Some (mkWatchEntry (nextHandle w) {[id2]} None)
  /\ nextHandle w ∈ openWatchers w3
  /\ watcherOf w4 taskPath = None
  /\ nextHandle w ∉ openWatchers w4.
Proof.
  intros Hsup Hpath Hnone Hex1 Hw Hex2. cbv zeta. intros Ht1 Ht2 Hne.
  destruct (ensureGitStatusWatcher_first taskPath w Hsup Hpath Hex1 Hw Hnone)
    as (Hr1 & He1 & Hl1 & Ho1 & Hn1). cbv zeta in Hr1, He1, Hl1, Ho1, Hn1.
  set (w1 := after (ensureGitStatusWatcher taskPath) w) in *. clearbody w1.
  assert (supportsRecursiveWatch (oracles w1) = true) as Hs1 by (by rewrite Ho1).
  assert (existsSync_oracle (oracles w1) (now w1) taskPath = true) as Hx1
    by (by rewrite Ho1, Hn1).
  destruct (ensureGitStatusWatcher_shared taskPath w1 _ Hs1 Hpath Hx1 He1)
    as (Hr2 & He2 & Hl2 & _).
  cbv zeta in Hr2, He2, Hl2. rewrite Ho1, Hn1 in Hr2, He2.
  cbn [watcher watchIds debounceTimer] in He2.
  set (w2 := after (ensureGitStatusWatcher taskPath) w1) in *. clearbody w2.
  destruct (releaseGitStatusWatcher_counts taskPath
              (Some (uuid_oracle (oracles w) (1 + now w))) w2 _ He2)
    as (Hkeep & _ & _). cbv zeta in Hkeep. cbn [watcher watchIds debounceTimer] in Hkeep.
  rewrite (forget_own _ _ Ht1) in Hkeep.
  change (S (S (S (S (now w))))) with (4 + now w)%nat in Hkeep.
  change (S (now w)) with (1 + now w)%nat in Hkeep.
  rewrite (drop_one_of_two _ _ Hne) in Hkeep.
  destruct Hkeep as [He3 Hl3]; [apply singleton_not_empty|].
  set (w3 := after (releaseGitStatusWatcher taskPath _) w2) in *. clearbody w3.
  destruct (releaseGitStatusWatcher_counts taskPath
              (Some (uuid_oracle (oracles w) (4 + now w))) w3 _ He3)
    as (_ & Hgone & _). cbv zeta in Hgone. cbn [watcher watchIds] in Hgone.
  rewrite (forget_own _ _ Ht2) in Hgone.
  destruct Hgone as [He4 Hl4]; [apply drop_last|].
  split; [exact Hr1|]. split; [exact Hr2|].
  split; [exact He3|]. split; [rewrite Hl3, Hl2, Hl1; apply in_added|].
  split; [exact He4|]. rewrite Hl4. apply not_in_removed.
Qed.

(** C8. Subscriptions are counted per path, in the registry of remote
    pollers and in that of local watchers alike.
    - A watch of a path that has an entry already keeps the interval
      (the watcher) of the entry, makes no new one, and only adds the new
      [watchId] to the entry.
    - A release removes from the entry the [watchId] it is given and no
      other. If a [watchId] is left, the entry and its interval (watcher)
      stay; if none is left, the interval is cleared (the watcher closed)
      and the entry removed from the registry.
    - So after two watches of a fresh path and the release of the first,
      the entry holds the second [watchId] and the resource is alive;
      the release of the second removes the entry and ends the resource. *)
Theorem watch_subscriptions_are_counted :
  (forall taskPath connectionId w e,
     pollerOf w taskPath = Some e ->
     let w' := after (ensureRemoteStatusPoller taskPath connectionId) w in
     result (ensureRemoteStatusPoller taskPath connectionId) w = Ok (Watching (nextUUID w))
     /\ pollerOf w' taskPath
        = Some (mkPollEntry (intervalId e) ({[nextUUID w]} ∪ poll_watchIds e)
                  (lastStatusHash e) (Sys.connectionId e))
     /\ liveIntervals w' = liveIntervals w
     /\ nextHandle w' = nextHandle w)
  /\ (forall taskPath watchId w e,
        pollerOf w taskPath = Some e ->
        let ids := forget watchId (poll_watchIds e) in
        let w' := after (releaseRemoteStatusPoller taskPath watchId) w in
        (forall i, Js.truthy i = true -> forget (Some i) (poll_watchIds e)
                                         = poll_watchIds e ∖ {[i]})
        /\ (ids <> ∅ ->
              pollerOf w' taskPath
              = Some (mkPollEntry (intervalId e) ids (lastStatusHash e)
                        (Sys.connectionId e))
              /\ liveIntervals w' = liveIntervals w)
        /\ (ids = ∅ ->
              pollerOf w' taskPath = None
              /\ liveIntervals w' = liveIntervals w ∖ {[intervalId e]}))
  /\ (forall taskPath connectionId w,
        pollerOf w taskPath = None ->
        let id1 := nextUUID w in
        let w1 := after (ensureRemoteStatusPoller taskPath connectionId) w in
        let id2 := nextUUID w1 in
        let w2 := after (ensureRemoteStatusPoller taskPath connectionId) w1 in
        let w3 := after (releaseRemoteStatusPoller taskPath (Some id1)) w2 in
        let w4 := after (releaseRemoteStatusPoller taskPath (Some id2)) w3 in
        Js.truthy id1 = true -> Js.truthy id2 = true -> id1 <> id2 ->
        pollerOf w3 taskPath = Some (mkPollEntry (nextHandle w) {[id2]} "" connectionId)
        /\ nextHandle w ∈ liveIntervals w3
        /\ pollerOf w4 taskPath = None
        /\ nextHandle w ∉ liveIntervals w4)
  /\ (forall taskPath w e,
        supportsRecursiveWatch (oracles w) = true ->
        Js.truthy taskPath = true ->
        existsSync_oracle (oracles w) (now w) taskPath = true ->
        watcherOf w taskPath = Some e ->
        let id := uuid_oracle (oracles w) (S (now w)) in
        let w' := after (ensureGitStatusWatcher taskPath) w in
        result (ensureGitStatusWatcher taskPath) w = Ok (Watching id)
        /\ watcherOf w' taskPath
           = Some (mkWatchEntry (watcher e) ({[id]} ∪ watchIds e) (debounceTimer e))
        /\ openWatchers w' = openWatchers w
        /\ nextHandle w' = nextHandle w)
  /\ (forall taskPath watchId w e,
        watcherOf w taskPath = Some e ->
        let ids := forget watchId (watchIds e) in
        let w' := after (releaseGitStatusWatcher taskPath watchId) w in
        (forall i, Js.truthy i = true -> forget (Some i) (watchIds e) = watchIds e ∖ {[i]})
        /\ (ids <> ∅ ->
              watcherOf w' taskPath
              = Some (mkWatchEntry (watcher e) ids (debounceTimer e))
              /\ openWatchers w' = openWatchers w)
        /\ (ids = ∅ ->
              watcherOf w' taskPath = None
              /\ openWatchers w' = openWatchers w ∖ {[watcher e]}))
  /\ (forall taskPath w,
        supportsRecursiveWatch (oracles w) = true ->
        Js.truthy taskPath = true ->
        watcherOf w taskPath = None ->
        existsSync_oracle (oracles w) (now w) taskPath = true ->
        watch_oracle (oracles w) (2 + now w) taskPath = None ->
        existsSync_oracle (oracles w) (3 + now w) taskPath = true ->
        let id1 := uuid_oracle (oracles w) (1 + now w) in
        let id2 := uuid_oracle (oracles w) (4 + now w) in
        let w1 := after (ensureGitStatusWatcher taskPath) w in
        let w2 := after (ensureGitStatusWatcher taskPath) w1 in
        let w3 := after (releaseGitStatusWatcher taskPath (Some id1)) w2 in
        let w4 := after (releaseGitStatusWatcher taskPath (Some id2)) w3 in
        Js.truthy id1 = true -> Js.truthy id2 = true -> id1 <> id2 ->
        result (ensureGitStatusWatcher taskPath) w = Ok (Watching id1)
        /\ result (ensureGitStatusWatcher taskPath) w1 = Ok (Watching id2)
        /\ watcherOf w3 taskPath = Some (mkWatchEntry (nextHandle w) {[id2]} None)
        /\ nextHandle w ∈ openWatchers w3
        /\ watcherOf w4 taskPath = None
        /\ nextHandle w ∉ openWatchers w4).
Proof.
  split; [exact ensureRemoteStatusPoller_shared|].
  split.
  { intros taskPath watchId w e He. cbv zeta.
    destruct (releaseRemoteStatusPoller_counts taskPath watchId w e He) as (Hk & Hg & _).
    split; [intros i Hi; by apply forget_own|]. by split. }
  split; [exact poller_two_watches|].
  split; [exact ensureGitStatusWatcher_shared|].
  split.
  { intros taskPath watchId w e He. cbv zeta.
    destruct (releaseGitStatusWatcher_counts taskPath watchId w e He) as (Hk & Hg & _).
    split; [intros i Hi; by apply forget_own|]. by split. }
  exact watcher_two_watches.
Qed.

(** On the desk, two watches of the remote project [/srv/repo] and of
    the local [/repo], and the release of the first of each: the poller
    and the watcher are still there; after the second release both are
    gone. *)
Lemma watch_subscriptions_are_counted_witness :
  (pollerOf desk "/srv/repo" = None
   /\ nextUUID desk <> nextUUID (after (ensureRemoteStatusPoller "/srv/repo" "ssh-1") desk))
  /\ (let w1 := after (ensureRemoteStatusPoller "/srv/repo" "ssh-1") desk in
      let w2 := after (ensureRemoteStatusPoller "/srv/repo" "ssh-1") w1 in
      let w3 := after (releaseRemoteStatusPoller "/srv/repo" (Some "uuid-0")) w2 in
      let w4 := after (releaseRemoteStatusPoller "/srv/repo" (Some "uuid-1")) w3 in
      pollerOf w3 "/srv/repo" = Some (mkPollEntry 0 {["uuid-1"]} "" "ssh-1")
      /\ 0%nat ∈ liveIntervals w3
      /\ pollerOf w4 "/srv/repo" = None
      /\ 0%nat ∉ liveIntervals w4)
  /\ (let w1 := after (ensureGitStatusWatcher "/repo") desk in
      let w2 := after (ensureGitStatusWatcher "/repo") w1 in
      let w3 := after (releaseGitStatusWatcher "/repo" (Some "uuid-1")) w2 in
      let w4 := after (releaseGitStatusWatcher "/repo" (Some "uuid-4")) w3 in
      watcherOf w3 "/repo" = Some (mkWatchEntry 0 {["uuid-4"]} None)
      /\ 0%nat ∈ openWatchers w3
      /\ watcherOf w4 "/repo" = None
      /\ 0%nat ∉ openWatchers w4).
Proof.
  assert (nextUUID desk
          <> nextUUID (after (ensureRemoteStatusPoller "/srv/repo" "ssh-1") desk)) as Hne
    by (vm_compute; discriminate).
  destruct watch_subscriptions_are_counted as (_ & _ & Hpoller & _ & _ & Hwatcher).
  split; [split; [reflexivity|exact Hne]|]. split.
  - exact (Hpoller "/srv/repo" "ssh-1" desk eq_refl eq_refl eq_refl Hne).
  - assert (uuid_oracle (oracles desk) (1 + now desk)
            <> uuid_oracle (oracles desk) (4 + now desk)) as Hne'
      by (vm_compute; discriminate).
    destruct (Hwatcher "/repo" desk eq_refl eq_refl eq_refl eq_refl eq_refl eq_refl
                eq_refl eq_refl Hne') as (_ & _ & H).
    exact H.
Defined.

End WatchFacts.

Module CommitFacts.
Import Trace TraceFacts GitService GitServiceOps OpsCommands.

Lemma blank_message (message : string) :
  negb (Js.truthy message) || negb (Js.truthy (Js.trim message)) = true
  <-> Js.trim message = "".
Proof.
  destruct message as [|c s]; [done|]. cbn [Js.truthy negb orb].
  destruct (Js.trim (String c s)); cbn; split; done.
Qed.

Lemma commit_run (taskPath message : string) (w : World) :
  Js.trim message <> "" ->
  commit taskPath message w =
  match exec_oracle (oracles w) (now w) (commitCmd taskPath message) with
  | inl e => (Throw (ExecFailure e), run [commitCmd taskPath message] w)
  | inr _ =>
      (match exec_oracle (oracles w) (S (now w)) (headQuery taskPath) with
       | inl e => Throw (ExecFailure e)
       | inr stdout => Ok (Js.trim stdout)
       end,
       run [commitCmd taskPath message; headQuery taskPath] w)
  end.
Proof.
  intros Hb. unfold commit.
  destruct (negb (Js.truthy message) || negb (Js.truthy (Js.trim message))) eqn:E.
  { by apply blank_message in E. }
  unfold bind, execFileAsync, commitCmd, headQuery.
  destruct (exec_oracle (oracles w) (now w) _) as [e|out]; cbn; [done|].
  by destruct (exec_oracle (oracles w) (S (now w)) _).
Qed.

(** X1. [commit] runs a command exactly when the message has something
    other than white space. A blank message is refused with
    ['Commit message cannot be empty'] and the world stays as it was.
    Otherwise [git commit -m] runs first, with the message as it was
    given, as one argument; when it fails its error is passed on and
    [HEAD] is not asked for; when it succeeds [git rev-parse HEAD] runs
    and the call resolves to its output, trimmed. *)
Theorem commit_runs_git_unless_blank (taskPath message : string) (w : World) :
  let o := exec_oracle (oracles w) in
  let n := now w in
  let cmds := issued (commit taskPath message) w in
  let res := result (commit taskPath message) w in
  (cmds = [] <-> Js.trim message = "")
  /\ (Js.trim message = "" ->
      commit taskPath message w = (Throw (JsError "Commit message cannot be empty"), w))
  /\ (Js.trim message <> "" ->
      match o n (commitCmd taskPath message) with
      | inl e => res = Throw (ExecFailure e) /\ cmds = [commitCmd taskPath message]
      | inr _ =>
          cmds = [commitCmd taskPath message; headQuery taskPath]
          /\ res = match o (S n) (headQuery taskPath) with
                   | inl e => Throw (ExecFailure e)
                   | inr stdout => Ok (Js.trim stdout)
                   end
      end).
Proof.
  cbv zeta.
  assert (Js.trim message = "" ->
          commit taskPath message w = (Throw (JsError "Commit message cannot be empty"), w))
    as Hblank.
  { intros Hb. unfold commit. apply blank_message in Hb. by rewrite Hb. }
  pose proof (commit_run taskPath message w) as Hrun.
  split; [|split; [exact Hblank|]].
  - split.
    + intros Hnil. destruct (decide (Js.trim message = "")) as [|Hb]; [done|].
      specialize (Hrun Hb).
      destruct (exec_oracle (oracles w) (now w) _);
        apply outcome in Hrun as [_ Hi]; rewrite Hi in Hnil; discriminate Hnil.
    + intros Hb. unfold issued. rewrite (Hblank Hb). cbn. apply drop_all.
  - intros Hb. specialize (Hrun Hb).
    destruct (exec_oracle (oracles w) (now w) _);
      apply outcome in Hrun as [Hr Hi]; by rewrite Hr, Hi.
Qed.

(** A message of blanks and a line break runs nothing. *)
Lemma commit_runs_git_unless_blank_witness :
  Js.trim (" " +:+ NL) = ""
  /\ issued (commit "/repo" (" " +:+ NL)) (Example.local [] []) = [].
Proof.
  split; [reflexivity|].
  apply (proj1 (commit_runs_git_unless_blank "/repo" (" " +:+ NL) (Example.local [] []))).
  reflexivity.
Defined.

(** X2. [unstageFile] runs [git reset HEAD -- file] first, and
    [git rm --cached -- file] exactly when that reset failed (a
    repository without a commit has no [HEAD]). The error of the reset is
    never seen: the call fails only when the fallback fails, and then
    with the error of the fallback. *)
Theorem unstageFile_falls_back_once (taskPath filePath : string) (w : World) :
  let o := exec_oracle (oracles w) in
  let n := now w in
  let cmds := issued (unstageFile taskPath filePath) w in
  let res := result (unstageFile taskPath filePath) w in
  match o n (resetPath taskPath filePath) with
  | inr _ => res = Ok tt /\ cmds = [resetPath taskPath filePath]
  | inl _ =>
      cmds = [resetPath taskPath filePath; rmCached taskPath filePath]
      /\ res = match o (S n) (rmCached taskPath filePath) with
               | inr _ => Ok tt
               | inl e => Throw (ExecFailure e)
               end
  end
  /\ (rmCached taskPath filePath ∈ cmds <->
      exists e, o n (resetPath taskPath filePath) = inl e).
Proof.
  cbv zeta.
  assert (unstageFile taskPath filePath w =
          match exec_oracle (oracles w) (now w) (resetPath taskPath filePath) with
          | inr _ => (Ok tt, run [resetPath taskPath filePath] w)
          | inl _ =>
              (match exec_oracle (oracles w) (S (now w)) (rmCached taskPath filePath) with
               | inr _ => Ok tt
               | inl e => Throw (ExecFailure e)
               end,
               run [resetPath taskPath filePath; rmCached taskPath filePath] w)
          end) as Hrun.
  { unfold unstageFile, try_catch, bind, execFileAsync, resetPath, rmCached.
    destruct (exec_oracle (oracles w) (now w) _) as [e|out]; cbn; [|done].
    by destruct (exec_oracle (oracles w) (S (now w)) _). }
  destruct (exec_oracle (oracles w) (now w) (resetPath taskPath filePath)) as [e|out];
    apply outcome in Hrun as [Hr Hi]; rewrite Hr, Hi.
  - split; [done|]. split; [by exists e|intros _].
    apply list_elem_of_In. cbn. auto.
  - split; [done|]. split; [|by intros [e He]].
    intros Hin. apply list_elem_of_In in Hin. cbn in Hin.
    destruct Hin as [Hin|[]]. discriminate Hin.
Qed.

(** In a repository without a commit the reset fails and the fallback
    runs. *)
Lemma unstageFile_falls_back_once_witness :
  (exists e, exec_oracle (oracles (Example.local [(["rm"; "--cached"; "--"; "a.ts"], inr "")] []))
               0 (resetPath "/repo" "a.ts") = inl e)
  /\ rmCached "/repo" "a.ts"
       ∈ issued (unstageFile "/repo" "a.ts")
           (Example.local [(["rm"; "--cached"; "--"; "a.ts"], inr "")] []).
Proof.
  assert (exists e, exec_oracle
            (oracles (Example.local [(["rm"; "--cached"; "--"; "a.ts"], inr "")] []))
            0 (resetPath "/repo" "a.ts") = inl e) as Hfail
    by (eexists; reflexivity).
  split; [exact Hfail|].
  apply (proj2 (unstageFile_falls_back_once "/repo" "a.ts"
                  (Example.local [(["rm"; "--cached"; "--"; "a.ts"], inr "")] []))).
  exact Hfail.
Defined.

End CommitFacts.

Module RevertFacts.
Import Trace TraceFacts GitService GitServiceOps RevertCommands.

Section Unlink.

Variable unlink_oracle : nat -> string -> option Exn.

Lemma revertFile_run (taskPath filePath : string) (removed : list string) (w : World) :
  let o := oracles w in
  let n := now w in
  let absPath := path_resolve o [taskPath; filePath] in
  let cat := catFile taskPath filePath in
  let co := checkout taskPath filePath in
  revertFile unlink_oracle taskPath filePath removed w =
  if outsideWorktree o taskPath filePath
  then (Throw (JsError "File path is outside the worktree"), (removed, w))
  else
    match exec_oracle o n cat with
    | inr _ =>
        (match exec_oracle o (S n) co with
         | inr _ => Ok "reverted"
         | inl e => Throw (JsError ("Failed to revert file: " +:+ message e))
         end, (removed, run [cat; co] w))
    | inl _ =>
        if existsSync_oracle o (S n) absPath then
          match unlink_oracle (S (S n)) absPath with
          | Some e => (Throw e, (removed, tick (tick (run [cat] w))))
          | None => (Ok "reverted", (removed ++ [absPath], tick (tick (run [cat] w))))
          end
        else (Ok "reverted", (removed, tick (run [cat] w)))
    end.
Proof.
  cbv zeta.
  unfold revertFile, bindF, try_catchF, lift, platform_of, throwF, retF, unlinkSync,
    existsSync, ask, execFileAsync, catFile, checkout.
  destruct (outsideWorktree (oracles w) taskPath filePath); [done|].
  destruct (exec_oracle (oracles w) (now w) _) as [e|out]; cbn.
  - destruct (existsSync_oracle (oracles w) (S (now w)) _); cbn; [|done].
    by destruct (unlink_oracle (S (S (now w))) _).
  - by destruct (exec_oracle (oracles w) (S (now w)) _).
Qed.

(** X3. [revertFile] removes at most one file, the one it was asked to
    revert, resolved against the task path. It removes it only when that
    path lies inside the worktree and [git cat-file -e HEAD:<file>]
    failed, that is when HEAD does not have the file; the call then
    resolves to ['reverted'] and [git checkout] does not run. *)
Theorem revertFile_removes_only_what_head_lacks
    (taskPath filePath : string) (removed : list string) (w : World) :
  let m := revertFile unlink_oracle taskPath filePath in
  let absPath := path_resolve (oracles w) [taskPath; filePath] in
  (removedBy m removed w = removed \/ removedBy m removed w = removed ++ [absPath])
  /\ (removedBy m removed w <> removed ->
      outsideWorktree (oracles w) taskPath filePath = false
      /\ (exists e, exec_oracle (oracles w) (now w) (catFile taskPath filePath) = inl e)
      /\ outcomeOf m removed w = Ok "reverted"
      /\ trace (worldAfter m removed w) = trace w ++ [catFile taskPath filePath]).
Proof.
  cbv zeta. unfold removedBy, outcomeOf, worldAfter.
  pose proof (revertFile_run taskPath filePath removed w) as H. cbv zeta in H.
  rewrite H. clear H.
  destruct (outsideWorktree (oracles w) taskPath filePath); cbn [fst snd].
  { split; [by left|done]. }
  destruct (exec_oracle (oracles w) (now w) (catFile taskPath filePath)) as [e|out];
    cbn [fst snd].
  2:{ split; [by left|done]. }
  destruct (existsSync_oracle (oracles w) (S (now w)) _); cbn [fst snd].
  2:{ split; [by left|done]. }
  destruct (unlink_oracle (S (S (now w))) _); cbn [fst snd].
  { split; [by left|done]. }
  split; [by right|]. intros _. split; [done|]. split; [by exists e|]. by split.
Qed.

(** X4. [revertFile] never removes a file that HEAD has: when
    [git cat-file] succeeds, [git checkout HEAD -- file] is the one thing
    that runs next, nothing is unlinked whether the checkout succeeds or
    not, and a failed checkout is thrown as
    ['Failed to revert file: <message>']. *)
Theorem revertFile_keeps_tracked_file
    (taskPath filePath out : string) (removed : list string) (w : World) :
  let m := revertFile unlink_oracle taskPath filePath in
  outsideWorktree (oracles w) taskPath filePath = false ->
  exec_oracle (oracles w) (now w) (catFile taskPath filePath) = inr out ->
  removedBy m removed w = removed
  /\ worldAfter m removed w = run [catFile taskPath filePath; checkout taskPath filePath] w
  /\ outcomeOf m removed w =
       match exec_oracle (oracles w) (S (now w)) (checkout taskPath filePath) with
       | inr _ => Ok "reverted"
       | inl e => Throw (JsError ("Failed to revert file: " +:+ message e))
       end.
Proof.
  cbv zeta. intros Hin Hcat. unfold removedBy, outcomeOf, worldAfter.
  pose proof (revertFile_run taskPath filePath removed w) as H. cbv zeta in H.
  rewrite H, Hin, Hcat. done.
Qed.

End Unlink.

(** A new file is removed. *)
Lemma revertFile_removes_only_what_head_lacks_witness :
  removedBy (revertFile (fun _ _ => None) "/repo" "new.ts") [] fresh <> []
  /\ outcomeOf (revertFile (fun _ _ => None) "/repo" "new.ts") [] fresh = Ok "reverted".
Proof.
  assert (removedBy (revertFile (fun _ _ => None) "/repo" "new.ts") [] fresh <> [])
    as Hne by (vm_compute; discriminate).
  split; [exact Hne|].
  apply (proj2 (revertFile_removes_only_what_head_lacks
                  (fun _ _ => None) "/repo" "new.ts" [] fresh) Hne).
Defined.

(** A tracked file whose checkout fails stays on the disk. *)
Lemma revertFile_keeps_tracked_file_witness :
  removedBy (revertFile (fun _ _ => None) "/repo" "a.ts") [] locked = []
  /\ outcomeOf (revertFile (fun _ _ => None) "/repo" "a.ts") [] locked =
       Throw (JsError ("Failed to revert file: "
                       +:+ "Command failed: error: unable to create file a.ts: Permission denied")).
Proof.
  destruct (revertFile_keeps_tracked_file (fun _ _ => None) "/repo" "a.ts" "" [] locked)
    as (Hr & _ & Ho); [reflexivity|reflexivity|].
  split; [exact Hr|exact Ho].
Defined.

End RevertFacts.

Module BehaviourFacts.
Import Trace TraceFacts Behaviour.

Lemma trace_tick w : trace (tick w) = trace w.
Proof. done. Qed.

Lemma onlyRuns_ret {A} P (a : A) : onlyRuns P (ret a).
Proof. intros w. exists []. split; [by rewrite app_nil_r|done]. Qed.

Lemma onlyRuns_throw {A} P e : onlyRuns P (@throw A e).
Proof. intros w. exists []. split; [by rewrite app_nil_r|done]. Qed.

Lemma onlyRuns_ask {A} P (q : Oracles -> nat -> A) : onlyRuns P (ask q).
Proof. intros w. exists []. split; [by rewrite app_nil_r|done]. Qed.

Lemma onlyRuns_ask_or_throw {A} P (q : Oracles -> nat -> Exn + A) :
  onlyRuns P (ask_or_throw q).
Proof.
  intros w. exists []. split; [|done]. rewrite app_nil_r.
  unfold after, ask_or_throw. by destruct (q _ _).
Qed.

Lemma onlyRuns_platform_of {A} P (q : Oracles -> A) : onlyRuns P (platform_of q).
Proof. intros w. exists []. split; [by rewrite app_nil_r|done]. Qed.

Lemma onlyRuns_exec P p a d : P (mkCmd p a d) -> onlyRuns P (execFileAsync p a d).
Proof.
  intros HP w. exists [mkCmd p a d]. split; [|by constructor].
  unfold after, execFileAsync. by destruct (exec_oracle _ _ _).
Qed.

Lemma onlyRuns_bind {A B} P (m : M A) (k : A -> M B) :
  onlyRuns P m -> (forall a, onlyRuns P (k a)) -> onlyRuns P (bind m k).
Proof.
  intros Hm Hk w. destruct (Hm w) as (l1 & E1 & F1).
  unfold after, bind in *. destruct (m w) as [[a|e] w1]; cbn [snd] in E1.
  - destruct (Hk a w1) as (l2 & E2 & F2). unfold after in E2.
    exists (l1 ++ l2). rewrite E2, E1, app_assoc. split; [done|]. by apply Forall_app.
  - exists l1. by split.
Qed.

Lemma onlyRuns_try_catch {A} P (m : M A) (h : Exn -> M A) :
  onlyRuns P m -> (forall e, onlyRuns P (h e)) -> onlyRuns P (try_catch m h).
Proof.
  intros Hm Hh w. destruct (Hm w) as (l1 & E1 & F1).
  unfold after, try_catch in *. destruct (m w) as [[a|e] w1]; cbn [snd] in E1.
  - exists l1. by split.
  - destruct (Hh e w1) as (l2 & E2 & F2). unfold after in E2.
    exists (l1 ++ l2). rewrite E2, E1, app_assoc. split; [done|]. by apply Forall_app.
Qed.

Lemma onlyRuns_issued {A} P (m : M A) w : onlyRuns P m -> Forall P (issued m w).
Proof.
  intros H. destruct (H w) as (l & E & F). by rewrite (issued_trace m w l E).
Qed.

Lemma onlyRuns_weaken {A} (P Q : Cmd -> Prop) (m : M A) :
  (forall c, P c -> Q c) -> onlyRuns P m -> onlyRuns Q m.
Proof.
  intros HPQ Hm w. destruct (Hm w) as (l & E & F). exists l. split; [done|].
  eapply Forall_impl; [exact F|exact HPQ].
Qed.

Lemma neverThrows_ret {A} (a : A) : neverThrows (ret a).
Proof. intros w. by exists a. Qed.

Lemma neverThrows_ask {A} (q : Oracles -> nat -> A) : neverThrows (ask q).
Proof. intros w. by eexists. Qed.

Lemma neverThrows_platform_of {A} (q : Oracles -> A) : neverThrows (platform_of q).
Proof. intros w. by eexists. Qed.

Lemma neverThrows_bind {A B} (m : M A) (k : A -> M B) :
  neverThrows m -> (forall a, neverThrows (k a)) -> neverThrows (bind m k).
Proof.
  intros Hm Hk w. destruct (Hm w) as [a Ha]. unfold result, bind in *.
  destruct (m w) as [r w1]. cbn [fst] in Ha. subst r. apply Hk.
Qed.

Lemma neverThrows_catch {A} (m : M A) (h : Exn -> M A) :
  (forall e, neverThrows (h e)) -> neverThrows (try_catch m h).
Proof.
  intros Hh w. unfold result, try_catch. destruct (m w) as [[a|e] w1].
  - by exists a.
  - apply Hh.
Qed.

Lemma ensures_ret {A} (Q : A -> Prop) (a : A) : Q a -> ensures Q (ret a).
Proof. intros HQ w b [= <-]. exact HQ. Qed.

Lemma ensures_throw {A} (Q : A -> Prop) e : ensures Q (throw e).
Proof. intros w b [=]. Qed.

Lemma ensures_bind {A B} (Q : B -> Prop) (m : M A) (k : A -> M B) :
  (forall a, ensures Q (k a)) -> ensures Q (bind m k).
Proof.
  intros Hk w b. unfold result, bind. destruct (m w) as [[a|e] w1]; [|done].
  apply Hk.
Qed.

Lemma ensures_bind_with {A B} (R : A -> Prop) (Q : B -> Prop) (m : M A) (k : A -> M B) :
  ensures R m -> (forall a, R a -> ensures Q (k a)) -> ensures Q (bind m k).
Proof.
  intros Hm Hk w b. unfold result, bind. specialize (Hm w). unfold result in Hm.
  destruct (m w) as [[a|e] w1]; [|done]. cbn [fst] in Hm.
  apply Hk. by apply Hm.
Qed.

Lemma ensures_try_catch {A} (Q : A -> Prop) (m : M A) (h : Exn -> M A) :
  ensures Q m -> (forall e, ensures Q (h e)) -> ensures Q (try_catch m h).
Proof.
  intros Hm Hh w b. unfold result, try_catch. specialize (Hm w). unfold result in Hm.
  destruct (m w) as [[a|e] w1].
  - exact (Hm b).
  - apply Hh.
Qed.

Lemma inspects_intro (verb : string) (rest : list string) (d : string) :
  verb ∈ ["rev-parse"; "rev-list"; "symbolic-ref"; "log"; "status"; "diff";
          "diff-tree"; "show"] ->
  inspects (mkCmd "git" (verb :: rest) d).
Proof. intros H. split; [done|]. by exists verb, rest. Qed.

Lemma readOnly_inspects (c : Cmd) : readOnly c -> inspects c.
Proof.
  intros [Hp (verb & rest & Ha & Hv)]. split; [done|]. exists verb, rest. split; [done|].
  apply list_elem_of_In in Hv. apply list_elem_of_In. cbn in *. tauto.
Qed.

Lemma emits_onlyRuns {A} P (m : M A) : emits P m -> onlyRuns P m.
Proof.
  intros H w. destruct (H w) as (l & E & F). exists l. split; [|done].
  rewrite E. apply trace_run.
Qed.

End BehaviourFacts.

Module StatusFacts.
Import Trace TraceFacts Behaviour BehaviourFacts GitService GitServiceOps StatusCommands.

Ltac inspect :=
  apply onlyRuns_exec, inspects_intro, list_elem_of_In; cbn; tauto.

Lemma forEach_onlyRuns {A B} P (f : A -> M B) (l : list A) :
  (forall x, onlyRuns P (f x)) -> onlyRuns P (forEach f l).
Proof.
  intros Hf. induction l as [|x l IH]; cbn [forEach].
  - apply onlyRuns_ret.
  - apply onlyRuns_bind; [apply Hf|intros y].
    apply onlyRuns_bind; [exact IH|intros ys]. apply onlyRuns_ret.
Qed.

Lemma forEach_neverThrows {A B} (f : A -> M B) (l : list A) :
  (forall x, neverThrows (f x)) -> neverThrows (forEach f l).
Proof.
  intros Hf. induction l as [|x l IH]; cbn [forEach].
  - apply neverThrows_ret.
  - apply neverThrows_bind; [apply Hf|intros y].
    apply neverThrows_bind; [exact IH|intros ys]. apply neverThrows_ret.
Qed.

Lemma forEach_ensures {A B} (Q : A -> B -> Prop) (f : A -> M B) (l : list A) :
  (forall x, ensures (Q x) (f x)) -> ensures (Forall2 Q l) (forEach f l).
Proof.
  intros Hf. induction l as [|x l IH]; cbn [forEach].
  - apply ensures_ret. constructor.
  - eapply ensures_bind_with; [apply Hf|intros y Hy].
    eapply ensures_bind_with; [exact IH|intros ys Hys].
    apply ensures_ret. by constructor.
Qed.

Lemma countFileNewlinesCapped_neverThrows p maxBytes :
  neverThrows (countFileNewlinesCapped p maxBytes).
Proof.
  unfold countFileNewlinesCapped.
  apply neverThrows_bind; [apply neverThrows_ask|intros [st|]]; [|apply neverThrows_ret].
  destruct (_ || _); [apply neverThrows_ret|].
  apply neverThrows_bind; [apply neverThrows_ask|intros a]. apply neverThrows_ret.
Qed.

Lemma countFileNewlinesCapped_onlyRuns P p maxBytes :
  onlyRuns P (countFileNewlinesCapped p maxBytes).
Proof.
  unfold countFileNewlinesCapped.
  apply onlyRuns_bind; [apply onlyRuns_ask|intros [st|]]; [|apply onlyRuns_ret].
  destruct (_ || _); [apply onlyRuns_ret|].
  apply onlyRuns_bind; [apply onlyRuns_ask|intros a]. apply onlyRuns_ret.
Qed.

Lemma numstatOf_neverThrows a d : neverThrows (numstatOf a d).
Proof. apply neverThrows_catch. intros e. apply neverThrows_ret. Qed.

Lemma numstatOf_onlyRuns rest d :
  onlyRuns inspects (numstatOf ("diff" :: rest) d).
Proof.
  unfold numstatOf. apply onlyRuns_try_catch; [|intros e; apply onlyRuns_ret].
  apply onlyRuns_bind; [inspect|intros out].
  destruct (_ && _); apply onlyRuns_ret.
Qed.

Lemma statusEntry_neverThrows taskPath line : neverThrows (statusEntry taskPath line).
Proof.
  unfold statusEntry.
  apply neverThrows_bind; [apply numstatOf_neverThrows|intros staged].
  apply neverThrows_bind; [apply numstatOf_neverThrows|intros unstaged].
  apply neverThrows_bind; [|intros a; apply neverThrows_ret].
  destruct (_ && _); [|apply neverThrows_ret].
  apply neverThrows_bind; [apply neverThrows_platform_of|intros p].
  apply neverThrows_bind; [apply countFileNewlinesCapped_neverThrows|intros c].
  apply neverThrows_ret.
Qed.

Lemma statusEntry_onlyRuns taskPath line : onlyRuns inspects (statusEntry taskPath line).
Proof.
  unfold statusEntry.
  apply onlyRuns_bind; [apply numstatOf_onlyRuns|intros staged].
  apply onlyRuns_bind; [apply numstatOf_onlyRuns|intros unstaged].
  apply onlyRuns_bind; [|intros a; apply onlyRuns_ret].
  destruct (_ && _); [|apply onlyRuns_ret].
  apply onlyRuns_bind; [apply onlyRuns_platform_of|intros p].
  apply onlyRuns_bind; [apply countFileNewlinesCapped_onlyRuns|intros c].
  apply onlyRuns_ret.
Qed.

Lemma statusEntry_readsLine taskPath line :
  ensures (readsLine line) (statusEntry taskPath line).
Proof.
  unfold statusEntry.
  apply ensures_bind. intros staged. apply ensures_bind. intros unstaged.
  apply ensures_bind. intros a. by apply ensures_ret.
Qed.

Lemma statusOfCode_values (code : string) :
  statusOfCode code ∈ ["added"; "modified"; "deleted"; "renamed"].
Proof.
  unfold statusOfCode. apply list_elem_of_In. cbn.
  destruct (_ || _); [tauto|]. destruct (Js.includes code "D"); [tauto|].
  destruct (Js.includes code "R"); tauto.
Qed.

(** X5. Once [git rev-parse --is-inside-work-tree] and [git status] have
    answered, [getStatus] cannot fail, whatever the numstat commands and
    the file system do after that: it resolves to one entry for each
    non-empty line of the status output, in the order of the lines, and
    each entry has the path, the status and the staging flag read off
    its line. The status is one of [added], [modified], [deleted] and
    [renamed]. An output of nothing but white space gives no entry. *)
Theorem getStatus_lists_every_line (taskPath inside statusOutput : string) (w : World) :
  exec_oracle (oracles w) (now w) (insideQuery taskPath) = inr inside ->
  exec_oracle (oracles w) (S (now w)) (statusQuery taskPath) = inr statusOutput ->
  exists changes,
    result (getStatus taskPath) w = Ok changes
    /\ Forall2 readsLine (listed statusOutput) changes
    /\ Forall (fun c => status c ∈ ["added"; "modified"; "deleted"; "renamed"]) changes.
Proof.
  intros Hin Hst.
  assert (forall changes, Forall2 readsLine (listed statusOutput) changes ->
            Forall (fun c => status c ∈ ["added"; "modified"; "deleted"; "renamed"]) changes)
    as Hvalues.
  { intros changes H. induction H as [|line c ls cs (_ & Hs & _) _ IH]; constructor; [|done].
    rewrite Hs. apply statusOfCode_values. }
  unfold result, getStatus.
  erewrite bind_ok; cycle 1.
  { erewrite try_catch_ok; [reflexivity|].
    erewrite bind_ok; [reflexivity|]. by apply execFileAsync_ok. }
  cbn beta iota. cbn [negb].
  erewrite bind_ok; cycle 1.
  { apply execFileAsync_ok. exact Hst. }
  cbn beta iota. unfold listed in *.
  destruct (Js.truthy (Js.trim statusOutput)); cbn [negb].
  - set (w2 := log_cmd _ (log_cmd _ w)).
    destruct (forEach_neverThrows (statusEntry taskPath) (statusLinesOf statusOutput)
                (statusEntry_neverThrows taskPath) w2) as [changes Hc].
    exists changes. split; [exact Hc|].
    assert (Forall2 readsLine (statusLinesOf statusOutput) changes) as H2.
    { eapply forEach_ensures; [|exact Hc]. intros line. apply statusEntry_readsLine. }
    split; [exact H2|by apply Hvalues].
  - exists []. split; [done|]. split; constructor.
Qed.

(** The working tree [dirty] lists its two lines. *)
Lemma getStatus_lists_every_line_witness :
  exists changes,
    result (getStatus "/repo") dirty = Ok changes
    /\ Forall2 readsLine
         (listed ("MM src/a.ts" +:+ NL +:+ "?? new.txt" +:+ NL)) changes
    /\ Forall (fun c => status c ∈ ["added"; "modified"; "deleted"; "renamed"]) changes.
Proof.
  apply (getStatus_lists_every_line "/repo" "true"
           ("MM src/a.ts" +:+ NL +:+ "?? new.txt" +:+ NL) dirty); reflexivity.
Defined.

(** The entries of [dirty]: the counts of the first add up the staged
    and the unstaged numstat, the second counts the lines of the file. *)
Example getStatus_dirty :
  result (getStatus "/repo") dirty =
    Ok [mkGitChange "src/a.ts" "modified" 5 6 true;
        mkGitChange "new.txt" "added" 2 0 false].
Proof. by vm_compute. Qed.

(** X6. Outside a repository [getStatus] resolves to the empty listing
    instead of failing: when [git rev-parse --is-inside-work-tree] fails,
    that command is the only one that runs and the error is not seen. *)
Theorem getStatus_outside_repository (taskPath : string) (e : ExecError) (w : World) :
  exec_oracle (oracles w) (now w) (insideQuery taskPath) = inl e ->
  result (getStatus taskPath) w = Ok []
  /\ issued (getStatus taskPath) w = [insideQuery taskPath].
Proof.
  intros Hin. apply outcome. unfold getStatus.
  erewrite bind_ok; cycle 1.
  { erewrite (try_catch_throw _ _ _ (ExecFailure e)); [reflexivity|].
    erewrite bind_throw; [reflexivity|]. by apply execFileAsync_throw. }
  done.
Qed.

Lemma getStatus_outside_repository_witness :
  result (getStatus "/tmp") (Example.local [] []) = Ok []
  /\ issued (getStatus "/tmp") (Example.local [] []) = [insideQuery "/tmp"].
Proof.
  eapply (getStatus_outside_repository "/tmp" _ (Example.local [] [])). reflexivity.
Defined.

Lemma getStatus_onlyRuns taskPath : onlyRuns inspects (getStatus taskPath).
Proof.
  unfold getStatus.
  apply onlyRuns_bind.
  { apply onlyRuns_try_catch; [|intros e; apply onlyRuns_ret].
    apply onlyRuns_bind; [inspect|intros _; apply onlyRuns_ret]. }
  intros [|]; cbn [negb]; [|apply onlyRuns_ret].
  apply onlyRuns_bind; [inspect|intros out].
  destruct (negb _); [apply onlyRuns_ret|].
  apply forEach_onlyRuns. intros line. apply statusEntry_onlyRuns.
Qed.

End StatusFacts.

Module InspectFacts.
Import Trace TraceFacts Behaviour BehaviourFacts GitService GitServiceOps.

Ltac inspect :=
  apply onlyRuns_exec, inspects_intro, list_elem_of_In; cbn; tauto.

Ltac runs :=
  repeat first
    [ apply onlyRuns_ret | apply onlyRuns_throw | apply onlyRuns_platform_of
    | apply onlyRuns_ask | inspect
    | apply onlyRuns_bind; [|intros ?]
    | apply onlyRuns_try_catch; [|intros ?]
    | match goal with
      | |- onlyRuns _ (if ?b then _ else _) => destruct b
      | |- onlyRuns _ (match ?x with _ => _ end) => destruct x
      end ].

Lemma getFileDiff_onlyRuns taskPath filePath :
  onlyRuns inspects (getFileDiff taskPath filePath).
Proof. unfold getFileDiff, readFileTextCapped. runs. Qed.

Lemma getCommitFileDiff_onlyRuns taskPath commitHash filePath :
  onlyRuns inspects (getCommitFileDiff taskPath commitHash filePath).
Proof. unfold getCommitFileDiff. runs. Qed.

Lemma getCommitFiles_onlyRuns taskPath commitHash :
  onlyRuns inspects (getCommitFiles taskPath commitHash).
Proof. unfold getCommitFiles, diffTree. runs. Qed.

Lemma getLog_onlyRuns taskPath maxCount skip known :
  onlyRuns inspects (getLog taskPath maxCount skip known).
Proof.
  eapply onlyRuns_weaken; [exact readOnly_inspects|].
  apply emits_onlyRuns, LogFacts.getLog_readOnly.
Qed.

(** X7. The functions that list and show never change anything:
    whatever the repository answers, every command that [getStatus],
    [getFileDiff], [getLog], [getLatestCommit], [getCommitFiles] and
    [getCommitFileDiff] run is a git command of one of the verbs
    [rev-parse], [rev-list], [symbolic-ref], [log], [status], [diff],
    [diff-tree] and [show]; none stages, commits, resets, checks out,
    pushes or pulls. *)
Theorem listing_functions_only_inspect
    (taskPath filePath commitHash : string) (maxCount skip known : option Z) (w : World) :
  Forall inspects (issued (getStatus taskPath) w)
  /\ Forall inspects (issued (getFileDiff taskPath filePath) w)
  /\ Forall inspects (issued (getLog taskPath maxCount skip known) w)
  /\ Forall inspects (issued (getLatestCommit taskPath) w)
  /\ Forall inspects (issued (getCommitFiles taskPath commitHash) w)
  /\ Forall inspects (issued (getCommitFileDiff taskPath commitHash filePath) w).
Proof.
  split; [apply onlyRuns_issued, StatusFacts.getStatus_onlyRuns|].
  split; [apply onlyRuns_issued, getFileDiff_onlyRuns|].
  split; [apply onlyRuns_issued, getLog_onlyRuns|].
  split; [|split].
  - apply onlyRuns_issued. unfold getLatestCommit.
    apply onlyRuns_bind; [apply getLog_onlyRuns|intros r; apply onlyRuns_ret].
  - apply onlyRuns_issued, getCommitFiles_onlyRuns.
  - apply onlyRuns_issued, getCommitFileDiff_onlyRuns.
Qed.

End InspectFacts.

Module DiffShapeFacts.
Import Trace TraceFacts Behaviour BehaviourFacts GitService DiffProps DiffShape.

Lemma sound_parsed (stdout : string) :
  sound (mkFileDiff (fst (parseDiffLines stdout)) None).
Proof.
  split; [|split; [done|done]]. cbn. apply Forall_forall. intros d Hd.
  apply list_elem_of_omap in Hd as (line & _ & Hline).
  eapply DiffFacts.parseLine_wellFormed, Hline.
Qed.

Lemma sound_added (l : list string) : sound (mkFileDiff (map addLine l) None).
Proof.
  split; [|split; [done|done]]. cbn. apply Forall_forall. intros d Hd.
  apply list_elem_of_fmap in Hd as (s & -> & _). split; [done|by eexists].
Qed.

Lemma sound_deleted (l : list string) : sound (mkFileDiff (map delLine l) None).
Proof.
  split; [|split; [done|done]]. cbn. apply Forall_forall. intros d Hd.
  apply list_elem_of_fmap in Hd as (s & -> & _). split; [by eexists|done].
Qed.

Lemma sound_empty (b : option bool) : b <> Some false -> sound (mkFileDiff [] b).
Proof. intros Hb. split; [constructor|]. by split. Qed.

Ltac shape :=
  repeat first
    [ apply ensures_throw
    | apply ensures_ret;
        first [ apply sound_added | apply sound_deleted | apply sound_empty; discriminate ]
    | apply ensures_bind; intros ?
    | apply ensures_try_catch; [|intros ?]
    | match goal with
      | |- ensures _ (if ?b then _ else _) => destruct b
      | |- ensures _ (match ?x with _ => _ end) => destruct x
      end ].

Lemma getFileDiff_sound taskPath filePath : ensures sound (getFileDiff taskPath filePath).
Proof.
  unfold getFileDiff.
  apply ensures_bind. intros outside. destruct outside; [apply ensures_throw|].
  apply ensures_try_catch; [|intros e; shape].
  apply ensures_bind. intros stdout.
  pose proof (sound_parsed stdout) as Hp.
  destruct (parseDiffLines stdout) as [parsed isBin]. cbn [fst] in Hp.
  destruct isBin; [shape|].
  destruct (length parsed =? 0)%nat; [shape|by apply ensures_ret].
Qed.

Lemma getCommitFileDiff_sound taskPath commitHash filePath :
  ensures sound (getCommitFileDiff taskPath commitHash filePath).
Proof.
  unfold getCommitFileDiff.
  apply ensures_bind. intros outside. destruct outside; [apply ensures_throw|].
  apply ensures_bind. intros hasParent. destruct hasParent; [|shape].
  apply ensures_bind. intros stdout.
  pose proof (sound_parsed stdout) as Hp.
  destruct (parseDiffLines stdout) as [parsed isBin]. cbn [fst] in Hp.
  destruct isBin; [shape|by apply ensures_ret].
Qed.

(** X8. Every diff that [getFileDiff] or [getCommitFileDiff] resolves
    to, by whichever of their paths, is sound: each line is a context
    line with the same text on both sides, a deletion with only the left
    side or an addition with only the right side; a diff flagged binary
    has no lines; and the flag is [true] or absent, never [false]. *)
Theorem resolved_diffs_are_sound
    (taskPath commitHash filePath : string) (w : World) (d : FileDiff) :
  result (getFileDiff taskPath filePath) w = Ok d
  \/ result (getCommitFileDiff taskPath commitHash filePath) w = Ok d ->
  sound d.
Proof.
  intros [H|H].
  - exact (getFileDiff_sound taskPath filePath w d H).
  - exact (getCommitFileDiff_sound taskPath commitHash filePath w d H).
Qed.

(** A changed image: the diff is flagged binary and has no lines. *)
Lemma resolved_diffs_are_sound_witness :
  result (getFileDiff "/repo" "logo.png") binaryChange = Ok (mkFileDiff [] (Some true))
  /\ sound (mkFileDiff [] (Some true)).
Proof.
  assert (result (getFileDiff "/repo" "logo.png") binaryChange
          = Ok (mkFileDiff [] (Some true))) as H by reflexivity.
  split; [exact H|].
  apply (resolved_diffs_are_sound "/repo" "" "logo.png" binaryChange _ (or_introl H)).
Defined.

(** X9. For a path inside the worktree [getFileDiff] never fails: an
    error of [git diff], of reading the file or of [git show] ends in
    one of the fallbacks, the last of which is the diff without lines.
    So the path guard is the only error of [getFileDiff]. *)
Theorem getFileDiff_fails_only_by_the_guard (taskPath filePath : string) (w : World) :
  outsideWorktree (oracles w) taskPath filePath = false ->
  exists d, result (getFileDiff taskPath filePath) w = Ok d.
Proof.
  intros Hin. unfold result, getFileDiff.
  rewrite (bind_ok _ _ w false w) by (unfold platform_of; by rewrite Hin).
  cbn beta iota.
  apply neverThrows_catch. intros e.
  apply neverThrows_bind; [apply neverThrows_platform_of|intros p].
  apply neverThrows_bind.
  { unfold readFileTextCapped.
    apply neverThrows_bind; [apply neverThrows_ask|intros [st|]]; [|apply neverThrows_ret].
    destruct (_ || _); [apply neverThrows_ret|apply neverThrows_ask]. }
  intros [content|]; [apply neverThrows_ret|].
  apply neverThrows_catch. intros e'. apply neverThrows_ret.
Qed.

(** Nothing is scripted: every command fails and no file exists. *)
Lemma getFileDiff_fails_only_by_the_guard_witness :
  exists d, result (getFileDiff "/repo" "a.ts") (Example.local [] []) = Ok d.
Proof.
  apply (getFileDiff_fails_only_by_the_guard "/repo" "a.ts" (Example.local [] [])).
  reflexivity.
Defined.

End DiffShapeFacts.

Module HandlerFacts.
Import Trace TraceFacts Behaviour BehaviourFacts.
Import GitService GitServiceOps GitIpc GitHandlers HandlerProps.

Lemma silent_ret {A} (a : A) : silent (ret a).
Proof. by intros w. Qed.

Lemma silent_throw {A} e : silent (@throw A e).
Proof. by intros w. Qed.

Lemma silent_exec p a d : silent (execFileAsync p a d).
Proof. intros w. unfold after, execFileAsync. by destruct (exec_oracle _ _ _). Qed.

Lemma silent_bind {A B} (m : M A) (k : A -> M B) :
  silent m -> (forall a, silent (k a)) -> silent (bind m k).
Proof.
  intros Hm Hk w. specialize (Hm w). unfold after, bind in *.
  destruct (m w) as [[a|e] w1]; cbn [snd] in Hm; [|done].
  rewrite <- Hm. apply Hk.
Qed.

Lemma silent_try_catch {A} (m : M A) (h : Exn -> M A) :
  silent m -> (forall e, silent (h e)) -> silent (try_catch m h).
Proof.
  intros Hm Hh w. specialize (Hm w). unfold after, try_catch in *.
  destruct (m w) as [[a|e] w1]; cbn [snd] in Hm; [done|].
  rewrite <- Hm. apply Hh.
Qed.

Lemma silent_emits {A} P (m : M A) : emits P m -> silent m.
Proof.
  intros H w. destruct (H w) as (l & -> & _). clear H.
  revert w. induction l as [|c l IH]; intros w; [done|].
  change (run (c :: l) w) with (run l (log_cmd c w)). by rewrite IH.
Qed.

Ltac hush :=
  repeat first
    [ apply silent_ret | apply silent_throw | apply silent_exec
    | apply silent_bind; [|intros ?]
    | apply silent_try_catch; [|intros ?]
    | match goal with
      | |- silent (if ?b then _ else _) => destruct b
      | |- silent (match ?x with _ => _ end) => destruct x
      end ].

Lemma commit_silent taskPath message : silent (commit taskPath message).
Proof. unfold commit. hush. Qed.

Lemma getLog_silent taskPath maxCount skip known :
  silent (getLog taskPath maxCount skip known).
Proof. eapply silent_emits, LogFacts.getLog_readOnly. Qed.

Lemma softResetLastCommit_silent taskPath : silent (softResetLastCommit taskPath).
Proof.
  unfold softResetLastCommit.
  apply silent_bind; [hush|intros _].
  apply silent_bind; [apply getLog_silent|intros r]. hush.
Qed.

Section Paths.

Variable isAbsolute : string -> bool.
Variable isDirectory_oracle : nat -> string -> option bool.

(** Validation runs no command, sends nothing and never throws. *)
Lemma validateTaskPath_run (taskPath : option string) (w : World) :
  exists verdict w',
    validateTaskPath isAbsolute isDirectory_oracle taskPath w = (Ok verdict, w')
    /\ trace w' = trace w /\ broadcasts w' = broadcasts w.
Proof.
  unfold GitHandlers.validateTaskPath. destruct taskPath as [p|]; [|by eexists _, _].
  destruct (negb (Js.truthy p)); [by eexists _, _|].
  destruct (negb (isAbsolute p)); [by eexists _, _|].
  unfold bind, statSync.
  destruct (isDirectory_oracle (now w) p) as [[|]|]; by eexists _, _.
Qed.

Lemma guarded_refused {A} (describe : Exn -> string) (taskPath err : string)
    (body : M (Reply A)) (w : World) :
  result (validateTaskPath isAbsolute isDirectory_oracle (Some taskPath)) w = Ok (Some err) ->
  refused err (guarded isAbsolute isDirectory_oracle describe taskPath body) w.
Proof.
  intros Hv. destruct (validateTaskPath_run (Some taskPath) w) as (v & w' & E & Ht & Hb).
  unfold result in Hv. rewrite E in Hv. injection Hv as ->.
  assert (guarded isAbsolute isDirectory_oracle describe taskPath body w
          = (Ok (Failure err), w')) as Hg.
  { unfold GitHandlers.guarded. erewrite try_catch_ok; [reflexivity|].
    erewrite bind_ok; [|exact E]. done. }
  unfold refused, result, issued, after. rewrite Hg. cbn [fst snd].
  split; [done|]. split; [|done]. rewrite Ht. apply drop_all.
Qed.

Lemma guarded_valid {A} (describe : Exn -> string) (taskPath : string)
    (body : M (Reply A)) (w : World) :
  validAt isAbsolute isDirectory_oracle taskPath w ->
  exists w', trace w' = trace w /\ broadcasts w' = broadcasts w
    /\ now w' = S (now w) /\ oracles w' = oracles w
    /\ guarded isAbsolute isDirectory_oracle describe taskPath body w =
         try_catch body (fun error => ret (Failure (describe error))) w'.
Proof.
  unfold validAt, result, GitHandlers.guarded, GitHandlers.validateTaskPath.
  destruct (negb (Js.truthy taskPath)); [done|].
  destruct (negb (isAbsolute taskPath)); [done|].
  unfold try_catch, bind, statSync.
  destruct (isDirectory_oracle (now w) taskPath) as [[|]|]; cbn; try done.
  intros _. exists (tick w). repeat split; done.
Qed.

(** X10. A handler of the commit workflow that is given a task path
    that fails validation (empty, not absolute, not there, or not a
    directory) replies with that error and does nothing else: no
    command runs and nothing is broadcast. This holds for ['git:commit'],
    ['git:push'], ['git:pull'], ['git:get-log'],
    ['git:get-latest-commit'], ['git:get-commit-files'],
    ['git:get-commit-file-diff'] and ['git:soft-reset']. *)
Theorem invalid_task_path_runs_nothing
    (taskPath err message commitHash filePath : string)
    (maxCount skip aheadCount : option Z) (w : World) :
  result (validateTaskPath isAbsolute isDirectory_oracle (Some taskPath)) w = Ok (Some err) ->
  refused err (handleCommit isAbsolute isDirectory_oracle taskPath message) w
  /\ refused err (handlePush isAbsolute isDirectory_oracle taskPath) w
  /\ refused err (handlePull isAbsolute isDirectory_oracle taskPath) w
  /\ refused err
       (handleGetLog isAbsolute isDirectory_oracle taskPath maxCount skip aheadCount) w
  /\ refused err (handleGetLatestCommit isAbsolute isDirectory_oracle taskPath) w
  /\ refused err
       (handleGetCommitFiles isAbsolute isDirectory_oracle taskPath commitHash) w
  /\ refused err
       (handleGetCommitFileDiff isAbsolute isDirectory_oracle taskPath commitHash filePath) w
  /\ refused err (handleSoftReset isAbsolute isDirectory_oracle taskPath) w.
Proof.
  intros Hv. do 7 (split; [by apply guarded_refused|]). by apply guarded_refused.
Qed.

Lemma guarded_ret {A} (describe : Exn -> string) (taskPath : string)
    (reply : Reply A) (w : World) :
  issued (guarded isAbsolute isDirectory_oracle describe taskPath (ret reply)) w = [].
Proof.
  destruct (validateTaskPath_run (Some taskPath) w) as (v & w' & E & Ht & Hb).
  unfold issued, GitHandlers.guarded, try_catch, bind. rewrite E.
  destruct v; cbn; rewrite Ht; apply drop_all.
Qed.

(** X11. The two handlers that take a commit hash check it before git
    sees it: when ['git:get-commit-files'] or ['git:get-commit-file-diff']
    runs any command at all, the hash is made of 4 to 40 hexadecimal
    digits. In particular it does not start with [-], so it cannot be
    read as an option, and it has no [:], [~] or [^] of a revision
    expression. *)
Theorem commit_hash_is_checked_before_git
    (taskPath commitHash filePath : string) (w : World) :
  (issued (handleGetCommitFiles isAbsolute isDirectory_oracle taskPath commitHash) w <> []
   -> isCommitHash commitHash = true)
  /\ (issued (handleGetCommitFileDiff isAbsolute isDirectory_oracle
                taskPath commitHash filePath) w <> []
      -> isCommitHash commitHash = true)
  /\ (isCommitHash commitHash = true ->
      (4 <= String.length commitHash <= 40)%nat
      /\ Forall (fun c => Is_true (isHexDigit c)) (list_ascii_of_string commitHash)
      /\ Js.startsWith commitHash "-" = false).
Proof.
  split; [|split].
  - intros Hi. destruct (isCommitHash commitHash) eqn:E; [done|].
    destruct Hi. unfold handleGetCommitFiles. rewrite E. apply guarded_ret.
  - intros Hi. destruct (isCommitHash commitHash) eqn:E; [done|].
    destruct Hi. unfold handleGetCommitFileDiff. rewrite E. apply guarded_ret.
  - unfold isCommitHash. intros H.
    apply andb_prop in H as [Hlen Hhex]. apply andb_prop in Hlen as [H4 H40].
    apply Nat.leb_le in H4, H40. split; [lia|].
    assert (Forall (fun c => Is_true (isHexDigit c)) (list_ascii_of_string commitHash))
      as Hall.
    { apply Forall_forall. intros c Hc. apply Is_true_true.
      rewrite forallb_forall in Hhex. apply Hhex. by apply list_elem_of_In. }
    split; [exact Hall|].
    destruct commitHash as [|c rest]; [done|].
    apply Forall_cons in Hall as [Hc _]. unfold Js.startsWith. cbn [String.prefix].
    destruct (ascii_dec "-" c) as [<-|]; [by destruct Hc|done].
Qed.

Lemma guarded_run {A} (describe : Exn -> string) (taskPath : string)
    (body : M (Reply A)) (w : World) :
  exists v w1,
    trace w1 = trace w /\ broadcasts w1 = broadcasts w
    /\ guarded isAbsolute isDirectory_oracle describe taskPath body w =
       match v with
       | Some err => (Ok (Failure err), w1)
       | None =>
           match body w1 with
           | (Ok reply, w2) => (Ok reply, w2)
           | (Throw e, w2) => (Ok (Failure (describe e)), w2)
           end
       end.
Proof.
  destruct (validateTaskPath_run (Some taskPath) w) as (v & w1 & E & Ht & Hb).
  exists v, w1. split; [done|]. split; [done|].
  unfold GitHandlers.guarded, try_catch, bind. rewrite E.
  destruct v; [done|]. by destruct (body w1) as [[?|?] ?].
Qed.

Lemma guarded_notice {A B} (describe : Exn -> string) (taskPath : string)
    (m : M A) (f : A -> B) (w : World) :
  silent m ->
  noticeIffSuccess taskPath
    (guarded isAbsolute isDirectory_oracle describe taskPath
       (r <- m ;; broadcastGitStatusChange taskPath None ;;; ret (Success (f r)))) w.
Proof.
  intros Hm.
  destruct (guarded_run describe taskPath
              (r <- m ;; broadcastGitStatusChange taskPath None ;;; ret (Success (f r))) w)
    as (v & w1 & Ht & Hb & Hg).
  unfold noticeIffSuccess, result, after. rewrite Hg. clear Hg.
  destruct v as [err|].
  { exists (Failure err). cbn. by rewrite Hb, app_nil_r. }
  specialize (Hm w1). unfold after in Hm.
  destruct (m w1) as [[r|e] w2] eqn:Em; cbn [snd] in Hm.
  - rewrite (bind_ok _ _ _ _ _ Em). exists (Success (f r)). cbn. by rewrite Hm, Hb.
  - rewrite (bind_throw _ _ _ _ _ Em). exists (Failure (describe e)). cbn.
    by rewrite Hm, Hb, app_nil_r.
Qed.

(** X12. ['git:commit'] and ['git:soft-reset'] never throw, and they
    announce a change of the status exactly when they succeeded: a reply
    of success comes with one ['git:status-changed'] broadcast for the
    task path, sent after the work was done, and a reply of failure with
    none, whichever step failed. *)
Theorem commit_and_undo_announce_success_only (taskPath message : string) (w : World) :
  noticeIffSuccess taskPath (handleCommit isAbsolute isDirectory_oracle taskPath message) w
  /\ noticeIffSuccess taskPath (handleSoftReset isAbsolute isDirectory_oracle taskPath) w.
Proof.
  split.
  - apply (guarded_notice exn_message taskPath (commit taskPath message) (fun h => h)).
    apply commit_silent.
  - apply (guarded_notice exn_message taskPath (softResetLastCommit taskPath) (fun r => r)).
    apply softResetLastCommit_silent.
Qed.

End Paths.

(** A hash that reaches git. *)
Lemma commit_hash_is_checked_before_git_witness :
  issued (handleGetCommitFiles Posix.isAbsolute anyDirectory "/repo" "abc1234") staged <> []
  /\ isCommitHash "abc1234" = true.
Proof.
  assert (issued (handleGetCommitFiles Posix.isAbsolute anyDirectory "/repo" "abc1234") staged
          <> []) as Hi by (vm_compute; discriminate).
  split; [exact Hi|].
  apply (proj1 (commit_hash_is_checked_before_git Posix.isAbsolute anyDirectory
                  "/repo" "abc1234" "a.ts" staged) Hi).
Defined.

(** A relative task path stops every handler. *)
Lemma invalid_task_path_runs_nothing_witness :
  refused "taskPath must be absolute"
    (handleCommit Posix.isAbsolute anyDirectory "repo" "fix: typo") staged.
Proof.
  apply (invalid_task_path_runs_nothing Posix.isAbsolute anyDirectory
           "repo" "taskPath must be absolute" "fix: typo" "" "" None None None staged).
  reflexivity.
Defined.

(** The commit of [staged] succeeds and is announced once. *)
Example handleCommit_staged :
  result (handleCommit Posix.isAbsolute anyDirectory "/repo" "fix: typo") staged
    = Ok (Success "abc1234")
  /\ broadcasts (after (handleCommit Posix.isAbsolute anyDirectory "/repo" "fix: typo") staged)
     = [("/repo", None)].
Proof. by vm_compute. Qed.

End HandlerFacts.

Module TextFacts.
Import StringFacts Text.

Lemma rev_append (s t : string) :
  String.rev (s +:+ t) = String.rev t +:+ String.rev s.
Proof.
  induction s as [|c s IH].
  - by rewrite append_nil_l, append_nil_r.
  - by rewrite append_cons, !rev_cons, IH, append_assoc.
Qed.

Lemma rev_involutive (s : string) : String.rev (String.rev s) = s.
Proof.
  induction s as [|c s IH]; [done|].
  by rewrite rev_cons, rev_append, IH.
Qed.

Lemma rev_empty (s : string) : String.rev s = "" -> s = "".
Proof. intros H. by rewrite <- (rev_involutive s), H. Qed.

Lemma append_empty (s t : string) : s +:+ t = "" -> s = "" /\ t = "".
Proof. destruct s; [by rewrite append_nil_l|by rewrite append_cons]. Qed.

Lemma endsTight_snoc (s : string) :
  endsTight s = true ->
  exists q d, s = q +:+ String d "" /\ Js.isSpace d = false.
Proof.
  unfold endsTight, startsTight. destruct (String.rev s) as [|d r] eqn:E; [done|].
  intros Hd. exists (String.rev r), d. split; [|by apply negb_true_iff].
  by rewrite <- (rev_involutive s), E, rev_cons.
Qed.

Lemma startsTight_cons (s : string) :
  startsTight s = true -> exists c t, s = String c t /\ Js.isSpace c = false.
Proof.
  destruct s as [|c t]; [done|]. intros H. exists c, t. split; [done|].
  by apply negb_true_iff.
Qed.

(** ** [trim] *)

Lemma trimStart_keeps (s : string) : startsTight s = true -> Js.trimStart s = s.
Proof.
  intros H. apply startsTight_cons in H as (c & t & -> & Hc).
  cbn [Js.trimStart]. by rewrite Hc.
Qed.

Lemma trimStart_suffix (a s : string) :
  startsTight s = true -> exists a', Js.trimStart (a +:+ s) = a' +:+ s.
Proof.
  intros Hs. induction a as [|c a IH].
  - exists "". by rewrite append_nil_l, trimStart_keeps.
  - rewrite append_cons. cbn [Js.trimStart]. destruct (Js.isSpace c).
    + exact IH.
    + by exists (String c a).
Qed.

Lemma trimEnd_prefix (s b : string) :
  endsTight s = true -> exists b', Js.trimEnd (s +:+ b) = s +:+ b'.
Proof.
  intros Hs. unfold Js.trimEnd. rewrite rev_append.
  destruct (trimStart_suffix (String.rev b) (String.rev s) Hs) as [b' ->].
  exists (String.rev b'). by rewrite rev_append, rev_involutive.
Qed.

Lemma trimEnd_keeps (s : string) : endsTight s = true -> Js.trimEnd s = s.
Proof.
  intros H. unfold Js.trimEnd. by rewrite trimStart_keeps, rev_involutive.
Qed.

Lemma trimEnd_drops (s : string) (c : ascii) :
  Js.isSpace c = true -> Js.trimEnd (s +:+ String c "") = Js.trimEnd s.
Proof.
  intros Hc. unfold Js.trimEnd. rewrite rev_append.
  change (String.rev (String c "")) with (String c "").
  rewrite append_cons, append_nil_l. cbn [Js.trimStart]. by rewrite Hc.
Qed.

(** The trimmed text keeps a first code unit that is not white space. *)
Lemma trimEnd_startsTight (s : string) :
  startsTight s = true -> startsTight (Js.trimEnd s) = true.
Proof.
  intros H. apply startsTight_cons in H as (c & t & -> & Hc).
  change (String c t) with (String c "" +:+ t).
  destruct (trimEnd_prefix (String c "") t) as [b' ->].
  - unfold endsTight, String.rev. cbn [String.rev_app startsTight]. by rewrite Hc.
  - rewrite append_cons. cbn [startsTight]. by rewrite Hc.
Qed.

Lemma trimStart_tight (s : string) :
  Js.trimStart s = "" \/ startsTight (Js.trimStart s) = true.
Proof.
  induction s as [|c s IH]; [by left|]. cbn [Js.trimStart].
  destruct (Js.isSpace c) eqn:Hc; [exact IH|]. right. cbn [startsTight]. by rewrite Hc.
Qed.

Lemma trim_tight (s : string) : Js.trim s = "" \/ startsTight (Js.trim s) = true.
Proof.
  unfold Js.trim. destruct (trimStart_tight s) as [->|H]; [by left|].
  right. by apply trimEnd_startsTight.
Qed.


(** A text between two code units that are not white space is its own
    trim, also when a line break follows it. *)
Lemma trim_keeps (s : string) :
  startsTight s = true -> endsTight s = true -> Js.trim s = s.
Proof. intros H1 H2. unfold Js.trim. by rewrite trimStart_keeps, trimEnd_keeps. Qed.

Lemma startsTight_append (s t : string) :
  startsTight s = true -> startsTight (s +:+ t) = true.
Proof.
  intros H. apply startsTight_cons in H as (c & u & -> & Hc).
  rewrite append_cons. cbn [startsTight]. by rewrite Hc.
Qed.

Lemma endsTight_append (s t : string) :
  endsTight t = true -> endsTight (s +:+ t) = true.
Proof.
  unfold endsTight. intros H. rewrite rev_append. by apply startsTight_append.
Qed.

Lemma trim_line (s : string) :
  startsTight s = true -> endsTight s = true -> Js.trim (s +:+ GitService.NL) = s.
Proof.
  intros H1 H2. unfold Js.trim.
  rewrite trimStart_keeps by (by apply startsTight_append).
  unfold GitService.NL. rewrite trimEnd_drops by done. by apply trimEnd_keeps.
Qed.

(** ** [split] on one code unit *)

Lemma prefix_empty (s : string) : String.prefix "" s = true.
Proof. by destruct s. Qed.

Lemma split_go_avoids (a : ascii) (s cur : string) :
  avoids a s = true ->
  Js.split_go (String a "") 0 cur s = [String.rev cur +:+ s].
Proof.
  revert cur. induction s as [|c s IH]; intros cur Hs.
  - cbn. by rewrite append_nil_r.
  - cbn [avoids] in Hs. apply andb_prop in Hs as [Hc Hs].
    apply negb_true_iff in Hc. apply Ascii.eqb_neq in Hc.
    cbn [Js.split_go String.prefix].
    destruct (ascii_dec a c) as [->|_]; [done|].
    rewrite IH by done. by rewrite rev_cons, append_assoc.
Qed.

Lemma split_go_sep (a : ascii) (s t cur : string) :
  avoids a s = true ->
  Js.split_go (String a "") 0 cur (s +:+ String a t) =
    (String.rev cur +:+ s) :: Js.split_go (String a "") 0 "" t.
Proof.
  revert cur. induction s as [|c s IH]; intros cur Hs.
  - rewrite append_nil_l, append_nil_r. cbn [Js.split_go String.prefix].
    destruct (ascii_dec a a); [|done]. by rewrite prefix_empty.
  - cbn [avoids] in Hs. apply andb_prop in Hs as [Hc Hs].
    apply negb_true_iff in Hc. apply Ascii.eqb_neq in Hc.
    rewrite append_cons. cbn [Js.split_go String.prefix].
    destruct (ascii_dec a c) as [->|_]; [done|].
    rewrite IH by done. by rewrite rev_cons, append_assoc.
Qed.

Lemma split_one (a : ascii) (s : string) :
  avoids a s = true -> Js.split s (String a "") = [s].
Proof. intros H. unfold Js.split. by rewrite split_go_avoids. Qed.

Lemma split_cons (a : ascii) (s t : string) :
  avoids a s = true ->
  Js.split (s +:+ String a t) (String a "") = s :: Js.split t (String a "").
Proof. intros H. unfold Js.split. by rewrite split_go_sep. Qed.

Lemma avoids_append (a : ascii) (s t : string) :
  avoids a (s +:+ t) = avoids a s && avoids a t.
Proof.
  induction s as [|c s IH]; [done|]. rewrite append_cons. cbn [avoids].
  by rewrite IH, andb_assoc.
Qed.


End TextFacts.

Module RendererFacts.
Import StringFacts Text TextFacts Renderer CommitArea.

Lemma length_append (s t : string) :
  String.length (s +:+ t) = (String.length s + String.length t)%nat.
Proof. induction s as [|c s IH]; [done|]. rewrite append_cons. cbn. by rewrite IH. Qed.

Lemma length_substring (n : nat) (s : string) :
  (String.length (String.substring 0 n s) <= n)%nat.
Proof.
  revert s. induction n as [|n IH]; intros [|c s]; cbn; try lia.
  specialize (IH s). lia.
Qed.

Lemma lastIndexOf_split (c : ascii) (s : string) (i : nat) :
  lastIndexOf c s = Some i ->
  s = String.substring 0 i s +:+ String c (Js.slice (S i) s)
  /\ avoids c (Js.slice (S i) s) = true.
Proof.
  revert i. induction s as [|d s IH]; intros i; cbn [lastIndexOf]; [done|].
  destruct (lastIndexOf c s) as [j|] eqn:E.
  - intros [= <-]. destruct (IH j eq_refl) as [Hs Ha]. cbn [String.substring Js.slice].
    split; [|exact Ha]. rewrite append_cons. f_equal. exact Hs.
  - destruct (Ascii.eqb_spec d c) as [->|Hne]; [|done]. intros [= <-].
    cbn [String.substring Js.slice]. split; [done|].
    clear IH. induction s as [|e s IH]; [done|]. cbn [lastIndexOf] in E.
    destruct (lastIndexOf c s); [done|].
    destruct (Ascii.eqb e c) eqn:Ee; [done|]. cbn [avoids]. rewrite Ee. cbn. by apply IH.
Qed.

Lemma lastIndexOf_none (c : ascii) (s : string) :
  lastIndexOf c s = None -> avoids c s = true.
Proof.
  induction s as [|e s IH]; [done|]. cbn [lastIndexOf].
  destruct (lastIndexOf c s); [done|].
  destruct (Ascii.eqb e c) eqn:Ee; [done|]. intros _. cbn [avoids]. rewrite Ee. cbn. by apply IH.
Qed.

(** X13. [splitPath] cuts a path at its last slash and loses nothing:
    the file name has no slash, and the path is the directory, a slash
    and the file name; for a path without a slash the directory is empty
    and the file name is the path. *)
Theorem splitPath_cuts_at_the_last_slash (filePath : string) :
  let parts := splitPath filePath in
  avoids "/" (filename parts) = true
  /\ filePath = (if avoids "/" filePath then filename parts
                 else directory parts +:+ "/" +:+ filename parts)
  /\ (avoids "/" filePath = true -> directory parts = "").
Proof.
  cbv zeta. unfold splitPath.
  destruct (lastIndexOf "/" filePath) as [i|] eqn:E.
  - destruct (lastIndexOf_split _ _ _ E) as [Hs Ha]. cbn [filename directory].
    assert (avoids "/" filePath = false) as Hno.
    { rewrite Hs, avoids_append. cbn [avoids]. apply andb_false_r. }
    rewrite Hno. split; [exact Ha|]. split; [exact Hs|done].
  - apply lastIndexOf_none in E. cbn [filename directory]. rewrite E. by split.
Qed.

Lemma splitPath_cuts_at_the_last_slash_witness :
  avoids "/" "README.md" = true /\ directory (splitPath "README.md") = "".
Proof.
  split; [reflexivity|].
  apply (proj2 (proj2 (splitPath_cuts_at_the_last_slash "README.md"))). reflexivity.
Defined.

Example splitPath_nested :
  splitPath "src/main/ipc/gitIpc.ts" = mkPathParts "gitIpc.ts" "src/main/ipc".
Proof. reflexivity. Qed.

Lemma firstLineCapped_short (raw : string) :
  (String.length (firstLineCapped raw) <= 123)%nat.
Proof.
  unfold firstLineCapped.
  destruct (120 <? String.length _)%nat eqn:E.
  - rewrite length_append. pose proof (length_substring 120 (default raw
      (List.find (fun l => (0 <? String.length (Js.trim l))%nat)
         (Js.split raw GitService.NL)))) as H.
    cbn [String.length]. lia.
  - apply Nat.ltb_ge in E. lia.
Qed.

(** X14. What [friendlyGitError] shows is never longer than 123 code
    units, however long the raw error is: it is one of the seven fixed
    messages, or a line of the raw error cut after 120 code units and
    followed by three dots. *)
Theorem friendlyGitError_is_short (raw : string) :
  (String.length (friendlyGitError raw) <= 123)%nat.
Proof.
  unfold friendlyGitError.
  repeat (destruct (_ || _); [cbn; lia|]).
  repeat (destruct (Js.includes _ _); [cbn; lia|]).
  apply firstLineCapped_short.
Qed.

End RendererFacts.

Module CommitAreaFacts.
Import Trace TraceFacts OccursFacts StringFacts Text TextFacts.
Import GitService GitServiceOps GitHandlers HandlerProps OpsCommands PushCommands.
Import Renderer CommitArea.

Lemma trim_endsTight (s : string) : Js.trim s = "" \/ endsTight (Js.trim s) = true.
Proof.
  unfold Js.trim, Js.trimEnd, endsTight. rewrite rev_involutive.
  destruct (trimStart_tight (String.rev (Js.trimStart s))) as [->|H]; [by left|by right].
Qed.

Lemma messageOf_tight (commitMessage description : string) :
  Js.trim commitMessage <> "" ->
  startsTight (messageOf commitMessage description) = true
  /\ endsTight (messageOf commitMessage description) = true.
Proof.
  intros Hm.
  assert (startsTight (Js.trim commitMessage) = true) as Hs
    by (by destruct (trim_tight commitMessage)).
  assert (endsTight (Js.trim commitMessage) = true) as He
    by (by destruct (trim_endsTight commitMessage)).
  unfold messageOf. destruct (Js.trim description) as [|c d] eqn:Ed; cbn [Js.truthy].
  - by split.
  - split; [by apply startsTight_append|].
    do 3 apply endsTight_append. rewrite <- Ed.
    destruct (trim_endsTight description) as [H|H]; [congruence|done].
Qed.

(** X15. The commit area never sends a message that [commit] refuses as
    empty. When the commit button is enabled the subject has something
    other than white space, and the message sent, the trimmed subject,
    or the trimmed subject, an empty line and the trimmed description,
    has no white space around it and is not blank; so [commit] runs
    [git commit -m] with exactly that message. *)
Theorem commit_area_message_is_never_blank
    (hasStagedFiles isCommitting : bool) (commitMessage description taskPath : string)
    (w : World) :
  let message := messageOf commitMessage description in
  canCommit hasStagedFiles commitMessage isCommitting = true ->
  Js.trim message = message
  /\ message <> ""
  /\ head (issued (commit taskPath message) w) = Some (commitCmd taskPath message).
Proof.
  cbv zeta. unfold canCommit. intros Hc.
  apply andb_prop in Hc as [Hc _]. apply andb_prop in Hc as [_ Hlen].
  apply Nat.ltb_lt in Hlen.
  assert (Js.trim commitMessage <> "") as Hm.
  { intros E. rewrite E in Hlen. cbn in Hlen. lia. }
  destruct (messageOf_tight commitMessage description Hm) as [Hs He].
  assert (Js.trim (messageOf commitMessage description) = messageOf commitMessage description)
    as Ht by (by apply trim_keeps).
  assert (messageOf commitMessage description <> "") as Hne.
  { intros E. rewrite E in Hs. discriminate Hs. }
  split; [exact Ht|]. split; [exact Hne|].
  pose proof (CommitFacts.commit_run taskPath (messageOf commitMessage description) w) as Hrun.
  rewrite Ht in Hrun. specialize (Hrun Hne).
  destruct (exec_oracle (oracles w) (now w) _);
    apply outcome in Hrun as [_ Hi]; by rewrite Hi.
Qed.

(** A subject with blanks around it and a description. *)
Lemma commit_area_message_is_never_blank_witness :
  canCommit true " fix: typo " false = true
  /\ messageOf " fix: typo " ("in the readme" +:+ NL)
     = "fix: typo" +:+ NL +:+ NL +:+ "in the readme"
  /\ head (issued (commit "/repo" (messageOf " fix: typo " ("in the readme" +:+ NL))) staged)
     = Some (commitCmd "/repo" ("fix: typo" +:+ NL +:+ NL +:+ "in the readme")).
Proof.
  split; [reflexivity|]. split; [reflexivity|].
  apply (commit_area_message_is_never_blank true false " fix: typo "
           ("in the readme" +:+ NL) "/repo" staged).
  reflexivity.
Defined.

(** ** A phrase of the error text survives trimming and lower case *)

Lemma includes_trim (s p : string) :
  startsTight p = true -> endsTight p = true ->
  Js.includes s p = true -> Js.includes (Js.trim s) p = true.
Proof.
  intros Hs He H. apply includes_append in H as (a & b & ->).
  apply includes_append. unfold Js.trim.
  destruct (trimStart_suffix a (p +:+ b)) as [a' ->]; [by apply startsTight_append|].
  rewrite <- append_assoc.
  destruct (trimEnd_prefix (a' +:+ p) b) as [b' ->]; [by apply endsTight_append|].
  exists a', b'. by rewrite append_assoc.
Qed.

Lemma isSpace_lower (c : ascii) : Js.isSpace (lower c) = Js.isSpace c.
Proof. by destruct c as [[] [] [] [] [] [] [] []]. Qed.

Lemma toLowerCase_append (s t : string) :
  toLowerCase (s +:+ t) = toLowerCase s +:+ toLowerCase t.
Proof.
  induction s as [|c s IH]; [done|]. rewrite append_cons. cbn [toLowerCase].
  by rewrite IH, append_cons.
Qed.

Lemma toLowerCase_rev (s : string) :
  toLowerCase (String.rev s) = String.rev (toLowerCase s).
Proof.
  induction s as [|c s IH]; [done|]. cbn [toLowerCase].
  by rewrite !rev_cons, toLowerCase_append, IH.
Qed.

Lemma toLowerCase_trimStart (s : string) :
  toLowerCase (Js.trimStart s) = Js.trimStart (toLowerCase s).
Proof.
  induction s as [|c s IH]; [done|]. cbn [toLowerCase Js.trimStart].
  rewrite isSpace_lower. by destruct (Js.isSpace c).
Qed.

Lemma toLowerCase_trim (s : string) :
  toLowerCase (Js.trim s) = Js.trim (toLowerCase s).
Proof.
  unfold Js.trim, Js.trimEnd.
  by rewrite toLowerCase_rev, toLowerCase_trimStart, toLowerCase_rev, toLowerCase_trimStart.
Qed.

Section Paths.

Variable isAbsolute : string -> bool.
Variable isDirectory_oracle : nat -> string -> option bool.

(** X16. A push that the remote rejects as not fast-forward is
    explained to the user. When [git push] fails, its standard error
    says [non-fast-forward] in whatever case, and nothing in it tells of
    a missing upstream, then no other command runs, ['git:push'] replies
    with the trimmed standard error, and the commit area shows ['Remote
    has new commits. Pull before pushing.'] *)
Theorem rejected_push_is_explained
    (taskPath stderr : string) (e : ExecError) (w : World) :
  validAt isAbsolute isDirectory_oracle taskPath w ->
  exec_oracle (oracles w) (S (now w)) (plainPush taskPath) = inl e ->
  Sys.stderr e = Some stderr ->
  Js.includes (toLowerCase stderr) "non-fast-forward" = true ->
  indicatesNoUpstream (ExecFailure e) = false ->
  result (handlePush isAbsolute isDirectory_oracle taskPath) w
    = Ok (Failure (Js.trim stderr))
  /\ issued (handlePush isAbsolute isDirectory_oracle taskPath) w = [plainPush taskPath]
  /\ toastOf (Js.trim stderr) = "Remote has new commits. Pull before pushing.".
Proof.
  intros Hv He Hs Hinc Hup.
  assert (Js.includes (toLowerCase (Js.trim stderr)) "non-fast-forward" = true) as Ht.
  { rewrite toLowerCase_trim. by apply includes_trim. }
  assert (Js.trim stderr <> "") as Hne.
  { intros E. rewrite E in Ht. discriminate Ht. }
  destruct (HandlerFacts.guarded_valid isAbsolute isDirectory_oracle stderrOrMessage taskPath
              (output <- push taskPath ;; ret (Success output)) w Hv)
    as (w1 & Htr & _ & Hnow & Ho & Hg).
  pose proof (PushFacts.push_run taskPath w1) as Hp. cbv zeta in Hp.
  rewrite Ho, Hnow, He, Hup in Hp.
  assert (handlePush isAbsolute isDirectory_oracle taskPath w
          = (Ok (Failure (Js.trim stderr)), run [plainPush taskPath] w1)) as Hrun.
  { unfold handlePush. rewrite Hg.
    erewrite (try_catch_throw _ _ _ (ExecFailure e)); cycle 1.
    { erewrite bind_throw; [reflexivity|exact Hp]. }
    unfold ret, stderrOrMessage. cbn [exn_stderr]. rewrite Hs.
    change (default "" (Some stderr)) with stderr. cbv zeta.
    destruct (Js.trim stderr); [congruence|done]. }
  split; [|split].
  - unfold result. by rewrite Hrun.
  - apply issued_trace. unfold after. rewrite Hrun. cbn [snd].
    by rewrite trace_run, Htr.
  - unfold toastOf. destruct (Js.trim stderr) eqn:E; [done|]. cbn [Js.truthy].
    unfold friendlyGitError. by rewrite Ht.
Qed.

End Paths.

Lemma rejected_push_is_explained_witness :
  result (handlePush Posix.isAbsolute anyDirectory "/repo") rejected
    = Ok (Failure (Js.trim "! [rejected] main -> main (non-fast-forward)"))
  /\ issued (handlePush Posix.isAbsolute anyDirectory "/repo") rejected = [plainPush "/repo"]
  /\ toastOf (Js.trim "! [rejected] main -> main (non-fast-forward)")
     = "Remote has new commits. Pull before pushing.".
Proof.
  eapply (rejected_push_is_explained Posix.isAbsolute anyDirectory "/repo" _ _ rejected);
    reflexivity.
Defined.

End CommitAreaFacts.

Module DecimalFacts.
Import Trace TraceFacts StringFacts Text TextFacts.
Import GitService GitServiceOps GitIpc CountCommands.

Lemma digits_step (acc : option Z) (c : ascii) (s : string) (d : Z) :
  Js.digit c = Some d ->
  Js.digits acc (String c s) = Js.digits (Some (10 * default 0 acc + d)) s.
Proof. intros H. cbn [Js.digits]. by rewrite H. Qed.

Lemma digits_acc (u : Decimal.uint) (acc : positive) :
  Js.digits (Some (Zpos acc)) (NilEmpty.string_of_uint u)
  = Some (Zpos (Pos.of_uint_acc u acc)).
Proof.
  revert acc.
  induction u as [|u IH|u IH|u IH|u IH|u IH|u IH|u IH|u IH|u IH|u IH]; intros acc;
    cbn [NilEmpty.string_of_uint Pos.of_uint_acc]; [done|..];
    (erewrite digits_step by reflexivity); cbn [default];
    rewrite <- IH; f_equal; f_equal; unfold id; lia.
Qed.

Lemma digits_zero (u : Decimal.uint) :
  Js.digits (Some 0) (NilEmpty.string_of_uint u) = Some (Z.of_N (Pos.of_uint u)).
Proof.
  induction u as [|u IH|u IH|u IH|u IH|u IH|u IH|u IH|u IH|u IH|u IH];
    cbn [NilEmpty.string_of_uint Pos.of_uint]; [done|..];
    (erewrite digits_step by reflexivity); cbn [default];
    first [exact IH | apply digits_acc].
Qed.

Lemma digits_none (u : Decimal.uint) :
  u <> Decimal.Nil ->
  Js.digits None (NilEmpty.string_of_uint u) = Some (Z.of_N (Pos.of_uint u)).
Proof.
  intros Hu. rewrite <- digits_zero. destruct u; [done|..]; reflexivity.
Qed.

Lemma to_uint_not_nil (p : positive) : Pos.to_uint p <> Decimal.Nil.
Proof.
  intros E. pose proof (DecimalPos.Unsigned.of_to p) as H. rewrite E in H. discriminate H.
Qed.

Lemma digits_pos (p : positive) :
  Js.digits None (NilEmpty.string_of_uint (Pos.to_uint p)) = Some (Zpos p).
Proof.
  rewrite digits_none by apply to_uint_not_nil. by rewrite DecimalPos.Unsigned.of_to.
Qed.

(** [parseInt] reads back the decimal of an integer. *)
Lemma parseInt_ofZ (z : Z) : Js.parseInt (Js.ofZ z) = Some z.
Proof.
  destruct z as [|p|p]; [reflexivity|..]; cbn [Js.ofZ].
  - rewrite <- digits_pos. generalize (to_uint_not_nil p).
    destruct (Pos.to_uint p); [done|..]; reflexivity.
  - unfold Js.parseInt. change (Js.trimStart (String "-" ?s)) with (String "-" s).
    cbv iota. by rewrite digits_pos.
Qed.

(** ** Text without white space *)

Lemma chars_append (s t : string) :
  list_ascii_of_string (s +:+ t) = list_ascii_of_string s ++ list_ascii_of_string t.
Proof. induction s as [|c s IH]; [done|]. rewrite append_cons. cbn. by rewrite IH. Qed.

Lemma chars_rev (s : string) :
  list_ascii_of_string (String.rev s) = rev (list_ascii_of_string s).
Proof.
  induction s as [|c s IH]; [done|]. rewrite rev_cons, chars_append, IH. done.
Qed.

Lemma solid_startsTight (s : string) :
  s <> "" -> Forall (fun c => Js.isSpace c = false) (list_ascii_of_string s) ->
  startsTight s = true.
Proof.
  destruct s as [|c s]; [done|]. intros _ H. apply Forall_cons in H as [Hc _].
  cbn [startsTight]. by rewrite Hc.
Qed.

Lemma solid_endsTight (s : string) :
  s <> "" -> Forall (fun c => Js.isSpace c = false) (list_ascii_of_string s) ->
  endsTight s = true.
Proof.
  intros Hne H. unfold endsTight. apply solid_startsTight.
  - intros E. by apply rev_empty in E.
  - rewrite chars_rev. by apply Forall_rev.
Qed.

Lemma uint_solid (u : Decimal.uint) :
  Forall (fun c => Js.isSpace c = false)
    (list_ascii_of_string (NilEmpty.string_of_uint u)).
Proof. induction u; cbn [NilEmpty.string_of_uint list_ascii_of_string]; by constructor. Qed.

Lemma ofZ_solid (z : Z) :
  Js.ofZ z <> "" /\ Forall (fun c => Js.isSpace c = false) (list_ascii_of_string (Js.ofZ z)).
Proof.
  destruct z as [|p|p]; cbn [Js.ofZ].
  - split; [done|]. by repeat constructor.
  - split; [|apply uint_solid]. generalize (to_uint_not_nil p). by destruct (Pos.to_uint p).
  - split; [done|]. cbn [list_ascii_of_string]. constructor; [done|apply uint_solid].
Qed.

(** The decimal of an integer is its own trim, also with the line break
    git prints after it. *)
Lemma trim_ofZ_line (z : Z) : Js.trim (Js.ofZ z +:+ GitService.NL) = Js.ofZ z.
Proof.
  destruct (ofZ_solid z) as [Hne Hs].
  apply trim_line; [by apply solid_startsTight|by apply solid_endsTight].
Qed.

Lemma count_read_back (z : Z) :
  Js.orZero (Js.parseInt (Js.trim (Js.ofZ z +:+ GitService.NL))) = z.
Proof. by rewrite trim_ofZ_line, parseInt_ofZ. Qed.

(** ** [split(/\s+/)] *)

Lemma splitSpaces_go_solid (inrun : bool) (cur s : string) :
  Forall (fun c => Js.isSpace c = false) (list_ascii_of_string s) ->
  s <> "" \/ inrun = false ->
  Js.splitSpaces_go inrun cur s = [String.rev cur +:+ s].
Proof.
  revert inrun cur. induction s as [|c s IH]; intros inrun cur Hs Hne.
  - destruct Hne as [Hne| ->]; [done|]. cbn. by rewrite append_nil_r.
  - cbn [list_ascii_of_string] in Hs. apply Forall_cons in Hs as [Hc Hs].
    cbn [Js.splitSpaces_go]. rewrite Hc, IH by auto.
    by rewrite rev_cons, append_assoc.
Qed.

Lemma splitSpaces_go_gap (cur s t : string) (sp : ascii) :
  Forall (fun c => Js.isSpace c = false) (list_ascii_of_string s) ->
  Js.isSpace sp = true ->
  Js.splitSpaces_go false cur (s +:+ String sp t) =
    (String.rev cur +:+ s) :: Js.splitSpaces_go true "" t.
Proof.
  revert cur. induction s as [|c s IH]; intros cur Hs Hsp.
  - rewrite append_nil_l, append_nil_r. cbn [Js.splitSpaces_go]. by rewrite Hsp.
  - cbn [list_ascii_of_string] in Hs. apply Forall_cons in Hs as [Hc Hs].
    rewrite append_cons. cbn [Js.splitSpaces_go]. rewrite Hc, IH by done.
    by rewrite rev_cons, append_assoc.
Qed.

Lemma readLeftRight_line (left right : Z) :
  readLeftRight (leftRightLine left right) = (right, left).
Proof.
  destruct (ofZ_solid left) as [Hl Hls]. destruct (ofZ_solid right) as [Hr Hrs].
  unfold readLeftRight, leftRightLine.
  rewrite <- !append_assoc. rewrite trim_line; cycle 1.
  { rewrite append_assoc. apply startsTight_append. by apply solid_startsTight. }
  { apply endsTight_append. by apply solid_endsTight. }
  unfold Js.splitSpaces, TAB. rewrite append_assoc, append_cons, append_nil_l.
  rewrite splitSpaces_go_gap by done. rewrite splitSpaces_go_solid by auto.
  cbn [length Nat.leb lookup list_lookup String.rev String.rev_app].
  rewrite !append_nil_l.
  unfold orZeroString.
  destruct (Js.ofZ right) eqn:Er; [done|]. destruct (Js.ofZ left) eqn:El; [done|].
  cbn [Js.truthy]. rewrite <- Er, <- El. by rewrite !parseInt_ofZ.
Qed.

(** X17. The counts git prints are read back exactly, as long as they
    are counts a number holds exactly (at most [MAX_SAFE_INTEGER]). When
    [git rev-list --count @{upstream}..HEAD] prints the decimal of [k]
    and a line break, the ahead count [getLog] computes is [k], after
    that one command. When
    [git rev-list --left-right --count @{upstream}...HEAD] prints the
    commits only the upstream has, a tab and the commits only HEAD has,
    the branch status has the second number as [ahead] and the first as
    [behind]. *)
Theorem counts_are_read_back
    (GIT taskPath branch : string) (k left right : Z) (w : World) :
  safeCount k -> safeCount left -> safeCount right ->
  (exec_oracle (oracles w) (now w) (upstreamCount taskPath)
     = inr (Js.ofZ k +:+ NL) ->
   result (computeAheadCount taskPath) w = Ok k
   /\ issued (computeAheadCount taskPath) w = [upstreamCount taskPath])
  /\ (exec_oracle (oracles w) (now w) (leftRight GIT taskPath)
        = inr (leftRightLine left right) ->
      result (aheadBehind GIT taskPath branch) w = Ok (right, left)
      /\ issued (aheadBehind GIT taskPath branch) w = [leftRight GIT taskPath]).
Proof.
  intros _ _ _. split.
  - intros H. apply outcome. unfold computeAheadCount.
    erewrite try_catch_ok; [reflexivity|]. unfold aheadOfUpstream.
    erewrite bind_ok; [|apply execFileAsync_ok; exact H].
    unfold ret. by rewrite count_read_back.
  - intros H. apply outcome. unfold aheadBehind.
    erewrite try_catch_ok; [reflexivity|]. unfold againstUpstream.
    erewrite bind_ok; [|apply execFileAsync_ok; exact H].
    unfold ret. by rewrite readLeftRight_line.
Qed.

(** Three ahead and one behind. *)
Lemma counts_are_read_back_witness :
  result (computeAheadCount "/repo") diverged = Ok 3
  /\ result (aheadBehind "git" "/repo" "topic") diverged = Ok (3, 1).
Proof.
  assert (safeCount 3 /\ safeCount 1) as [H3 H1'] by (unfold safeCount, MAX_SAFE_INTEGER; lia).
  destruct (counts_are_read_back "git" "/repo" "topic" 3 1 3 diverged H3 H1' H3)
    as [H1 H2].
  split; [apply H1; reflexivity|apply H2; reflexivity].
Defined.


End DecimalFacts.

Module TreeFacts.
Import Trace TraceFacts StringFacts Text TextFacts DecimalFacts.
Import GitService GitServiceOps TreeOutput.

Lemma solid_avoids (a : ascii) (s : string) :
  Js.isSpace a = true ->
  Forall (fun c => Js.isSpace c = false) (list_ascii_of_string s) ->
  avoids a s = true.
Proof.
  intros Ha. induction s as [|c s IH]; [done|]. cbn [list_ascii_of_string avoids].
  intros H. apply Forall_cons in H as [Hc Hs]. rewrite IH by done. rewrite andb_true_r.
  apply negb_true_iff, Ascii.eqb_neq. intros ->. congruence.
Qed.

Lemma printedCount_avoids (a : ascii) (n : option Z) :
  Js.isSpace a = true -> avoids a (printedCount n) = true.
Proof.
  intros Ha. destruct n as [k|]; cbn [printedCount].
  - apply solid_avoids; [done|]. apply ofZ_solid.
  - cbn [avoids]. rewrite andb_true_r. apply negb_true_iff, Ascii.eqb_neq.
    intros <-. discriminate Ha.
Qed.

Lemma printedCount_tight (n : option Z) : startsTight (printedCount n) = true.
Proof.
  destruct n as [k|]; [|done]. cbn [printedCount].
  destruct (ofZ_solid k). by apply solid_startsTight.
Qed.

Lemma statCount_printed (n : option Z) :
  statCount (Some (printedCount n)) = default 0 n.
Proof.
  destruct n as [k|]; [|done]. cbn [printedCount statCount].
  assert (Js.ofZ k <> "-") as Hne.
  { intros E. pose proof (parseInt_ofZ k) as H. rewrite E in H. discriminate H. }
  apply String.eqb_neq in Hne. rewrite Hne.
  destruct (Js.ofZ k) eqn:E; [by destruct (ofZ_solid k)|]. cbn [Js.truthy].
  rewrite <- E. by rewrite parseInt_ofZ.
Qed.

(** ** Lines *)

Lemma unlines_join (ls : list string) :
  ls <> [] -> unlines ls = Js.join NL ls +:+ NL.
Proof.
  induction ls as [|l ls IH]; [done|]. intros _.
  change (unlines (l :: ls)) with (l +:+ NL +:+ unlines ls).
  destruct ls as [|l2 ls].
  - change (unlines []) with "". by rewrite append_nil_r.
  - rewrite IH by done. rewrite (join_cons NL l) by done. by rewrite !append_assoc.
Qed.

Lemma join_tight (ls : list string) :
  ls <> [] ->
  Forall (fun l => startsTight l = true /\ endsTight l = true) ls ->
  startsTight (Js.join NL ls) = true /\ endsTight (Js.join NL ls) = true.
Proof.
  induction ls as [|l ls IH]; [done|]. intros _ H.
  apply Forall_cons in H as [[Hs He] Hls].
  destruct ls as [|l2 ls]; [done|].
  rewrite join_cons by done. split; [by apply startsTight_append|].
  do 2 apply endsTight_append. by apply IH.
Qed.

Lemma split_join (ls : list string) :
  ls <> [] ->
  Forall (fun l => avoids "010" l = true) ls ->
  Js.split (Js.join NL ls) NL = ls.
Proof.
  induction ls as [|l ls IH]; [done|]. intros _ H. apply Forall_cons in H as [Hl Hls].
  destruct ls as [|l2 ls].
  - by apply split_one.
  - rewrite join_cons by done. unfold NL at 1. rewrite append_cons, append_nil_l.
    rewrite split_cons by done. f_equal. by apply IH.
Qed.

Lemma nonEmptyLines_unlines (ls : list string) :
  Forall (fun l => avoids "010" l = true /\ startsTight l = true /\ endsTight l = true) ls ->
  nonEmptyLines (unlines ls) = ls.
Proof.
  intros H. destruct ls as [|l ls]; [done|]. unfold nonEmptyLines.
  rewrite unlines_join by done.
  destruct (join_tight (l :: ls)) as [Hs He]; [done| |].
  { eapply Forall_impl; [exact H|]. by intros x (_ & ? & ?). }
  rewrite trim_line by done. rewrite split_join; cycle 1; [done| |].
  { eapply Forall_impl; [exact H|]. by intros x (? & _). }
  clear Hs He. induction H as [|x xs (_ & Hx & _) _ IH]; [done|].
  rewrite filter_cons_True; [by rewrite IH|]. by destruct x.
Qed.

(** ** Fields *)

Lemma plain_parts (s : string) :
  plain s = true ->
  avoids "009" s = true /\ avoids "010" s = true
  /\ startsTight s = true /\ endsTight s = true.
Proof.
  unfold plain. intros H. apply andb_prop in H as [H He].
  apply andb_prop in H as [H Hs]. by apply andb_prop in H as [Ht Hn].
Qed.

Lemma split_two (a b : string) :
  avoids "009" a = true -> avoids "009" b = true ->
  Js.split (a +:+ TAB +:+ b) TAB = [a; b].
Proof.
  intros Ha Hb. unfold TAB. rewrite append_cons, append_nil_l.
  rewrite split_cons by done. by rewrite split_one.
Qed.

Lemma split_three (a b c : string) :
  avoids "009" a = true -> avoids "009" b = true -> avoids "009" c = true ->
  Js.split (a +:+ TAB +:+ b +:+ TAB +:+ c) TAB = [a; b; c].
Proof.
  intros Ha Hb Hc. unfold TAB at 1. rewrite append_cons, append_nil_l.
  rewrite split_cons by done. by rewrite split_two.
Qed.

Lemma commitFileOf_numstatLine (m : gmap string string) (c : TreeChange) :
  plain (tc_path c) = true ->
  commitFileOf m (numstatLine c) =
    mkCommitFile (tc_path c) (default "modified" (m !! tc_path c))
      (default 0 (tc_added c)) (default 0 (tc_deleted c)).
Proof.
  intros Hp. apply plain_parts in Hp as (Hp & _).
  unfold commitFileOf, numstatLine.
  rewrite split_three by (try apply printedCount_avoids; done).
  cbn [drop lookup list_lookup]. by rewrite !statCount_printed.
Qed.

Lemma statusMapOf_step (m : gmap string string) (c : TreeChange) :
  plain (tc_letter c) = true -> plain (tc_path c) = true ->
  (let fields := Js.split (nameStatusLine c) TAB in
   <[default "" (last (tail fields)) := statusOfLetter (default "" (head fields))]> m)
  = <[tc_path c := statusOfLetter (tc_letter c)]> m.
Proof.
  intros Hl Hp. apply plain_parts in Hl as (Hl & _). apply plain_parts in Hp as (Hp & _).
  cbv zeta. unfold nameStatusLine. by rewrite split_two.
Qed.

Lemma statusMapOf_fold (cs : list TreeChange) (m : gmap string string) :
  Forall (fun c => plain (tc_letter c) = true /\ plain (tc_path c) = true) cs ->
  fold_left
    (fun m line =>
       let fields := Js.split line TAB in
       let code := default "" (head fields) in
       let filePath := default "" (last (tail fields)) in
       <[filePath := statusOfLetter code]> m)
    (map nameStatusLine cs) m
  = fold_left (fun m c => <[tc_path c := statusOfLetter (tc_letter c)]> m) cs m.
Proof.
  intros H. revert m. induction H as [|c cs [Hl Hp] _ IH]; intros m; [done|].
  cbn [map fold_left]. rewrite <- IH. f_equal. by apply statusMapOf_step.
Qed.

Lemma fold_insert_other (cs : list TreeChange) (m : gmap string string) (p : string) :
  p ∉ map tc_path cs ->
  fold_left (fun m c => <[tc_path c := statusOfLetter (tc_letter c)]> m) cs m !! p = m !! p.
Proof.
  revert m. induction cs as [|c cs IH]; intros m Hp; [done|].
  cbn [map fold_left] in *. apply not_elem_of_cons in Hp as [Hne Hp].
  rewrite IH by done. by rewrite lookup_insert_ne.
Qed.

Lemma fold_insert_lookup (cs : list TreeChange) (m : gmap string string) (c : TreeChange) :
  NoDup (map tc_path cs) -> c ∈ cs ->
  fold_left (fun m c => <[tc_path c := statusOfLetter (tc_letter c)]> m) cs m !! tc_path c
  = Some (statusOfLetter (tc_letter c)).
Proof.
  revert m. induction cs as [|c0 cs IH]; intros m Hnd Hc; [by apply elem_of_nil in Hc|].
  cbn [map fold_left] in *. apply NoDup_cons in Hnd as [Hfresh Hnd].
  apply elem_of_cons in Hc as [->|Hc].
  - rewrite fold_insert_other by done. by rewrite lookup_insert_eq.
  - by apply IH.
Qed.

(** X18. [getCommitFiles] reads the report of [git diff-tree] back
    whole. When the two commands print, for the files of a commit, the
    numstat lines (added, tab, deleted, tab, path) and the name-status
    lines (letter, tab, path: one path per line), the paths being
    distinct, letters and paths free of tabs, line breaks and white
    space at either end, and the counts at most [MAX_SAFE_INTEGER], the
    call resolves to one entry for each file, in the order of the
    report, with its path, its counts (a binary file, whose counts are
    printed as [-], has zero for both) and the status of its letter:
    [A] added, [D] deleted, [R...] renamed, anything else modified. *)
Theorem getCommitFiles_reads_the_report
    (taskPath commitHash : string) (changes : list TreeChange) (w : World) :
  Forall readable changes ->
  NoDup (map tc_path changes) ->
  exec_oracle (oracles w) (now w) (mkCmd "git" (diffTree "--numstat" commitHash) taskPath)
    = inr (unlines (map numstatLine changes)) ->
  exec_oracle (oracles w) (S (now w))
    (mkCmd "git" (diffTree "--name-status" commitHash) taskPath)
    = inr (unlines (map nameStatusLine changes)) ->
  result (getCommitFiles taskPath commitHash) w = Ok (map entryOf changes).
Proof.
  intros Hreadable Hnd Hnum Hname.
  assert (Forall (fun c => plain (tc_letter c) = true /\ plain (tc_path c) = true) changes)
    as Hplain.
  { eapply Forall_impl; [exact Hreadable|]. by intros c (Hl & Hp & _). }
  unfold result, getCommitFiles.
  erewrite bind_ok; [|apply execFileAsync_ok; exact Hnum].
  erewrite bind_ok; [|apply execFileAsync_ok; exact Hname].
  unfold ret. cbn [fst]. f_equal.
  rewrite !nonEmptyLines_unlines; cycle 1.
  { apply Forall_fmap. eapply Forall_impl; [exact Hplain|]. intros c [_ Hp].
    unfold compose. cbv beta.
    apply plain_parts in Hp as (_ & Hpn & _ & Hpe).
    unfold numstatLine. rewrite !avoids_append, !printedCount_avoids, Hpn by done.
    split; [done|].
    split; [apply startsTight_append, printedCount_tight|by do 4 apply endsTight_append]. }
  { apply Forall_fmap. eapply Forall_impl; [exact Hplain|]. intros c [Hl Hp].
    unfold compose. cbv beta.
    apply plain_parts in Hl as (_ & Hln & Hls & _).
    apply plain_parts in Hp as (_ & Hpn & _ & Hpe).
    unfold nameStatusLine. rewrite !avoids_append, Hln, Hpn.
    split; [done|]. split; [by apply startsTight_append|by do 2 apply endsTight_append]. }
  unfold statusMapOf. rewrite statusMapOf_fold by done.
  rewrite map_map. apply map_ext_in. intros c Hc.
  apply list_elem_of_In in Hc.
  assert (plain (tc_path c) = true) as Hp.
  { rewrite Forall_forall in Hplain. by apply Hplain. }
  rewrite commitFileOf_numstatLine by done.
  by rewrite fold_insert_lookup.
Qed.

(** The report of [sample] is read back. *)
Lemma getCommitFiles_reads_the_report_witness :
  result (getCommitFiles "/repo" "abc1234") sampleCommit = Ok (map entryOf sample).
Proof.
  apply (getCommitFiles_reads_the_report "/repo" "abc1234" sample sampleCommit).
  - repeat (constructor;
            [unfold readable, CountCommands.safeCount, CountCommands.MAX_SAFE_INTEGER;
             cbn [tc_letter tc_path tc_added tc_deleted from_option];
             repeat split; (reflexivity || lia)|]).
    constructor.
  - apply (bool_decide_unpack _). by vm_compute.
  - reflexivity.
  - reflexivity.
Defined.


End TreeFacts.

Module UntrackedFacts.
Import Trace TraceFacts StringFacts Text TextFacts.
Import GitService GitServiceOps StatusCommands UntrackedFile.







End UntrackedFacts.

Module HeaderFacts.
Import StringFacts GitService DiffProps HeaderLookalike.

Ltac compare_chars :=
  repeat match goal with
         | |- context [ascii_dec ?a ?b] =>
             let d := eval vm_compute in (bool_decide (a = b)) in
             match d with
             | true => destruct (ascii_dec a b) as [_|Hne]; [|by destruct Hne]
             | false => destruct (ascii_dec a b) as [Heq|_]; [discriminate Heq|]
             end
         end.

Lemma headers_of_deletion (content : string) :
  existsb (fun p => Js.startsWith (String "-" content) p) DIFF_HEADER_PREFIXES
  = Js.startsWith content "-- ".
Proof.
  unfold DIFF_HEADER_PREFIXES, Js.startsWith. cbn [existsb String.prefix].
  compare_chars. cbn [orb]. by rewrite orb_false_r.
Qed.

Lemma headers_of_addition (content : string) :
  existsb (fun p => Js.startsWith (String "+" content) p) DIFF_HEADER_PREFIXES
  = Js.startsWith content "++ ".
Proof.
  unfold DIFF_HEADER_PREFIXES, Js.startsWith. cbn [existsb String.prefix].
  compare_chars. cbn [orb]. by rewrite orb_false_r.
Qed.

Lemma headers_of_context (content : string) :
  existsb (fun p => Js.startsWith (String " " content) p) DIFF_HEADER_PREFIXES = false.
Proof.
  unfold DIFF_HEADER_PREFIXES, Js.startsWith. cbn [existsb String.prefix].
  compare_chars. done.
Qed.

(** X20. The header test of [parseDiffLines] also takes away lines of
    the hunks that look like headers. A deleted line is kept, as a
    deletion of its text, unless the text starts with two dashes and a
    space: then the line starts like the [--- a/file] header and is
    dropped. An added line is kept unless its text starts with two plus
    signs and a space. A context line, which starts with a space, is
    always kept. *)
Theorem lines_that_look_like_headers_are_dropped (content : string) :
  parseLine ("-" +:+ content)
    = (if Js.startsWith content "-- " then None else Some (delLine content))
  /\ parseLine ("+" +:+ content)
    = (if Js.startsWith content "++ " then None else Some (addLine content))
  /\ parseLine (" " +:+ content)
    = Some (DiffLine.mk (Some content) (Some content) DiffLine.context).
Proof.
  rewrite !append_cons, !append_nil_l. unfold parseLine. cbn [Js.truthy negb].
  rewrite headers_of_deletion, headers_of_addition, headers_of_context.
  split; [|split]; [by destruct (Js.startsWith _ _)..|done].
Qed.

(** The deleted comment of [droppedComment] is not among the records:
    only the context line is left. *)
Example deleted_comment_is_lost :
  parseDiffLines droppedComment
    = ([DiffLine.mk (Some "select 1;") (Some "select 1;") DiffLine.context], false).
Proof. reflexivity. Qed.

End HeaderFacts.

Module CommitDiffFacts.
Import Trace TraceFacts GitService CommitDiffCommands.

(** X21. [getCommitFileDiff] tells a root commit by the failure of
    [git rev-parse --verify <hash>~1] and never fails for one: it shows
    the file as it is in the commit, every line an addition, and when
    [git show] fails too it resolves to the diff without lines. For a
    commit with a parent the diff against the parent runs instead, and
    its failure is thrown as it is. *)
Theorem getCommitFileDiff_of_root_commit
    (taskPath commitHash filePath : string) (w : World) :
  let o := exec_oracle (oracles w) in
  let n := now w in
  let m := getCommitFileDiff taskPath commitHash filePath in
  outsideWorktree (oracles w) taskPath filePath = false ->
  match o n (parentQuery taskPath commitHash) with
  | inl _ =>
      issued m w = [parentQuery taskPath commitHash; showAt taskPath commitHash filePath]
      /\ result m w =
           Ok match o (S n) (showAt taskPath commitHash filePath) with
              | inr content => mkFileDiff (map addLine (Js.split content NL)) None
              | inl _ => mkFileDiff [] None
              end
  | inr _ =>
      issued m w = [parentQuery taskPath commitHash; parentDiff taskPath commitHash filePath]
      /\ forall e, o (S n) (parentDiff taskPath commitHash filePath) = inl e ->
           result m w = Throw (ExecFailure e)
  end.
Proof.
  cbv zeta. intros Hin.
  assert (getCommitFileDiff taskPath commitHash filePath w =
          match exec_oracle (oracles w) (now w) (parentQuery taskPath commitHash) with
          | inl _ =>
              (Ok match exec_oracle (oracles w) (S (now w))
                          (showAt taskPath commitHash filePath) with
                  | inr content => mkFileDiff (map addLine (Js.split content NL)) None
                  | inl _ => mkFileDiff [] None
                  end,
               run [parentQuery taskPath commitHash; showAt taskPath commitHash filePath] w)
          | inr _ =>
              (match exec_oracle (oracles w) (S (now w))
                       (parentDiff taskPath commitHash filePath) with
               | inr stdout =>
                   Ok (let '(parsed, isBin) := parseDiffLines stdout in
                       if isBin then mkFileDiff [] (Some true) else mkFileDiff parsed None)
               | inl e => Throw (ExecFailure e)
               end,
               run [parentQuery taskPath commitHash; parentDiff taskPath commitHash filePath] w)
          end) as Hrun.
  { unfold getCommitFileDiff.
    rewrite (bind_ok _ _ w false w) by (unfold platform_of; by rewrite Hin).
    cbn beta iota.
    unfold bind, try_catch, execFileAsync, ret, parentQuery, parentDiff, showAt.
    destruct (exec_oracle (oracles w) (now w) _) as [e|out]; cbv beta iota.
    - cbn [oracles now log_cmd]. by destruct (exec_oracle (oracles w) (S (now w)) _).
    - cbn [oracles now log_cmd].
      destruct (exec_oracle (oracles w) (S (now w)) _) as [e|stdout]; [done|].
      cbv beta iota. destruct (parseDiffLines stdout) as [parsed isBin]. by destruct isBin. }
  destruct (exec_oracle (oracles w) (now w) (parentQuery taskPath commitHash)) as [e|out];
    apply outcome in Hrun as [Hr Hi]; rewrite Hr, Hi.
  - done.
  - split; [done|]. by intros e ->.
Qed.

(** The file of a root commit, as additions. *)
Lemma getCommitFileDiff_of_root_commit_witness :
  result (getCommitFileDiff "/repo" "abc1234" "README.md") rootCommit
    = Ok (mkFileDiff [addLine "# emdash"; addLine "notes"] None).
Proof.
  apply (getCommitFileDiff_of_root_commit "/repo" "abc1234" "README.md" rootCommit).
  reflexivity.
Defined.

End CommitDiffFacts.

Module UndoFacts.
Import Trace TraceFacts GitService GitHandlers HandlerProps LogCommands CommitArea.

Section Paths.

Variable isAbsolute : string -> bool.
Variable isDirectory_oracle : nat -> string -> option bool.

(** X22. Undoing the only commit of a repository is refused and
    explained. When the task path is fine and
    [git rev-parse --verify HEAD~1] fails, ['git:soft-reset'] replies
    with the failure ['Cannot undo the initial commit']: that command is
    the only one run, so nothing is reset, and nothing is broadcast. The
    commit area shows the reply as ['Cannot undo the initial commit.'] *)
Theorem undo_of_initial_commit_is_explained
    (taskPath : string) (e : ExecError) (w : World) :
  let m := handleSoftReset isAbsolute isDirectory_oracle taskPath in
  validAt isAbsolute isDirectory_oracle taskPath w ->
  exec_oracle (oracles w) (S (now w)) (verifyParent taskPath) = inl e ->
  result m w = Ok (Failure "Cannot undo the initial commit")
  /\ issued m w = [verifyParent taskPath]
  /\ broadcasts (after m w) = broadcasts w
  /\ toastOf "Cannot undo the initial commit" = "Cannot undo the initial commit.".
Proof.
  cbv zeta. intros Hv He.
  destruct (HandlerFacts.guarded_valid isAbsolute isDirectory_oracle exn_message taskPath
              (r <- softResetLastCommit taskPath ;;
               GitIpc.broadcastGitStatusChange taskPath None ;;; ret (Success r)) w Hv)
    as (w1 & Htr & Hb & Hnow & Ho & Hg).
  assert (handleSoftReset isAbsolute isDirectory_oracle taskPath w
          = (Ok (Failure "Cannot undo the initial commit"),
             run [verifyParent taskPath] w1)) as Hrun.
  { unfold handleSoftReset. rewrite Hg.
    erewrite (try_catch_throw _ _ _ (JsError "Cannot undo the initial commit")); [done|].
    erewrite bind_throw; [reflexivity|]. unfold softResetLastCommit.
    erewrite bind_throw; [reflexivity|].
    erewrite (try_catch_throw _ _ _ (ExecFailure e)); [reflexivity|].
    erewrite bind_throw; [reflexivity|].
    apply execFileAsync_throw. by rewrite Ho, Hnow. }
  split; [|split; [|split]].
  - unfold result. by rewrite Hrun.
  - apply issued_trace. unfold after. rewrite Hrun. cbn [snd]. by rewrite trace_run, Htr.
  - unfold after. rewrite Hrun. done.
  - reflexivity.
Qed.

End Paths.

Lemma undo_of_initial_commit_is_explained_witness :
  result (handleSoftReset Posix.isAbsolute anyDirectory "/repo") initialCommit
    = Ok (Failure "Cannot undo the initial commit")
  /\ issued (handleSoftReset Posix.isAbsolute anyDirectory "/repo") initialCommit
     = [verifyParent "/repo"].
Proof.
  destruct (undo_of_initial_commit_is_explained Posix.isAbsolute anyDirectory "/repo"
              (mkExecError (Some "fatal: not scripted") "Command failed: fatal: not scripted")
              initialCommit) as (Hr & Hi & _); [reflexivity|reflexivity|].
  split; [exact Hr|exact Hi].
Defined.

End UndoFacts.

Module RegistryFacts.
Import Trace GitIpc Registry.

Section Owned.

Context {E : Type} (handleOf : E -> nat) (idsOf : E -> gset string).

Lemma owned_empty (next : nat) : owned handleOf idsOf ∅ ∅ next.
Proof.
  split; [|split].
  - intros p e H. by rewrite lookup_empty in H.
  - intros h H. by apply not_elem_of_empty in H.
  - intros p1 p2 e1 e2 H. by rewrite lookup_empty in H.
Qed.

Lemma owned_later (registry : gmap string E) (alive : gset nat) (next next' : nat) :
  (next <= next')%nat ->
  owned handleOf idsOf registry alive next -> owned handleOf idsOf registry alive next'.
Proof.
  intros Hle (H1 & H2 & H3). split; [|by split].
  intros p e He. destruct (H1 p e He) as (? & ? & ?). repeat split; [done|done|lia].
Qed.

(** An entry is replaced by one with the same handle. *)
Lemma owned_update (registry : gmap string E) (alive : gset nat) (next : nat)
    (p : string) (e e' : E) :
  registry !! p = Some e -> handleOf e' = handleOf e -> idsOf e' <> ∅ ->
  owned handleOf idsOf registry alive next ->
  owned handleOf idsOf (<[p := e']> registry) alive next.
Proof.
  intros He Hh Hids (H1 & H2 & H3). split; [|split].
  - intros q x Hx. destruct (decide (q = p)) as [->|Hne].
    + rewrite lookup_insert_eq in Hx. injection Hx as <-.
      destruct (H1 p e He) as (? & _ & ?). rewrite Hh. by repeat split.
    + rewrite lookup_insert_ne in Hx by done. by apply (H1 q).
  - intros h Hh'. destruct (H2 h Hh') as (q & x & Hx & Hq).
    destruct (decide (q = p)) as [->|Hne].
    + exists p, e'. rewrite lookup_insert_eq. split; [done|]. congruence.
    + exists q, x. by rewrite lookup_insert_ne.
  - intros p1 p2 e1 e2 Hp1 Hp2 Heq.
    assert (forall q x, <[p := e']> registry !! q = Some x ->
              exists y, registry !! q = Some y /\ handleOf y = handleOf x) as Hold.
    { intros q x Hx. destruct (decide (q = p)) as [->|Hne].
      - rewrite lookup_insert_eq in Hx. injection Hx as <-. by exists e.
      - rewrite lookup_insert_ne in Hx by done. by exists x. }
    destruct (Hold _ _ Hp1) as (y1 & Hy1 & Hh1). destruct (Hold _ _ Hp2) as (y2 & Hy2 & Hh2).
    apply (H3 p1 p2 y1 y2 Hy1 Hy2). congruence.
Qed.

(** A new entry with a handle the runtime has just made. *)
Lemma owned_create (registry : gmap string E) (alive : gset nat) (next : nat)
    (p : string) (e' : E) :
  registry !! p = None -> handleOf e' = next -> idsOf e' <> ∅ ->
  owned handleOf idsOf registry alive next ->
  owned handleOf idsOf (<[p := e']> registry) ({[next]} ∪ alive) (S next).
Proof.
  intros He Hh Hids (H1 & H2 & H3). split; [|split].
  - intros q x Hx. destruct (decide (q = p)) as [->|Hne].
    + rewrite lookup_insert_eq in Hx. injection Hx as <-. rewrite Hh.
      split; [apply elem_of_union_l; by apply elem_of_singleton|]. split; [done|lia].
    + rewrite lookup_insert_ne in Hx by done. destruct (H1 q x Hx) as (? & ? & ?).
      split; [by apply elem_of_union_r|]. split; [done|lia].
  - intros h Hh'. apply elem_of_union in Hh' as [Hh'|Hh'].
    + apply elem_of_singleton in Hh' as ->. exists p, e'. by rewrite lookup_insert_eq.
    + destruct (H2 h Hh') as (q & x & Hx & Hq). exists q, x. split; [|done].
      rewrite lookup_insert_ne; [done|]. intros <-. congruence.
  - intros p1 p2 e1 e2 Hp1 Hp2 Heq.
    destruct (decide (p1 = p)) as [->|Hn1]; destruct (decide (p2 = p)) as [->|Hn2]; [done|..].
    + rewrite lookup_insert_eq in Hp1. injection Hp1 as <-.
      rewrite lookup_insert_ne in Hp2 by done. destruct (H1 p2 e2 Hp2) as (_ & _ & ?). lia.
    + rewrite lookup_insert_eq in Hp2. injection Hp2 as <-.
      rewrite lookup_insert_ne in Hp1 by done. destruct (H1 p1 e1 Hp1) as (_ & _ & ?). lia.
    + rewrite lookup_insert_ne in Hp1, Hp2 by done. by apply (H3 p1 p2 e1 e2).
Qed.

(** An entry goes, and its handle with it. *)
Lemma owned_remove (registry : gmap string E) (alive : gset nat) (next : nat)
    (p : string) (e : E) :
  registry !! p = Some e ->
  owned handleOf idsOf registry alive next ->
  owned handleOf idsOf (delete p registry) (alive ∖ {[handleOf e]}) next.
Proof.
  intros He (H1 & H2 & H3). split; [|split].
  - intros q x Hx. apply lookup_delete_Some in Hx as [Hne Hx].
    destruct (H1 q x Hx) as (? & ? & ?). split; [|by split].
    apply elem_of_difference. split; [done|]. rewrite elem_of_singleton.
    intros Heq. apply Hne. symmetry. by apply (H3 q p x e).
  - intros h Hh. apply elem_of_difference in Hh as [Hh Hne].
    rewrite elem_of_singleton in Hne.
    destruct (H2 h Hh) as (q & x & Hx & Hq). exists q, x. split; [|done].
    apply lookup_delete_Some. split; [|done]. intros <-. congruence.
  - intros p1 p2 e1 e2 Hp1 Hp2.
    apply lookup_delete_Some in Hp1 as [_ Hp1]. apply lookup_delete_Some in Hp2 as [_ Hp2].
    by apply (H3 p1 p2 e1 e2).
Qed.

End Owned.

Lemma timed_update (registry : gmap string GitStatusWatchEntry) (pending : gset nat)
    (p : string) (e e' : GitStatusWatchEntry) :
  registry !! p = Some e -> debounceTimer e' = debounceTimer e ->
  timed registry pending -> timed (<[p := e']> registry) pending.
Proof.
  intros He Ht H t Hin. destruct (H t Hin) as (q & x & Hx & Hq).
  destruct (decide (q = p)) as [->|Hne].
  - exists p, e'. rewrite lookup_insert_eq. split; [done|]. congruence.
  - exists q, x. by rewrite lookup_insert_ne.
Qed.

Lemma timed_create (registry : gmap string GitStatusWatchEntry) (pending : gset nat)
    (p : string) (e' : GitStatusWatchEntry) :
  registry !! p = None -> timed registry pending -> timed (<[p := e']> registry) pending.
Proof.
  intros He H t Hin. destruct (H t Hin) as (q & x & Hx & Hq).
  exists q, x. split; [|done]. rewrite lookup_insert_ne; [done|]. intros <-. congruence.
Qed.

Lemma timed_restart (registry : gmap string GitStatusWatchEntry) (pending : gset nat)
    (p : string) (e e' : GitStatusWatchEntry) (t' : nat) :
  registry !! p = Some e -> debounceTimer e' = Some t' ->
  timed registry pending ->
  timed (<[p := e']> registry) ({[t']} ∪ withoutTimer e pending).
Proof.
  intros He Ht H t Hin. apply elem_of_union in Hin as [Hin|Hin].
  { apply elem_of_singleton in Hin as ->. exists p, e'. by rewrite lookup_insert_eq. }
  assert (t ∈ pending /\ debounceTimer e <> Some t) as [Hp Hne].
  { unfold withoutTimer in Hin. destruct (debounceTimer e) as [t0|]; [|done].
    apply elem_of_difference in Hin as [Hin Hne]. rewrite elem_of_singleton in Hne.
    split; [done|congruence]. }
  destruct (H t Hp) as (q & x & Hx & Hq). exists q, x. split; [|done].
  rewrite lookup_insert_ne; [done|]. intros <-. congruence.
Qed.

Lemma timed_remove (registry : gmap string GitStatusWatchEntry) (pending : gset nat)
    (p : string) (e : GitStatusWatchEntry) :
  registry !! p = Some e ->
  timed registry pending -> timed (delete p registry) (withoutTimer e pending).
Proof.
  intros He H t Hin.
  assert (t ∈ pending /\ debounceTimer e <> Some t) as [Hp Hne].
  { unfold withoutTimer in Hin. destruct (debounceTimer e) as [t0|]; [|done].
    apply elem_of_difference in Hin as [Hin Hne]. rewrite elem_of_singleton in Hne.
    split; [done|congruence]. }
  destruct (H t Hp) as (q & x & Hx & Hq). exists q, x. split; [|done].
  apply lookup_delete_Some. split; [|done]. intros <-. congruence.
Qed.

Lemma timed_fire (registry : gmap string GitStatusWatchEntry) (pending : gset nat) (t : nat) :
  timed registry pending -> timed registry (pending ∖ {[t]}).
Proof. intros H t' Hin. apply elem_of_difference in Hin as [Hin _]. by apply H. Qed.

Lemma added_not_empty (i : string) (ids : gset string) : {[i]} ∪ ids <> ∅.
Proof.
  intros H. apply (not_elem_of_empty (C := gset string) i). rewrite <- H.
  apply elem_of_union_l. by apply elem_of_singleton.
Qed.

Lemma one_not_empty (i : string) : ({[i]} : gset string) <> ∅.
Proof.
  intros H. apply (not_elem_of_empty (C := gset string) i). rewrite <- H.
  by apply elem_of_singleton.
Qed.

Lemma size_positive (ids : gset string) : (size ids <=? 0)%nat = false -> ids <> ∅.
Proof. intros H ->. by rewrite size_empty in H. Qed.

(** ** Each step keeps the registries tidy *)

Lemma tidy_tick (w : World) : tidy w -> tidy (tick w).
Proof. done. Qed.

Lemma tidy_onDebounceFire (p : string) (t : nat) (w : World) :
  tidy w -> tidy (after (onDebounceFire p t) w).
Proof.
  intros (Hw & Hp & Ht).
  unfold after, onDebounceFire, bind, get, clearTimeout, broadcastGitStatusChange, modify.
  destruct (bool_decide (t ∈ pendingTimeouts w)); [|done].
  split; [done|]. split; [done|]. cbn. by apply timed_fire.
Qed.

Lemma tidy_pollRemoteStatus (p c : string) (w : World) :
  tidy w -> tidy (after (pollRemoteStatus p c) w).
Proof.
  intros (Hw & Hp & Ht).
  unfold after, pollRemoteStatus, try_catch, bind, ask_or_throw, get,
    broadcastGitStatusChange, modify.
  destruct (remoteStatus_oracle _ _ _ _) as [e|changes]; [done|].
  cbn [remoteStatusPollers tick].
  destruct (remoteStatusPollers w !! p) as [poller|] eqn:E; [|done].
  destruct (negb _); [|done].
  split; [done|]. split; [|done]. cbn.
  eapply owned_update; [exact E|done| |exact Hp].
  destruct Hp as (H1 & _). by destruct (H1 p poller E) as (_ & ? & _).
Qed.

Lemma tidy_ensureRemoteStatusPoller (p c : string) (w : World) :
  tidy w -> tidy (after (ensureRemoteStatusPoller p c) w).
Proof.
  intros (Hw & Hp & Ht).
  unfold after, ensureRemoteStatusPoller, randomUUID, ask, bind, get, setInterval,
    newHandle, bind, modify.
  cbn [remoteStatusPollers tick].
  destruct (remoteStatusPollers w !! p) as [existing|] eqn:E.
  - split; [done|]. split; [|done]. cbn.
    eapply owned_update; [exact E|done|apply added_not_empty|exact Hp].
  - split; [|split]; cbn.
    + eapply owned_later; [|exact Hw]. lia.
    + apply owned_create; [exact E|done|apply one_not_empty|exact Hp].
    + done.
Qed.

Lemma tidy_releaseRemoteStatusPoller (p : string) (i : option string) (w : World) :
  tidy w -> tidy (after (releaseRemoteStatusPoller p i) w).
Proof.
  intros (Hw & Hp & Ht).
  unfold after, releaseRemoteStatusPoller, bind, get, clearInterval, modify.
  destruct (remoteStatusPollers w !! p) as [entry|] eqn:E; [|done].
  destruct (size (forget i (poll_watchIds entry)) <=? 0)%nat eqn:Hs.
  - split; [done|]. split; [|done]. cbn. rewrite delete_insert_eq.
    by apply (owned_remove intervalId poll_watchIds _ _ _ p entry).
  - split; [done|]. split; [|done]. cbn.
    eapply owned_update; [exact E|done|by apply size_positive|exact Hp].
Qed.

Lemma tidy_onWatchEvent (p : string) (w : World) :
  tidy w -> tidy (after (onWatchEvent p) w).
Proof.
  intros (Hw & Hp & Ht).
  unfold after, onWatchEvent, bind, get, clearTimeout, setTimeout, newHandle, bind, modify.
  destruct (gitStatusWatchers w !! p) as [entry|] eqn:E; [|done].
  assert (watchIds entry <> ∅) as Hids.
  { destruct Hw as (H1 & _). by destruct (H1 p entry E) as (_ & ? & _). }
  pose proof (timed_restart _ _ p entry
                (mkWatchEntry (watcher entry) (watchIds entry) (Some (nextHandle w)))
                (nextHandle w) E eq_refl Ht) as Ht'.
  unfold withoutTimer in Ht'.
  destruct (debounceTimer entry) as [t0|]; cbn.
  - split; [|split]; cbn.
    + eapply owned_later; [|eapply owned_update; [exact E|done|exact Hids|exact Hw]]. lia.
    + eapply owned_later; [|exact Hp]. lia.
    + exact Ht'.
  - split; [|split]; cbn.
    + eapply owned_later; [|eapply owned_update; [exact E|done|exact Hids|exact Hw]]. lia.
    + eapply owned_later; [|exact Hp]. lia.
    + exact Ht'.
Qed.

Lemma tidy_teardown (p : string) (entry : GitStatusWatchEntry) (w : World) :
  gitStatusWatchers w !! p = Some entry ->
  tidy w ->
  owned watcher watchIds (delete p (gitStatusWatchers w))
    (openWatchers w ∖ {[watcher entry]}) (nextHandle w)
  /\ timed (delete p (gitStatusWatchers w)) (withoutTimer entry (pendingTimeouts w)).
Proof.
  intros E (Hw & Hp & Ht). split.
  - by apply (owned_remove watcher watchIds _ _ _ p entry).
  - by apply timed_remove.
Qed.

Lemma tidy_onWatcherError (p : string) (w : World) :
  tidy w -> tidy (after (onWatcherError p) w).
Proof.
  intros H. pose proof H as (Hw & Hp & Ht).
  unfold after, onWatcherError, bind, get, clearTimeout, closeWatcher,
    broadcastGitStatusChange, modify.
  destruct (gitStatusWatchers w !! p) as [entry|] eqn:E.
  - destruct (tidy_teardown p entry w E H) as [Hw' Ht']. unfold withoutTimer in Ht'.
    destruct (debounceTimer entry) as [t0|]; cbn; (split; [|split]); cbn; done.
  - cbn. split; [|split]; cbn; [|done|]; by rewrite delete_id.
Qed.

Lemma tidy_releaseGitStatusWatcher (p : string) (i : option string) (w : World) :
  tidy w -> tidy (after (releaseGitStatusWatcher p i) w).
Proof.
  intros H. pose proof H as (Hw & Hp & Ht).
  unfold after, releaseGitStatusWatcher, bind, get, clearTimeout, closeWatcher, modify.
  destruct (gitStatusWatchers w !! p) as [entry|] eqn:E; [|done].
  destruct (size (forget i (watchIds entry)) <=? 0)%nat eqn:Hs.
  - destruct (tidy_teardown p entry w E H) as [Hw' Ht']. unfold withoutTimer in Ht'.
    destruct (debounceTimer entry) as [t0|]; cbn; (split; [|split]); cbn;
      rewrite ?delete_insert_eq; done.
  - split; [|split]; cbn; [|done|].
    + eapply owned_update; [exact E|done|by apply size_positive|exact Hw].
    + by eapply timed_update.
Qed.

Lemma tidy_ensureGitStatusWatcher (p : string) (w : World) :
  tidy w -> tidy (after (ensureGitStatusWatcher p) w).
Proof.
  intros (Hw & Hp & Ht).
  unfold after, ensureGitStatusWatcher, bind at 1, platform_of.
  destruct (negb (supportsRecursiveWatch (oracles w))); [done|].
  unfold bind at 1.
  assert (exists present w1,
            (if Js.truthy p then existsSync p else ret false) w = (Ok present, w1)
            /\ w1 = (if Js.truthy p then tick w else w)) as (present & w1 & -> & Hw1).
  { destruct (Js.truthy p); by eexists _, _. }
  assert (tidy w1) as (Hw1' & Hp1 & Ht1) by (rewrite Hw1; by destruct (Js.truthy p)).
  clear Hw Hp Ht Hw1. destruct (negb present); [done|].
  unfold bind, get, randomUUID, ask, try_catch, fsWatch, bind, ask, newHandle, modify.
  cbn [gitStatusWatchers tick oracles now].
  destruct (gitStatusWatchers w1 !! p) as [existing|] eqn:E.
  - split; [|split]; cbn; [|done|].
    + eapply owned_update; [exact E|done|apply added_not_empty|exact Hw1'].
    + by eapply timed_update.
  - destruct (watch_oracle _ _ _) as [e|]; [done|].
    split; [|split]; cbn.
    + apply owned_create; [exact E|done|apply one_not_empty|exact Hw1'].
    + eapply owned_later; [|exact Hp1]. lia.
    + by apply timed_create.
Qed.

Lemma tidy_dispatch (ev : Event) (w : World) : tidy w -> tidy (after (dispatch ev) w).
Proof.
  intros H. destruct ev as [p|p i|p|p|p t|p c]; cbn [dispatch].
  - unfold after, watchStatus, bind at 1, bind at 1,
      resolveRemoteProjectForWorktreePath, ask.
    destruct (resolveRemote_oracle _ _ _) as [c|].
    + pose proof (tidy_ensureRemoteStatusPoller p c (tick w) (tidy_tick w H)) as H'.
      unfold after in H'. by destruct (ensureRemoteStatusPoller p c (tick w)) as [[?|?] ?].
    + pose proof (tidy_ensureGitStatusWatcher p (tick w) (tidy_tick w H)) as H'.
      unfold after in H'. by destruct (ensureGitStatusWatcher p (tick w)) as [[?|?] ?].
  - unfold after, unwatchStatus, bind at 1, resolveRemoteProjectForWorktreePath, ask.
    destruct (resolveRemote_oracle _ _ _) as [c|].
    + apply (tidy_releaseRemoteStatusPoller p i (tick w)), tidy_tick, H.
    + apply (tidy_releaseGitStatusWatcher p i (tick w)), tidy_tick, H.
  - by apply tidy_onWatchEvent.
  - by apply tidy_onWatcherError.
  - by apply tidy_onDebounceFire.
  - by apply tidy_pollRemoteStatus.
Qed.

Lemma tidy_runEvents (evs : list Event) (w : World) : tidy w -> tidy (runEvents evs w).
Proof.
  revert w. induction evs as [|ev evs IH]; intros w H; [done|].
  cbn [runEvents fold_left]. apply IH. by apply tidy_dispatch.
Qed.

(** X23. The watch registries never leak, whatever happens. Start the
    main process with nothing watched and let any sequence of watch and
    unwatch calls, file events, watcher errors, due timers and due polls
    run. Then the open file watchers are exactly the watchers of the
    watched paths, one for each; the live intervals are exactly those of
    the polled paths, one for each; every watched or polled path has at
    least one subscriber; and every pending debounce timer belongs to a
    watched path. So once no path is watched, no watcher is open and no
    timer is pending, and once no path is polled no interval is live. *)
Theorem registries_never_leak (o : Oracles) (evs : list Event) :
  let w := runEvents evs (Example.worldOf o) in
  tidy w
  /\ (gitStatusWatchers w = ∅ -> openWatchers w = ∅ /\ pendingTimeouts w = ∅)
  /\ (remoteStatusPollers w = ∅ -> liveIntervals w = ∅).
Proof.
  cbv zeta.
  assert (tidy (runEvents evs (Example.worldOf o))) as H.
  { apply tidy_runEvents. split; [|split].
    - apply owned_empty.
    - apply owned_empty.
    - intros t Ht. by apply not_elem_of_empty in Ht. }
  split; [exact H|]. destruct H as ((_ & Hw & _) & (_ & Hp & _) & Ht).
  split.
  - intros E. rewrite E in Hw, Ht. split.
    + apply set_eq. intros h. split; [|by intros ?%not_elem_of_empty].
      intros Hh. destruct (Hw h Hh) as (p & e & He & _). by rewrite lookup_empty in He.
    + apply set_eq. intros t. split; [|by intros ?%not_elem_of_empty].
      intros Hh. destruct (Ht t Hh) as (p & e & He & _). by rewrite lookup_empty in He.
  - intros E. rewrite E in Hp.
    apply set_eq. intros h. split; [|by intros ?%not_elem_of_empty].
    intros Hh. destruct (Hp h Hh) as (p & e & He & _). by rewrite lookup_empty in He.
Qed.

(** After [glance] nothing is watched; the watcher is closed and the
    timer of the file change is cleared. *)
Lemma registries_never_leak_witness :
  gitStatusWatchers (runEvents glance (Example.worldOf (oracles Watching.desk))) = ∅
  /\ openWatchers (runEvents glance (Example.worldOf (oracles Watching.desk))) = ∅
  /\ pendingTimeouts (runEvents glance (Example.worldOf (oracles Watching.desk))) = ∅.
Proof.
  assert (gitStatusWatchers (runEvents glance (Example.worldOf (oracles Watching.desk))) = ∅)
    as Hnone by reflexivity.
  split; [exact Hnone|].
  apply (proj1 (proj2 (registries_never_leak (oracles Watching.desk) glance)) Hnone).
Defined.

(** In that world the change is never announced: the timer was cleared
    before it came due. *)
Example cleared_timer_is_silent :
  broadcasts (runEvents (glance ++ [TimerDue "/repo" 1])
                (Example.worldOf (oracles Watching.desk))) = [].
Proof. reflexivity. Qed.

(** ** The debounce *)

Lemma runEvents_snoc (evs : list Event) (ev : Event) (w : World) :
  runEvents (evs ++ [ev]) w = after (dispatch ev) (runEvents evs w).
Proof. unfold runEvents. by rewrite fold_left_app. Qed.

Lemma onWatchEvent_run (p : string) (entry : GitStatusWatchEntry) (w : World) :
  gitStatusWatchers w !! p = Some entry ->
  let w' := after (onWatchEvent p) w in
  gitStatusWatchers w' !! p
    = Some (mkWatchEntry (watcher entry) (watchIds entry) (Some (nextHandle w)))
  /\ nextHandle w' = S (nextHandle w)
  /\ broadcasts w' = broadcasts w
  /\ pendingTimeouts w' = {[nextHandle w]} ∪ withoutTimer entry (pendingTimeouts w).
Proof.
  intros E. cbv zeta.
  unfold after, onWatchEvent, bind, get, clearTimeout, setTimeout, newHandle, bind, modify.
  rewrite E. unfold withoutTimer.
  destruct (debounceTimer entry); cbn; by rewrite lookup_insert_eq.
Qed.

Lemma burst (p : string) (entry : GitStatusWatchEntry) (w : World) (k : nat) :
  gitStatusWatchers w !! p = Some entry ->
  let w' := runEvents (replicate (S k) (FsEvent p)) w in
  (exists e', gitStatusWatchers w' !! p = Some e'
              /\ debounceTimer e' = Some (nextHandle w + k)%nat)
  /\ nextHandle w' = S (nextHandle w + k)
  /\ broadcasts w' = broadcasts w
  /\ (nextHandle w + k)%nat ∈ pendingTimeouts w'
  /\ (forall i, (i < k)%nat -> (nextHandle w + i)%nat ∉ pendingTimeouts w').
Proof.
  intros E. cbv zeta. induction k as [|k IH].
  - cbn [replicate runEvents fold_left dispatch].
    destruct (onWatchEvent_run p entry w E) as (He & Hn & Hb & Hp).
    rewrite Nat.add_0_r. split; [by eexists|]. split; [done|]. split; [done|].
    split; [|intros i Hi; lia].
    rewrite Hp. apply elem_of_union_l. by apply elem_of_singleton.
  - change (replicate (S (S k)) (FsEvent p))
      with (FsEvent p :: replicate (S k) (FsEvent p)).
    rewrite replicate_cons_app, runEvents_snoc. cbn [dispatch].
    destruct IH as ((e' & He' & Ht') & Hn & Hb & Hin & Hout).
    set (wk := runEvents (replicate (S k) (FsEvent p)) w) in *.
    destruct (onWatchEvent_run p e' wk He') as (He & Hn' & Hb' & Hp).
    rewrite Hn in He, Hn', Hp.
    replace (nextHandle w + S k)%nat with (S (nextHandle w + k)) by lia.
    split; [by eexists|]. split; [done|]. split; [congruence|].
    split.
    + rewrite Hp. apply elem_of_union_l. by apply elem_of_singleton.
    + intros i Hi. rewrite Hp. unfold withoutTimer. rewrite Ht'.
      rewrite elem_of_union, elem_of_singleton, elem_of_difference, elem_of_singleton.
      intros [Heq|[Hin' Hne]]; [lia|].
      destruct (decide (i = k)) as [->|Hik]; [done|].
      apply (Hout i); [lia|done].
Qed.

Lemma onDebounceFire_cleared (p : string) (t : nat) (w : World) :
  t ∉ pendingTimeouts w -> after (onDebounceFire p t) w = w.
Proof.
  intros Ht. unfold after, onDebounceFire, bind, get.
  by rewrite bool_decide_eq_false_2.
Qed.

Lemma onDebounceFire_pending (p : string) (t : nat) (w : World) :
  t ∈ pendingTimeouts w ->
  broadcasts (after (onDebounceFire p t) w) = broadcasts w ++ [(p, None)].
Proof.
  intros Ht. unfold after, onDebounceFire, bind, get.
  by rewrite bool_decide_eq_true_2.
Qed.

(** X24. The debounce makes one notice of a burst of file events,
    however long the burst. On a watched path, let one or more events
    arrive before any timer comes due. Nothing is broadcast meanwhile;
    each event clears the timer of the one before it, so when those
    timers come due they do nothing at all; and the timer of the last
    event, when it comes due, sends one ['git:status-changed'] for the
    path. *)
Theorem burst_of_events_is_announced_once
    (p : string) (entry : GitStatusWatchEntry) (w : World) (k : nat) :
  gitStatusWatchers w !! p = Some entry ->
  let w' := runEvents (replicate (S k) (FsEvent p)) w in
  broadcasts w' = broadcasts w
  /\ (forall i, (i < k)%nat ->
        after (onDebounceFire p (nextHandle w + i)) w' = w')
  /\ broadcasts (after (onDebounceFire p (nextHandle w + k)) w')
     = broadcasts w ++ [(p, None)].
Proof.
  intros E. cbv zeta.
  destruct (burst p entry w k E) as (_ & _ & Hb & Hin & Hout).
  split; [exact Hb|]. split.
  - intros i Hi. apply onDebounceFire_cleared. by apply Hout.
  - rewrite onDebounceFire_pending by done. by rewrite Hb.
Qed.

(** Three events on [/repo] while it is watched: one notice. *)
Lemma burst_of_events_is_announced_once_witness :
  broadcasts
    (after (onDebounceFire "/repo" 3)
       (runEvents (replicate 3 (FsEvent "/repo")) (runEvents [WatchCall "/repo"] Watching.desk)))
  = [("/repo", None)].
Proof.
  assert (gitStatusWatchers (runEvents [WatchCall "/repo"] Watching.desk) !! "/repo"
          = Some (mkWatchEntry 0 {["uuid-2"]} None)) as E by reflexivity.
  exact (proj2 (proj2 (burst_of_events_is_announced_once "/repo" _
           (runEvents [WatchCall "/repo"] Watching.desk) 2 E))).
Defined.

End RegistryFacts.

Module QuoteFacts.
Import Trace TraceFacts StringFacts TextFacts GitHandlers Sh.

Lemma word_closed (acc rest : string) :
  rest = "" \/ Js.startsWith rest " " = true ->
  word false acc rest = Some (String.rev acc, rest).
Proof.
  intros [->|H]; [done|]. destruct rest as [|c r]; [done|].
  unfold Js.startsWith in H. cbn [String.prefix] in H.
  destruct (ascii_dec " " c) as [<-|]; [done|discriminate H].
Qed.

Lemma word_quoted (arg acc rest : string) :
  rest = "" \/ Js.startsWith rest " " = true ->
  word true acc (escapeQuotes arg +:+ "'" +:+ rest)
  = Some (String.rev acc +:+ arg, rest).
Proof.
  intros Hrest. revert acc. induction arg as [|c arg IH]; intros acc.
  - cbn [escapeQuotes]. rewrite append_nil_l, append_cons, append_nil_l, append_nil_r.
    cbn [word]. change (Ascii.eqb "'" "'") with true. cbv iota.
    by apply word_closed.
  - cbn [escapeQuotes]. destruct (Ascii.eqb_spec c "'") as [->|Hne].
    + rewrite append_assoc, !append_cons, append_nil_l.
      cbn [word]. change (Ascii.eqb "'" "'") with true.
      change (Ascii.eqb "\" "'") with false. change (Ascii.eqb "\" "\") with true.
      cbv iota. rewrite IH. by rewrite rev_cons, append_assoc.
    + rewrite append_cons. cbn [word].
      apply Ascii.eqb_neq in Hne. rewrite Hne.
      rewrite IH. by rewrite rev_cons, append_assoc.
Qed.

(** X25. What [quoteGhArg] makes of an argument is read by a POSIX shell
    as one word, and that word is the argument itself, whatever code
    units it has: quotes, blanks, dollars, semicolons. The word ends
    where the quoted text ends, so when the command line goes on after a
    blank, the rest is read as it was written. *)
Theorem quoteGhArg_is_read_back (arg rest : string) :
  rest = "" \/ Js.startsWith rest " " = true ->
  firstWord (quoteGhArg arg +:+ rest) = Some (arg, rest).
Proof.
  intros Hrest. unfold firstWord, quoteGhArg.
  rewrite !append_assoc, append_cons, append_nil_l. cbn [word].
  change (Ascii.eqb "'" "'") with true. cbv iota.
  by rewrite word_quoted.
Qed.

(** A title that tries to run a command. *)
Lemma quoteGhArg_is_read_back_witness :
  firstWord (quoteGhArg "it's; rm -rf $HOME" +:+ " --body x")
  = Some ("it's; rm -rf $HOME", " --body x").
Proof.
  apply (quoteGhArg_is_read_back "it's; rm -rf $HOME" " --body x").
  right. reflexivity.
Defined.

End QuoteFacts.

Module GitBinFacts.
Import Trace TraceFacts GitHandlers GitBinSearch.

Lemma places_filter (GIT_PATH : option string) :
  filter (fun p => Is_true (Js.truthy p))
    [Js.trim (default "" GIT_PATH); "/opt/homebrew/bin/git"; "/usr/local/bin/git";
     "/usr/bin/git"]
  = places GIT_PATH.
Proof. unfold places. by destruct (Js.trim (default "" GIT_PATH)). Qed.

Lemma places_truthy (GIT_PATH : option string) :
  Forall (fun p => Js.truthy p = true) (places GIT_PATH).
Proof.
  unfold places. destruct (Js.trim (default "" GIT_PATH)); by repeat constructor.
Qed.

(** The loop answers the first candidate that exists when it is looked
    at, or [git] when none does, and runs no command. *)
Lemma firstExisting_run (candidates : list string) (w : World) :
  Forall (fun p => Js.truthy p = true) candidates ->
  exists bin w',
    firstExisting candidates w = (Ok bin, w')
    /\ trace w' = trace w
    /\ (firstFound (existsSync_oracle (oracles w)) (now w) candidates bin
        \/ (bin = "git"
            /\ noneFound (existsSync_oracle (oracles w)) (now w) candidates)).
Proof.
  revert w. induction candidates as [|p rest IH]; intros w Hall.
  - exists "git", w. repeat split. right. split; [done|]. by intros i p.
  - apply Forall_cons in Hall as [Hp Hall].
    cbn [firstExisting]. unfold bind. rewrite Hp. unfold existsSync, ask.
    destruct (existsSync_oracle (oracles w) (now w) p) eqn:Hex.
    + exists p, (tick w). repeat split. left. exists [], rest.
      split; [done|]. cbn [length]. rewrite Nat.add_0_r. split; [done|]. by intros i q.
    + destruct (IH (tick w) Hall) as (bin & w' & -> & Ht & Hb).
      exists bin, w'. repeat split; [done|].
      cbn [now oracles tick] in Hb.
      destruct Hb as [(before & after & -> & Hbin & Hnone)|[-> Hnone]].
      * left. exists (p :: before), after. split; [done|]. split.
        -- cbn [length]. by rewrite Nat.add_succ_r.
        -- intros [|i] q Hq.
           ++ injection Hq as <-. by rewrite Nat.add_0_r.
           ++ rewrite Nat.add_succ_r. by apply Hnone.
      * right. split; [done|]. intros [|i] q Hq.
        -- injection Hq as <-. by rewrite Nat.add_0_r.
        -- rewrite Nat.add_succ_r. by apply Hnone.
Qed.

(** X26. [resolveGitBin] cannot fail and runs no command. Of the places
    it searches, the trimmed [GIT_PATH] when that is not blank and then
    the three usual places, it answers the first that exists when it is
    looked at, every place before it having been found missing; it
    answers plain [git] only when none of the places exists. So a
    [GIT_PATH] that is set to an existing file always wins. *)
Theorem resolveGitBin_prefers_the_environment (GIT_PATH : option string) (w : World) :
  let present := existsSync_oracle (oracles w) in
  exists bin,
    result (resolveGitBin GIT_PATH) w = Ok bin
    /\ issued (resolveGitBin GIT_PATH) w = []
    /\ (firstFound present (now w) (places GIT_PATH) bin
        \/ (bin = "git" /\ noneFound present (now w) (places GIT_PATH)))
    /\ bin ∈ ["git"; Js.trim (default "" GIT_PATH); "/opt/homebrew/bin/git";
              "/usr/local/bin/git"; "/usr/bin/git"]
    /\ (forall g, GIT_PATH = Some g -> Js.trim g <> "" ->
          present (now w) (Js.trim g) = true -> bin = Js.trim g).
Proof.
  cbv zeta. unfold resolveGitBin. rewrite places_filter.
  destruct (firstExisting_run (places GIT_PATH) w (places_truthy GIT_PATH))
    as (bin & w' & Hrun & Ht & Hb).
  exists bin. unfold result, issued. rewrite Hrun. cbn [fst snd].
  split; [done|]. split; [rewrite Ht; apply drop_all|]. split; [exact Hb|]. split.
  - destruct Hb as [(before & after & Hps & _)|[-> _]]; [|apply list_elem_of_here].
    apply list_elem_of_further.
    assert (bin ∈ places GIT_PATH) as Hin.
    { rewrite Hps. apply elem_of_app. right. apply list_elem_of_here. }
    unfold places in Hin. apply elem_of_app in Hin as [Hin|Hin].
    + destruct (Js.trim (default "" GIT_PATH)) eqn:E; [by apply elem_of_nil in Hin|].
      apply list_elem_of_singleton in Hin as ->. apply list_elem_of_here.
    + by apply list_elem_of_further.
  - intros g -> Hg Hex. change (default "" (Some g)) with g in Hb.
    assert (exists rest, places (Some g) = Js.trim g :: rest) as [rest Hps].
    { unfold places. change (default "" (Some g)) with g.
      destruct (Js.trim g); [done|]. by eexists. }
    destruct Hb as [(before & after & Hsplit & _ & Hnone)|[_ Hnone]].
    + destruct before as [|q before]; rewrite Hps in Hsplit.
      * by injection Hsplit.
      * injection Hsplit as <- _. specialize (Hnone 0%nat (Js.trim g) eq_refl).
        rewrite Nat.add_0_r in Hnone. congruence.
    + specialize (Hnone 0%nat (Js.trim g)). rewrite Hps in Hnone.
      specialize (Hnone eq_refl). rewrite Nat.add_0_r in Hnone. congruence.
Qed.

(** A git of one's own. *)
Lemma resolveGitBin_prefers_the_environment_witness :
  exists bin,
    result (resolveGitBin (Some " /opt/git/bin/git ")) (Example.local [] []) = Ok bin
    /\ bin = "/opt/git/bin/git".
Proof.
  destruct (resolveGitBin_prefers_the_environment (Some " /opt/git/bin/git ")
              (Example.local [] [])) as (bin & Hr & _ & _ & _ & Hg).
  exists bin. split; [exact Hr|].
  apply (Hg " /opt/git/bin/git "); [reflexivity|discriminate|reflexivity].
Defined.

(** Without [GIT_PATH] the usual places are tried in their order, and
    [git] is the answer where none of them has the program. *)
Example resolveGitBin_on_three_machines :
  result (resolveGitBin None) (machine ["/usr/bin/git"; "/usr/local/bin/git"])
    = Ok "/usr/local/bin/git"
  /\ result (resolveGitBin (Some "/opt/git/bin/git")) (machine ["/usr/bin/git"])
     = Ok "/usr/bin/git"
  /\ result (resolveGitBin (Some "  ")) (machine []) = Ok "git".
Proof. by vm_compute. Qed.


End GitBinFacts.

Module WatchFailureFacts.
Import Trace TraceFacts GitIpc Untouched.

Lemma ensureGitStatusWatcher_outcome (taskPath : string) (w : World) :
  exists reply w',
    ensureGitStatusWatcher taskPath w = (Ok reply, w')
    /\ (forall error, reply = WatchFailed error -> sameState w w')
    /\ (supportsRecursiveWatch (oracles w) = false ->
        reply = WatchFailed "recursive-watch-unsupported").
Proof.
  unfold ensureGitStatusWatcher, bind at 1, platform_of.
  destruct (supportsRecursiveWatch (oracles w)); cbn [negb].
  2:{ eexists _, _. split; [done|]. by split. }
  assert (exists present w1,
            (if Js.truthy taskPath then existsSync taskPath else ret false) w = (Ok present, w1)
            /\ sameState w w1) as (present & w1 & E & Hs).
  { destruct (Js.truthy taskPath); by eexists _, _. }
  unfold bind at 1. rewrite E.
  destruct present; cbn [negb].
  2:{ eexists _, _. split; [done|]. by split. }
  unfold bind, get, randomUUID, ask, try_catch, fsWatch, bind, ask, newHandle, modify.
  cbn [gitStatusWatchers tick oracles now].
  destruct (gitStatusWatchers w1 !! taskPath) as [existing|].
  { eexists _, _. split; [done|]. split; [intros error [=]|done]. }
  destruct (watch_oracle _ _ _) as [e|].
  - eexists _, _. split; [done|]. split; [|done]. intros error _. exact Hs.
  - eexists _, _. split; [done|]. split; [intros error [=]|done].
Qed.

(** X27. A watch that fails leaves nothing behind. When
    [ensureGitStatusWatcher] replies with a failure, because recursive
    watching is not supported on the platform, because the path is empty
    or does not exist, or because [fs.watch] threw, no entry was
    registered, no watcher was opened and nothing was broadcast; and it
    never throws. On a platform without recursive watching it fails
    with ['recursive-watch-unsupported'] whatever the path. *)
Theorem failed_watch_leaves_nothing (taskPath : string) (w : World) :
  let m := ensureGitStatusWatcher taskPath in
  (exists reply, result m w = Ok reply)
  /\ (forall error, result m w = Ok (WatchFailed error) -> sameState w (after m w))
  /\ (supportsRecursiveWatch (oracles w) = false ->
      result m w = Ok (WatchFailed "recursive-watch-unsupported")).
Proof.
  cbv zeta. destruct (ensureGitStatusWatcher_outcome taskPath w) as (r & w' & E & Hf & Hu).
  unfold result, after. rewrite E. cbn [fst snd].
  split; [by eexists|]. split.
  - intros error [= ->]. by apply (Hf error).
  - intros H. by rewrite (Hu H).
Qed.

(** On Linux the watch of an existing path fails. *)
Lemma failed_watch_leaves_nothing_witness :
  supportsRecursiveWatch (oracles linux) = false
  /\ result (ensureGitStatusWatcher "/repo") linux
     = Ok (WatchFailed "recursive-watch-unsupported").
Proof.
  split; [reflexivity|].
  apply (proj2 (proj2 (failed_watch_leaves_nothing "/repo" linux))). reflexivity.
Defined.

(** X28. A poll that fails is skipped. When the remote status call of
    [pollRemoteStatus] rejects, the poll resolves all the same, nothing
    is broadcast, and the pollers, their intervals and their
    fingerprints stay as they were: the next poll goes on from the same
    state. *)
Theorem failed_poll_is_skipped
    (taskPath connectionId : string) (e : Exn) (w : World) :
  remoteStatus_oracle (oracles w) (now w) connectionId taskPath = inl e ->
  result (pollRemoteStatus taskPath connectionId) w = Ok tt
  /\ sameState w (after (pollRemoteStatus taskPath connectionId) w).
Proof.
  intros H. unfold result, after, pollRemoteStatus, try_catch, bind, ask_or_throw.
  rewrite H. by repeat split.
Qed.

(** The connection of [linux] is down. *)
Lemma failed_poll_is_skipped_witness :
  result (pollRemoteStatus "/srv/repo" "ssh-1") linux = Ok tt
  /\ sameState linux (after (pollRemoteStatus "/srv/repo" "ssh-1") linux).
Proof.
  apply (failed_poll_is_skipped "/srv/repo" "ssh-1" (NonError "offline") linux). reflexivity.
Defined.

End WatchFailureFacts.

Module TrackingFacts.
Import Trace TraceFacts GitIpc RenameCommands.

(** X29. The rename of a branch that tracks a remote goes through even
    when the old remote branch cannot be deleted. For a project that is
    not remote, let [git config --get branch.<old>.remote] print the
    name of a remote. The local rename runs next; when it fails the
    handler replies with its message and nothing is pushed. When it
    succeeds, the old branch is deleted on that remote and the new one
    pushed with [-u], in this order, and the reply depends on the push
    alone: success with [remotePushed] when it succeeds, its message
    when it fails, whatever the deletion did. *)
Theorem rename_of_tracking_branch_updates_remote
    (GIT repoPath oldBranch newBranch remoteOut : string) (w : World) :
  let o := exec_oracle (oracles w) in
  let n := now w in
  let remoteName := Js.trim remoteOut in
  let config := configQuery GIT repoPath oldBranch in
  let rename := renameCmd GIT repoPath oldBranch newBranch in
  let delete := deleteRemote GIT repoPath remoteName oldBranch in
  let push := pushNew GIT repoPath remoteName newBranch in
  let cmds := issued (renameBranch GIT repoPath oldBranch newBranch) w in
  let res := result (renameBranch GIT repoPath oldBranch newBranch) w in
  resolveRemote_oracle (oracles w) n repoPath = None ->
  o (1 + n)%nat config = inr remoteOut ->
  remoteName <> "" ->
  match o (2 + n)%nat rename with
  | inl e => res = Ok (RenameFailed (message e)) /\ cmds = [config; rename]
  | inr _ =>
      cmds = [config; rename; delete; push]
      /\ res = match o (4 + n)%nat push with
               | inr _ => Ok (Renamed true)
               | inl e => Ok (RenameFailed (message e))
               end
  end.
Proof.
  cbv zeta. intros Hlocal Hconfig Hname. cbn [Nat.add] in Hconfig |- *.
  assert (detectRemote GIT repoPath oldBranch (tick w)
          = (Ok (true, Js.trim remoteOut), run [configQuery GIT repoPath oldBranch] (tick w)))
    as Hdetect.
  { unfold detectRemote. erewrite try_catch_ok; [reflexivity|].
    erewrite bind_ok by (apply execFileAsync_ok; exact Hconfig).
    by destruct (Js.trim remoteOut). }
  assert (resolveRemoteProjectForWorktreePath repoPath w = (Ok None, tick w)) as Hres.
  { unfold resolveRemoteProjectForWorktreePath, ask. by rewrite Hlocal. }
  assert (forall (r : Res RenameReply) (l : list Cmd),
            renameBranch GIT repoPath oldBranch newBranch w = (r, run l (tick w)) ->
            result (renameBranch GIT repoPath oldBranch newBranch) w = r
            /\ issued (renameBranch GIT repoPath oldBranch newBranch) w = l) as Hout.
  { intros r l H. split; [unfold result; by rewrite H|].
    apply issued_trace. unfold after. rewrite H. cbn [snd]. by rewrite trace_run. }
  destruct (exec_oracle (oracles w) (S (S (now w)))
              (renameCmd GIT repoPath oldBranch newBranch)) as [e|out] eqn:Erename.
  - destruct (Hout (Ok (RenameFailed (message e)))
                [configQuery GIT repoPath oldBranch;
                 renameCmd GIT repoPath oldBranch newBranch]) as [Hr Hi]; [|done].
    unfold renameBranch.
    erewrite (try_catch_throw _ _ _ (ExecFailure e)); [reflexivity|].
    erewrite bind_ok by exact Hres. cbn beta iota.
    erewrite bind_ok by exact Hdetect. cbn beta iota.
    apply bind_throw, execFileAsync_throw. exact Erename.
  - set (w2 := run [configQuery GIT repoPath oldBranch;
                    renameCmd GIT repoPath oldBranch newBranch] (tick w)).
    assert (exists w3,
              (try_catch
                 (execFileAsync GIT ["push"; Js.trim remoteOut; "--delete"; oldBranch] repoPath
                  ;;; ret tt)
                 (fun _ => ret tt)) w2 = (Ok tt, w3)
              /\ w3 = run [deleteRemote GIT repoPath (Js.trim remoteOut) oldBranch] w2)
      as (w3 & Hdel & Hw3).
    { unfold try_catch, bind, execFileAsync, deleteRemote.
      destruct (exec_oracle (oracles w2) (now w2) _); eexists; split; reflexivity. }
    subst w3.
    destruct (exec_oracle (oracles w) (S (S (S (S (now w)))))
                (pushNew GIT repoPath (Js.trim remoteOut) newBranch)) as [e|pushed] eqn:Epush.
    + destruct (Hout (Ok (RenameFailed (message e)))
                  [configQuery GIT repoPath oldBranch;
                   renameCmd GIT repoPath oldBranch newBranch;
                   deleteRemote GIT repoPath (Js.trim remoteOut) oldBranch;
                   pushNew GIT repoPath (Js.trim remoteOut) newBranch]) as [Hr Hi]; [|done].
      unfold renameBranch.
      erewrite (try_catch_throw _ _ _ (ExecFailure e)); [reflexivity|].
      erewrite bind_ok by exact Hres. cbn beta iota.
      erewrite bind_ok by exact Hdetect. cbn beta iota.
      erewrite bind_ok by (apply execFileAsync_ok; exact Erename).
      cbn [fst snd].
      erewrite bind_throw; [reflexivity|].
      erewrite bind_ok by exact Hdel.
      erewrite bind_throw; [reflexivity|].
      apply execFileAsync_throw. exact Epush.
    + destruct (Hout (Ok (Renamed true))
                  [configQuery GIT repoPath oldBranch;
                   renameCmd GIT repoPath oldBranch newBranch;
                   deleteRemote GIT repoPath (Js.trim remoteOut) oldBranch;
                   pushNew GIT repoPath (Js.trim remoteOut) newBranch]) as [Hr Hi]; [|done].
      unfold renameBranch.
      erewrite try_catch_ok; [reflexivity|].
      erewrite bind_ok by exact Hres. cbn beta iota.
      erewrite bind_ok by exact Hdetect. cbn beta iota.
      erewrite bind_ok by (apply execFileAsync_ok; exact Erename).
      cbn [fst snd].
      erewrite bind_ok; [reflexivity|].
      erewrite bind_ok by exact Hdel.
      erewrite bind_ok; [reflexivity|].
      apply execFileAsync_ok. exact Epush.
Qed.

(** The branch [draft] of [tracking] becomes [feature] on [origin] too. *)
Lemma rename_of_tracking_branch_updates_remote_witness :
  issued (renameBranch "git" "/repo" "draft" "feature") tracking
    = [configQuery "git" "/repo" "draft"; renameCmd "git" "/repo" "draft" "feature";
       deleteRemote "git" "/repo" "origin" "draft"; pushNew "git" "/repo" "origin" "feature"]
  /\ result (renameBranch "git" "/repo" "draft" "feature") tracking = Ok (Renamed true).
Proof.
  apply (rename_of_tracking_branch_updates_remote "git" "/repo" "draft" "feature"
           ("origin" +:+ GitService.NL) tracking); [reflexivity|reflexivity|discriminate].
Defined.

End TrackingFacts.

Module StatusHandlerFacts.
Import Trace TraceFacts GitServiceOps GitHandlers StatusCommands.

(** X30. ['git:get-status'] never throws. For a local folder that is
    not a repository it replies with a success and no changes, not with
    an error; for a remote project it hands on the listing of the remote
    service and runs no command, and a rejection of that service
    becomes a failure reply with its message. *)
Theorem status_handler_never_throws (taskPath : string) (w : World) :
  let m := handleGetStatus taskPath in
  let o := oracles w in
  (exists reply, result m w = Ok reply)
  /\ (forall e, resolveRemote_oracle o (now w) taskPath = None ->
        exec_oracle o (S (now w)) (insideQuery taskPath) = inl e ->
        result m w = Ok (Success []))
  /\ (forall c, resolveRemote_oracle o (now w) taskPath = Some c ->
        issued m w = []
        /\ result m w =
             Ok match remoteStatus_oracle o (S (now w)) c taskPath with
                | inr changes => Success changes
                | inl e => Failure (exn_message e)
                end).
Proof.
  cbv zeta. split; [|split].
  - unfold result, handleGetStatus.
    apply (BehaviourFacts.neverThrows_catch _ _ (fun error => BehaviourFacts.neverThrows_ret _)).
  - intros e Hlocal Hin.
    assert (resolveRemoteProjectForWorktreePath taskPath w = (Ok None, tick w)) as Hres.
    { unfold resolveRemoteProjectForWorktreePath, ask. by rewrite Hlocal. }
    unfold result, handleGetStatus.
    erewrite try_catch_ok; [reflexivity|].
    erewrite bind_ok by exact Hres. cbn beta iota.
    erewrite bind_ok; [reflexivity|].
    unfold getStatus.
    erewrite bind_ok; cycle 1.
    { erewrite (try_catch_throw _ _ _ (ExecFailure e)); [reflexivity|].
      erewrite bind_throw; [reflexivity|]. by apply execFileAsync_throw. }
    done.
  - intros c Hremote.
    assert (resolveRemoteProjectForWorktreePath taskPath w = (Ok (Some c), tick w)) as Hres.
    { unfold resolveRemoteProjectForWorktreePath, ask. by rewrite Hremote. }
    assert (handleGetStatus taskPath w =
            (Ok match remoteStatus_oracle (oracles w) (S (now w)) c taskPath with
                | inr changes => Success changes
                | inl e => Failure (exn_message e)
                end, tick (tick w))) as Hrun.
    { unfold handleGetStatus, try_catch. rewrite (bind_ok _ _ _ _ _ Hres).
      unfold bind, ask_or_throw. cbn [oracles now tick].
      by destruct (remoteStatus_oracle (oracles w) (S (now w)) c taskPath). }
    unfold issued, result. rewrite Hrun. cbn [fst snd tick trace].
    split; [apply drop_all|done].
Qed.

(** A folder that is not a repository has no changes. *)
Lemma status_handler_never_throws_witness :
  result (handleGetStatus "/tmp") (Example.local [] []) = Ok (Success []).
Proof.
  eapply (proj1 (proj2 (status_handler_never_throws "/tmp" (Example.local [] []))));
    reflexivity.
Defined.

End StatusHandlerFacts.
